(** * Sales analytics pipeline of [app.py]: a shallow embedding

    The report pipeline of [app.py] is written against pandas data frames.
    A data frame is modelled as the list of its rows, in row order; a column
    is a field of the row record.  The pandas primitives the pipeline calls
    are modelled once, below, from their documented behaviour:

    - [groupby(keys).agg(...)] with [reset_index()]: one row per key tuple
      that occurs in the data, rows with a missing key value dropped, keys in
      ascending order ([group_keys], [groupby]).  For the categorical column
      价位段 these are the groups of [observed=True], the default of pandas
      3; earlier versions add a row of zeros for every combination of keys
      that does not occur;
    - [frame.loc[key]] on a grouped frame: the row of the key, or [KeyError]
      ([loc]);
    - [Series.unique()]: distinct values in order of first appearance
      ([unique]);
    - [sort_values]: a sort on one column, or on several in lexicographic
      order ([sort_by], which is stable; the properties proved of sorted
      tables do not depend on the order of ties);
    - [pct_change()]: [data / data.shift(1) - 1], after a forward fill of
      missing cells in pandas before version 3 ([pct_change]);
    - [pd.cut(x, bins, labels)] with its defaults [right=True],
      [include_lowest=False] ([cut]);
    - [round(2)], [fillna(0)], [head(n)], [DataFrame.empty].

    Numbers.  Columns hold IEEE doubles.  Finite values are modelled as exact
    rationals ([Q]); the rounding error of floating-point operations is not
    modelled.  What IEEE arithmetic adds to the rationals, the two infinities
    and NaN, is modelled by [fval]: numpy divides by zero without raising.

    Strings.  A Python [str] is modelled as the [string] of its UTF-8 bytes.
    Python orders strings by code point, and UTF-8 preserves that order, so
    [String.compare] is the order used by [sorted] and [sort_values].

    Exceptions.  A function that can raise returns an [option]; [None] is the
    exception. *)

From Stdlib Require Import String List Bool Arith ZArith QArith Qround Lia.
From Stdlib Require Import DecimalString.
From Stdlib Require Import Permutation Sorted Setoid Morphisms.
From Stdlib Require Import Lqa.
From Stdlib Require OrderedTypeEx.
Import ListNotations.

Local Open Scope string_scope.
Local Open Scope Q_scope.

(** ** Floating-point values *)

Module Float.

(** A cell of a numeric column: a finite number, an infinity or NaN. *)
Inductive fval : Type :=
| Fin (q : Q)
| PInf
| NInf
| NaN.

Definition Qis_zero (q : Q) : bool := Qeq_bool q 0.
Definition Qis_neg (q : Q) : bool := negb (Qle_bool 0 q).

(** IEEE division (numpy's [true_divide]): a zero divisor gives NaN for a
    zero dividend and an infinity with the dividend's sign otherwise; it does
    not raise.  Zero is taken as [+0]. *)
Definition fdiv (a b : fval) : fval :=
  match a, b with
  | NaN, _ | _, NaN => NaN
  | Fin x, Fin y =>
      if Qis_zero y then
        if Qis_zero x then NaN else if Qis_neg x then NInf else PInf
      else Fin (x / y)
  | Fin _, PInf | Fin _, NInf => Fin 0
  | PInf, Fin y => if Qis_neg y then NInf else PInf
  | NInf, Fin y => if Qis_neg y then PInf else NInf
  | PInf, PInf | PInf, NInf | NInf, PInf | NInf, NInf => NaN
  end.

Definition fmul (a b : fval) : fval :=
  match a, b with
  | NaN, _ | _, NaN => NaN
  | Fin x, Fin y => Fin (x * y)
  | Fin x, PInf | PInf, Fin x =>
      if Qis_zero x then NaN else if Qis_neg x then NInf else PInf
  | Fin x, NInf | NInf, Fin x =>
      if Qis_zero x then NaN else if Qis_neg x then PInf else NInf
  | PInf, PInf | NInf, NInf => PInf
  | PInf, NInf | NInf, PInf => NaN
  end.

Definition fadd (a b : fval) : fval :=
  match a, b with
  | NaN, _ | _, NaN => NaN
  | Fin x, Fin y => Fin (x + y)
  | PInf, NInf | NInf, PInf => NaN
  | PInf, _ | _, PInf => PInf
  | NInf, _ | _, NInf => NInf
  end.

Definition fsub (a b : fval) : fval :=
  match a, b with
  | NaN, _ | _, NaN => NaN
  | Fin x, Fin y => Fin (x - y)
  | PInf, PInf | NInf, NInf => NaN
  | PInf, _ | _, NInf => PInf
  | NInf, _ | _, PInf => NInf
  end.

(** Sum of a column of [fval]. *)
Definition fsum (l : list fval) : fval := fold_right fadd (Fin 0) l.

(** pandas treats NaN as the missing value of a numeric column. *)
Definition is_nan (a : fval) : bool :=
  match a with NaN => true | _ => false end.

Definition is_finite (a : fval) : bool :=
  match a with Fin _ => true | _ => false end.

(** [fillna(0)] on one cell. *)
Definition fillna0 (a : fval) : fval :=
  match a with NaN => Fin 0 | _ => a end.

(** Equality of cells up to the value of the rational. *)
Definition feq (a b : fval) : Prop :=
  match a, b with
  | Fin x, Fin y => x == y
  | PInf, PInf | NInf, NInf | NaN, NaN => True
  | _, _ => False
  end.

(** [round(2)]: numpy rounds [x] to [rint(x * 100) / 100], where [rint]
    rounds to the nearest integer and a tie to the even one. *)
Definition rint (q : Q) : Z :=
  let n := Qfloor q in
  let frac := q - inject_Z n in
  match Qcompare frac (1 # 2) with
  | Lt => n
  | Gt => (n + 1)%Z
  | Eq => if Z.even n then n else (n + 1)%Z
  end.

Definition round2 (q : Q) : Q := inject_Z (rint (q * 100)) / 100.

Definition sumQ (l : list Q) : Q := fold_right Qplus 0 l.

End Float.
Export Float.

Declare Scope float_scope.
Delimit Scope float_scope with fl.
Infix "/" := fdiv : float_scope.
Infix "*" := fmul : float_scope.
Infix "-" := fsub : float_scope.
Infix "+" := fadd : float_scope.

(** ** Ordered keys *)

(** Values a frame is grouped or sorted by, with their three-way
    comparison. *)
Class Key (K : Type) := { kcmp : K -> K -> comparison }.

(** The comparison decides equality and is antisymmetric. *)
Class KeyLaws (K : Type) `{Key K} := {
  kcmp_eq : forall a b : K, kcmp a b = Eq <-> a = b;
  kcmp_antisym : forall a b : K, kcmp b a = CompOpp (kcmp a b)
}.

Definition keqb {K} `{Key K} (a b : K) : bool :=
  match kcmp a b with Eq => true | _ => false end.

Definition kleb {K} `{Key K} (a b : K) : bool :=
  match kcmp a b with Gt => false | _ => true end.

#[export] Instance string_Key : Key string := {| kcmp := String.compare |}.

#[export] Instance nat_Key : Key nat := {| kcmp := Nat.compare |}.

(** Tuples are compared lexicographically, as pandas orders a MultiIndex. *)
Definition pair_cmp {A B} `{Key A} `{Key B} (x y : A * B) : comparison :=
  match kcmp (fst x) (fst y) with
  | Eq => kcmp (snd x) (snd y)
  | c => c
  end.

#[export] Instance pair_Key {A B} `{Key A} `{Key B} : Key (A * B) :=
  {| kcmp := pair_cmp |}.

(** ** Frame primitives *)

Section Frames.
Context {A : Type}.

(** Stable insertion sort; [leb x y] says that [x] may stand before [y]. *)
Fixpoint insert_by (leb : A -> A -> bool) (x : A) (l : list A) : list A :=
  match l with
  | [] => [x]
  | y :: t => if leb x y then x :: l else y :: insert_by leb x t
  end.

Definition sort_by (leb : A -> A -> bool) (l : list A) : list A :=
  fold_right (insert_by leb) [] l.

(** [Series.unique()]: the distinct values, in order of first appearance. *)
Fixpoint unique (eqb : A -> A -> bool) (l : list A) : list A :=
  match l with
  | [] => []
  | x :: t => x :: filter (fun y => negb (eqb x y)) (unique eqb t)
  end.

(** Keep the values that are present. *)
Fixpoint present (l : list (option A)) : list A :=
  match l with
  | [] => []
  | Some x :: t => x :: present t
  | None :: t => present t
  end.
End Frames.

Section GroupBy.
Context {R K : Type} `{Key K}.

(** The key of a row, [None] when one of the key columns is missing. *)
Variable key : R -> option K.

Definition has_key (k : K) (r : R) : bool :=
  match key r with
  | Some k' => keqb k k'
  | None => false
  end.

(** The rows that have a value in every key column. *)
Definition keyed (r : R) : bool :=
  match key r with Some _ => true | None => false end.

(** The rows whose key is one of [ks]. *)
Definition in_keys (ks : list K) (r : R) : bool :=
  match key r with
  | Some k => existsb (fun k' => keqb k' k) ks
  | None => false
  end.

(** The index of a [groupby]: the distinct keys present, ascending. *)
Definition group_keys (rows : list R) : list K :=
  sort_by kleb (unique keqb (present (map key rows))).

(** A [groupby]: each key with the rows of its group, in frame order. *)
Definition groupby (rows : list R) : list (K * list R) :=
  map (fun k => (k, filter (has_key k) rows)) (group_keys rows).

(** [.loc[k]] on a frame indexed by the group keys: [None] stands for the
    [KeyError] raised when [k] is not in the index. *)
Fixpoint loc {V : Type} (index : list (K * V)) (k : K) : option V :=
  match index with
  | [] => None
  | (k', v) :: t => if keqb k k' then Some v else loc t k
  end.
End GroupBy.

(** [head(n)]. *)
Definition head {A} (n : nat) (l : list A) : list A := firstn n l.

(** [DataFrame.empty], and the truth value of a Python list. *)
Definition empty {A} (l : list A) : bool :=
  match l with [] => true | _ => false end.

(** Assigning three new columns to a frame, row by row. *)
Fixpoint zip3 {A B C D} (la : list A) (lb : list B) (lc : list C) (ld : list D)
  : list (A * B * C * D) :=
  match la, lb, lc, ld with
  | a :: la', b :: lb', c :: lc', d :: ld' => (a, b, c, d) :: zip3 la' lb' lc' ld'
  | _, _, _, _ => []
  end.

(** ** Exceptions *)

(** A computation that may raise: [None] is the raised exception. *)
Definition bind {A B} (m : option A) (f : A -> option B) : option B :=
  match m with
  | Some a => f a
  | None => None
  end.

Notation "x <- m ;; k" := (bind m (fun x => k))
  (at level 61, m at next level, right associativity).

(** [DataFrame.apply(f, axis=1)]: [f] on every row in turn; the first
    exception aborts the whole call. *)
Fixpoint apply_rows {A B} (f : A -> option B) (rows : list A) : option (list B) :=
  match rows with
  | [] => Some []
  | r :: t => b <- f r ;; bs <- apply_rows f t ;; Some (b :: bs)
  end.

(** ** Period change of a column *)

Section PctChange.

(** pandas up to version 2 fills missing values forward before it takes the
    change ([fill_method='pad']); pandas 3 does not.  [fill_pad] selects the
    behaviour. *)
Variable fill_pad : bool.

Fixpoint ffill (last : fval) (col : list fval) : list fval :=
  match col with
  | [] => []
  | x :: t => let y := if is_nan x then last else x in y :: ffill y t
  end.

(** [data / data.shift(1) - 1], the cell before the first being missing. *)
Fixpoint pct_from (prev : fval) (col : list fval) : list fval :=
  match col with
  | [] => []
  | x :: t => ((x / prev) - Fin 1)%fl :: pct_from x t
  end.

Definition pct_change (col : list fval) : list fval :=
  pct_from NaN (if fill_pad then ffill NaN col else col).

(** [col.pct_change() * 100]. *)
Definition pct_change_100 (col : list fval) : list fval :=
  map (fun d => (d * Fin 100)%fl) (pct_change col).

End PctChange.

(** ** The unified record set *)

(** One row of the combined input frame.  Columns: 商品名称, 商品链接, 零售额,
    零售量, 成交均价, 品牌, and the tags 平台 and 时间段 added by
    [combine_platform_data].  The numeric cells are present and finite; an
    empty brand cell is [None]. *)
Record record : Type := mkRecord {
  name : string;
  link : string;
  revenue : Q;
  volume : Q;
  price : Q;
  brand : option string;
  platform : string;
  period : string
}.

(** The rollup label written into the platform column. *)
Definition ALL_PLATFORMS : string := "所有平台".

(** The aggregation verbs of [agg]. *)
Definition agg_sum (f : record -> Q) (g : list record) : Q := sumQ (map f g).

Definition agg_mean (f : record -> Q) (g : list record) : Q :=
  agg_sum f g / inject_Z (Z.of_nat (length g)).

(** ** calculate_period_stats *)

Module PeriodStats.

(** A row of [stats], [total_stats] and [all_stats]. *)
Record row : Type := mkRow {
  r_period : string;
  r_platform : string;
  r_revenue : Q;
  r_volume : Q;
  r_price : Q
}.

(** A row of [final_stats]: the aggregates and the three change columns
    零售额同比变化, 零售量同比变化 and 成交均价同比变化. *)
Record final_row : Type := mkFinal {
  f_row : row;
  f_revenue_change : fval;
  f_volume_change : fval;
  f_price_change : fval
}.

Definition agg_row (p plat : string) (g : list record) : row :=
  {| r_period := p;
     r_platform := plat;
     r_revenue := round2 (agg_sum revenue g);
     r_volume := round2 (agg_sum volume g);
     r_price := round2 (agg_mean price g) |}.

(** [df.groupby([period, platform_col]).agg(...).round(2).reset_index()] *)
Definition stats (df : list record) : list row :=
  map (fun kg => agg_row (fst (fst kg)) (snd (fst kg)) (snd kg))
      (groupby (fun r => Some (period r, platform r)) df).

(** [df.groupby([period]).agg(...).round(2).reset_index()], with the
    platform column set to the rollup label. *)
Definition total_stats (df : list record) : list row :=
  map (fun kg => agg_row (fst kg) ALL_PLATFORMS (snd kg))
      (groupby (fun r => Some (period r)) df).

Definition all_stats (df : list record) : list row :=
  (stats df ++ total_stats df)%list.

(** [all_stats[all_stats[platform_col] == platform].copy()
      .sort_values(by=period)] *)
Definition platform_data (all : list row) (plat : string) : list row :=
  sort_by (fun a b => kleb (r_period a) (r_period b))
          (filter (fun r => keqb (r_platform r) plat) all).

(** The rows of one period. *)
Definition period_rows (p : string) (t : list row) : list row :=
  filter (fun x => keqb (r_period x) p) t.

Definition with_changes (fill_pad : bool) (data : list row) : list final_row :=
  map (fun x => match x with (r, d1, d2, d3) => mkFinal r d1 d2 d3 end)
      (zip3 data
            (pct_change_100 fill_pad (map (fun r => Fin (r_revenue r)) data))
            (pct_change_100 fill_pad (map (fun r => Fin (r_volume r)) data))
            (pct_change_100 fill_pad (map (fun r => Fin (r_price r)) data))).

(** The change columns read row by row: the change of a value against the
    value of the row before, missing on the first row. *)
Definition change_of (prev : option Q) (v : Q) : fval :=
  match prev with
  | None => NaN
  | Some u => (((Fin v / Fin u) - Fin 1) * Fin 100)%fl
  end.

Fixpoint changes_after (prev : option row) (data : list row) : list final_row :=
  match data with
  | [] => []
  | r :: t =>
      mkFinal r (change_of (option_map r_revenue prev) (r_revenue r))
                (change_of (option_map r_volume prev) (r_volume r))
                (change_of (option_map r_price prev) (r_price r))
      :: changes_after (Some r) t
  end.

(** The rows of one platform in a table. *)
Definition platform_rows (plat : string) (t : list final_row) : list final_row :=
  filter (fun x => keqb (r_platform (f_row x)) plat) t.

Definition calculate_period_stats (fill_pad : bool) (df : list record)
  : list final_row :=
  let all := all_stats df in
  flat_map (fun plat => with_changes fill_pad (platform_data all plat))
           (unique keqb (map r_platform all)).

End PeriodStats.

(** ** calculate_brand_share *)

Module BrandShare.

(** A row of [brand_stats] and [all_platform_brand_stats] before the share
    columns are assigned. *)
Record row : Type := mkRow {
  r_period : string;
  r_platform : string;
  r_brand : string;
  r_revenue : Q;
  r_volume : Q
}.

(** The same row with the columns 零售额占比 and 零售量占比. *)
Record share_row : Type := mkShare {
  s_row : row;
  s_revenue_share : fval;
  s_volume_share : fval
}.

(** The two summed columns of a totals frame. *)
Definition totals (g : list record) : Q * Q :=
  (agg_sum revenue g, agg_sum volume g).

(** [df.groupby([period, platform_col, '品牌']).agg(...).reset_index()];
    records without a brand belong to no group. *)
Definition brand_stats (df : list record) : list row :=
  map (fun kg =>
         match kg with
         | (p, plat, b, g) => mkRow p plat b (agg_sum revenue g) (agg_sum volume g)
         end)
      (groupby (fun r => option_map (fun b => (period r, platform r, b)) (brand r))
               df).

(** [df.groupby([period, platform_col]).agg(...)], indexed by its keys. *)
Definition period_platform_totals (df : list record)
  : list (string * string * (Q * Q)) :=
  map (fun kg => (fst kg, totals (snd kg)))
      (groupby (fun r => Some (period r, platform r)) df).

(** [df.groupby([period, '品牌']).agg(...).reset_index()], then the platform
    column set to the rollup label. *)
Definition all_platform_brand_stats (df : list record) : list row :=
  map (fun kg =>
         match kg with
         | (p, b, g) => mkRow p ALL_PLATFORMS b (agg_sum revenue g) (agg_sum volume g)
         end)
      (groupby (fun r => option_map (fun b => (period r, b)) (brand r)) df).

(** [df.groupby([period]).agg(...)] *)
Definition all_platform_totals (df : list record) : list (string * (Q * Q)) :=
  map (fun kg => (fst kg, totals (snd kg)))
      (groupby (fun r => Some (period r)) df).

(** [(x[col] / totals.loc[key, col]) * 100] *)
Definition share (value : Q) (total : Q) : fval :=
  ((Fin value / Fin total) * Fin 100)%fl.

(** The lambdas of lines 94-101: the totals of the row's (period, platform). *)
Definition revenue_share (tot : list (string * string * (Q * Q))) (x : row)
  : option fval :=
  t <- loc tot (r_period x, r_platform x) ;; Some (share (r_revenue x) (fst t)).

Definition volume_share (tot : list (string * string * (Q * Q))) (x : row)
  : option fval :=
  t <- loc tot (r_period x, r_platform x) ;; Some (share (r_volume x) (snd t)).

(** The lambdas of lines 115-122: the totals of the row's period. *)
Definition all_revenue_share (tot : list (string * (Q * Q))) (x : row)
  : option fval :=
  t <- loc tot (r_period x) ;; Some (share (r_revenue x) (fst t)).

Definition all_volume_share (tot : list (string * (Q * Q))) (x : row)
  : option fval :=
  t <- loc tot (r_period x) ;; Some (share (r_volume x) (snd t)).

(** Assigning the two share columns. *)
Definition assign_shares (rows : list row) (rs vs : list fval) : list share_row :=
  map (fun x => mkShare (fst (fst x)) (snd (fst x)) (snd x))
      (combine (combine rows rs) vs).

(** The per-platform part of the result, lines 82-101. *)
Definition platform_shares (df : list record) : option (list share_row) :=
  let rows := brand_stats df in
  let tot := period_platform_totals df in
  rs <- apply_rows (revenue_share tot) rows ;;
  vs <- apply_rows (volume_share tot) rows ;;
  Some (assign_shares rows rs vs).

(** The rollup part of the result, lines 104-122. *)
Definition rollup_shares (df : list record) : option (list share_row) :=
  let rows := all_platform_brand_stats df in
  let tot := all_platform_totals df in
  rs <- apply_rows (all_revenue_share tot) rows ;;
  vs <- apply_rows (all_volume_share tot) rows ;;
  Some (assign_shares rows rs vs).

Definition calculate_brand_share (df : list record) : option (list share_row) :=
  per_platform <- platform_shares df ;;
  rollup <- rollup_shares df ;;
  Some (per_platform ++ rollup)%list.

(** The rows of one (period, platform) stratum of a share table. *)
Definition stratum (p plat : string) (t : list share_row) : list share_row :=
  filter (fun x => keqb (r_period (s_row x)) p && keqb (r_platform (s_row x)) plat) t.

(** The records of one (period, platform) stratum and of one period: the
    groups the two totals frames sum. *)
Definition stratum_records (p plat : string) (df : list record) : list record :=
  filter (has_key (fun r => Some (period r, platform r)) (p, plat)) df.

Definition period_records (p : string) (df : list record) : list record :=
  filter (has_key (fun r => Some (period r)) p) df.

(** The rows of one period of a share table. *)
Definition period_stratum (p : string) (t : list share_row) : list share_row :=
  filter (fun x => keqb (r_period (s_row x)) p) t.

(** The per-platform rows of one (period, brand) stratum. *)
Definition brand_rows (p b : string) (t : list row) : list row :=
  filter (fun x => keqb (r_period x) p && keqb (r_brand x) b) t.

(** The share columns as functions of the row: the value over the total of
    the records of the row's stratum. *)
Definition platform_share_row (df : list record) (x : row) : share_row :=
  mkShare x
    (share (r_revenue x)
           (agg_sum revenue (stratum_records (r_period x) (r_platform x) df)))
    (share (r_volume x)
           (agg_sum volume (stratum_records (r_period x) (r_platform x) df))).

Definition rollup_share_row (df : list record) (x : row) : share_row :=
  mkShare x
    (share (r_revenue x) (agg_sum revenue (period_records (r_period x) df)))
    (share (r_volume x) (agg_sum volume (period_records (r_period x) df))).

End BrandShare.

(** ** Price segments *)

Module Segment.

(** [pd.cut] checks its bins before it bins anything: it raises when the
    edges decrease somewhere, and when an edge is repeated in a list of other
    than two edges. *)
Fixpoint non_decreasing (bins : list Q) : bool :=
  match bins with
  | a :: (b :: _) as t => Qle_bool a b && non_decreasing t
  | _ => true
  end.

Fixpoint increasing (bins : list Q) : bool :=
  match bins with
  | a :: (b :: _) as t => negb (Qle_bool b a) && increasing t
  | _ => true
  end.

Definition bins_valid (bins : list Q) : bool :=
  non_decreasing bins && (increasing bins || Nat.eqb (length bins) 2).

(** [bins.searchsorted(x, side='left')] on ascending bins: the number of
    edges below [x]. *)
Fixpoint searchsorted_left (bins : list Q) (x : Q) : nat :=
  match bins with
  | [] => 0
  | b :: t => if negb (Qle_bool x b) then S (searchsorted_left t x) else 0%nat
  end.

(** The category code [pd.cut] gives one price, with [right=True] and
    [include_lowest=False]: the intervals are open on the left and closed on
    the right, and a price at or below the first edge or above the last has
    no category. *)
Definition cut (bins : list Q) (x : Q) : option nat :=
  let i := searchsorted_left bins x in
  if Nat.eqb i 0 || Nat.eqb i (length bins) then None else Some (i - 1)%nat.

Section Labels.

(** Python's [str] of a boundary, as it appears in the f-string. *)
Variable fmt : Q -> string.

(** [[f"{ranges[i]}-{ranges[i+1]}" for i in range(len(ranges)-1)]] *)
Definition label (ranges : list Q) (i : nat) : string :=
  (fmt (nth i ranges 0) ++ "-" ++ fmt (nth (i + 1) ranges 0))%string.

Definition labels (ranges : list Q) : list string :=
  map (label ranges) (seq 0 (length ranges - 1)).

(** The label of the segment of a price: the cell of the 价位段 column. *)
Definition segment_label (ranges : list Q) (x : Q) : option string :=
  option_map (fun i => nth i (labels ranges) "") (cut ranges x).

End Labels.

(** A record with its 价位段 cell, kept as the category code. *)
Definition segmented : Type := record * option nat.

(** [df['价位段'] = pd.cut(df['成交均价'], bins=price_ranges, labels=labels)] *)
Definition with_segments (df : list record) (price_ranges : list Q)
  : option (list segmented) :=
  if bins_valid price_ranges
  then Some (map (fun r => (r, cut price_ranges (price r))) df)
  else None.

End Segment.

(** ** analyze_price_segments *)

Module PriceSegments.
Import Segment.

(** A row of [segment_stats] and [all_platform_segment_stats].  The frame
    comes from a [groupby] on the 价位段 column, so every row has a segment:
    the test [x['价位段'] is not None] of the share lambdas holds on each. *)
Record row : Type := mkRow {
  r_period : string;
  r_platform : string;
  r_segment : nat;
  r_revenue : Q;
  r_volume : Q
}.

Record share_row : Type := mkShare {
  s_row : row;
  s_revenue_share : fval;
  s_volume_share : fval
}.

(** A row of the result, with the columns 零售额占比变化 and 零售量占比变化. *)
Record final_row : Type := mkFinal {
  f_row : share_row;
  f_revenue_share_change : fval;
  f_volume_share_change : fval
}.

Definition records (g : list segmented) : list record := map fst g.

Definition totals (g : list segmented) : Q * Q :=
  (agg_sum revenue (records g), agg_sum volume (records g)).

(** [df.groupby([period, platform_col, '价位段']).agg(...).reset_index()];
    records without a segment belong to no group. *)
Definition segment_stats (sdf : list segmented) : list row :=
  map (fun kg =>
         match kg with
         | (p, plat, s, g) =>
             mkRow p plat s (agg_sum revenue (records g)) (agg_sum volume (records g))
         end)
      (groupby (fun x => option_map (fun s => (period (fst x), platform (fst x), s))
                                    (snd x))
               sdf).

(** [df.groupby([period, platform_col]).agg(...)]: every record of the
    stratum, with or without a segment. *)
Definition period_platform_totals (sdf : list segmented)
  : list (string * string * (Q * Q)) :=
  map (fun kg => (fst kg, totals (snd kg)))
      (groupby (fun x => Some (period (fst x), platform (fst x))) sdf).

Definition all_platform_segment_stats (sdf : list segmented) : list row :=
  map (fun kg =>
         match kg with
         | (p, s, g) =>
             mkRow p ALL_PLATFORMS s
                   (agg_sum revenue (records g)) (agg_sum volume (records g))
         end)
      (groupby (fun x => option_map (fun s => (period (fst x), s)) (snd x)) sdf).

Definition all_platform_totals (sdf : list segmented) : list (string * (Q * Q)) :=
  map (fun kg => (fst kg, totals (snd kg)))
      (groupby (fun x => Some (period (fst x))) sdf).

(** The records of one (period, platform) stratum and of one period, with
    or without a segment: the groups the two totals frames sum. *)
Definition stratum_records (p plat : string) (sdf : list segmented) : list record :=
  records (filter (has_key (fun x => Some (period (fst x), platform (fst x))) (p, plat))
                  sdf).

Definition period_records (p : string) (sdf : list segmented) : list record :=
  records (filter (has_key (fun x => Some (period (fst x))) p) sdf).

(** The records summed into a row of [segment_stats] and into a row of
    [all_platform_segment_stats], [c] giving the category code of a record. *)
Definition in_row (c : record -> option nat) (p plat : string) (seg : nat)
    (r : record) : bool :=
  keqb (period r) p && keqb (platform r) plat
  && match c r with Some s => keqb s seg | None => false end.

Definition in_rollup_row (c : record -> option nat) (p : string) (seg : nat)
    (r : record) : bool :=
  keqb (period r) p
  && match c r with Some s => keqb s seg | None => false end.

(** The lambdas of lines 150-157. *)
Definition revenue_share (tot : list (string * string * (Q * Q))) (x : row)
  : option fval :=
  t <- loc tot (r_period x, r_platform x) ;;
  Some (BrandShare.share (r_revenue x) (fst t)).

Definition volume_share (tot : list (string * string * (Q * Q))) (x : row)
  : option fval :=
  t <- loc tot (r_period x, r_platform x) ;;
  Some (BrandShare.share (r_volume x) (snd t)).

(** The lambdas of lines 171-178. *)
Definition all_revenue_share (tot : list (string * (Q * Q))) (x : row)
  : option fval :=
  t <- loc tot (r_period x) ;; Some (BrandShare.share (r_revenue x) (fst t)).

Definition all_volume_share (tot : list (string * (Q * Q))) (x : row)
  : option fval :=
  t <- loc tot (r_period x) ;; Some (BrandShare.share (r_volume x) (snd t)).

Definition assign_shares (rows : list row) (rs vs : list fval) : list share_row :=
  map (fun x => mkShare (fst (fst x)) (snd (fst x)) (snd x))
      (combine (combine rows rs) vs).

(** Lines 138-157. *)
Definition platform_shares (sdf : list segmented) : option (list share_row) :=
  let rows := segment_stats sdf in
  let tot := period_platform_totals sdf in
  rs <- apply_rows (revenue_share tot) rows ;;
  vs <- apply_rows (volume_share tot) rows ;;
  Some (assign_shares rows rs vs).

(** Lines 160-178. *)
Definition rollup_shares (sdf : list segmented) : option (list share_row) :=
  let rows := all_platform_segment_stats sdf in
  let tot := all_platform_totals sdf in
  rs <- apply_rows (all_revenue_share tot) rows ;;
  vs <- apply_rows (all_volume_share tot) rows ;;
  Some (assign_shares rows rs vs).

(** The share columns as functions of the row. *)
Definition platform_share_row (sdf : list segmented) (x : row) : share_row :=
  mkShare x
    (BrandShare.share (r_revenue x)
       (agg_sum revenue (stratum_records (r_period x) (r_platform x) sdf)))
    (BrandShare.share (r_volume x)
       (agg_sum volume (stratum_records (r_period x) (r_platform x) sdf))).

Definition rollup_share_row (sdf : list segmented) (x : row) : share_row :=
  mkShare x
    (BrandShare.share (r_revenue x) (agg_sum revenue (period_records (r_period x) sdf)))
    (BrandShare.share (r_volume x) (agg_sum volume (period_records (r_period x) sdf))).

(** [all_segment_stats], line 181. *)
Definition all_segment_stats (sdf : list segmented) : option (list share_row) :=
  per_platform <- platform_shares sdf ;;
  rollup <- rollup_shares sdf ;;
  Some (per_platform ++ rollup)%list.

(** [platform_data[platform_data['价位段'] == price_segment]
      .sort_values(by=period)] *)
Definition segment_data (data : list share_row) (seg : nat) : list share_row :=
  sort_by (fun a b => kleb (r_period (s_row a)) (r_period (s_row b)))
          (filter (fun x => keqb (r_segment (s_row x)) seg) data).

Definition with_changes (fill_pad : bool) (data : list share_row) : list final_row :=
  map (fun x => mkFinal (fst (fst x)) (snd (fst x)) (snd x))
      (combine (combine data (pct_change_100 fill_pad (map s_revenue_share data)))
               (pct_change_100 fill_pad (map s_volume_share data))).

(** The frames appended to [result_dfs], lines 186-194. *)
Definition result_dfs (fill_pad : bool) (all : list share_row)
  : list (list final_row) :=
  flat_map
    (fun plat =>
       let platform_data := filter (fun x => keqb (r_platform (s_row x)) plat) all in
       map (fun seg => with_changes fill_pad (segment_data platform_data seg))
           (unique keqb (map (fun x => r_segment (s_row x)) platform_data)))
    (unique keqb (map (fun x => r_platform (s_row x)) all)).

(** When no frame was appended the function returns [all_segment_stats],
    which has no change columns: their cells are missing. *)
Definition analyze_price_segments (fill_pad : bool) (df : list record)
    (price_ranges : list Q) : option (list final_row) :=
  sdf <- with_segments df price_ranges ;;
  all <- all_segment_stats sdf ;;
  let dfs := result_dfs fill_pad all in
  if empty dfs
  then Some (map (fun x => mkFinal x NaN NaN) all)
  else Some (concat dfs).

End PriceSegments.

(** ** get_top_brands_by_segment *)

Module TopBrands.
Import Segment.

(** A row of [top_brands] and [all_platform_top_brands]. *)
Record row : Type := mkRow {
  r_period : string;
  r_platform : string;
  r_segment : nat;
  r_brand : string;
  r_revenue : Q;
  r_volume : Q
}.

Record share_row : Type := mkShare {
  s_row : row;
  s_revenue_share : fval;
  s_volume_share : fval
}.

Definition records (g : list segmented) : list record := map fst g.

Definition totals (g : list segmented) : Q * Q :=
  (agg_sum revenue (records g), agg_sum volume (records g)).

(** The key of a record in the four-column [groupby]: both the segment and
    the brand must be present. *)
Definition brand_key (x : segmented) : option (string * string * nat * string) :=
  match snd x, brand (fst x) with
  | Some s, Some b => Some (period (fst x), platform (fst x), s, b)
  | _, _ => None
  end.

Definition top_brands (sdf : list segmented) : list row :=
  map (fun kg =>
         match kg with
         | (p, plat, s, b, g) =>
             mkRow p plat s b (agg_sum revenue (records g)) (agg_sum volume (records g))
         end)
      (groupby brand_key sdf).

(** [df.groupby([period, platform_col, '价位段']).agg(...)] *)
Definition segment_totals (sdf : list segmented)
  : list (string * string * nat * (Q * Q)) :=
  map (fun kg => (fst kg, totals (snd kg)))
      (groupby (fun x => option_map (fun s => (period (fst x), platform (fst x), s))
                                    (snd x))
               sdf).

(** A row handed to the share functions: its 价位段 cell may be missing. *)
Record cells : Type := mkCells {
  c_period : string;
  c_platform : string;
  c_segment : option nat;
  c_revenue : Q;
  c_volume : Q
}.

Definition cells_of (x : row) : cells :=
  mkCells (r_period x) (r_platform x) (Some (r_segment x)) (r_revenue x) (r_volume x).

(** [try: ... except: return 0]: an exception raised in the body is turned
    into the value 0. *)
Definition try_or_zero (body : option fval) : fval :=
  match body with
  | Some v => v
  | None => Fin 0
  end.

(** [calculate_share], lines 223-230.  With a missing segment the function
    returns 0: the index of the totals holds no missing key. *)
Definition calculate_share (tot : list (string * string * nat * (Q * Q)))
    (x : cells) : fval :=
  try_or_zero
    match c_segment x with
    | Some s =>
        t <- loc tot (c_period x, c_platform x, s) ;;
        Some (BrandShare.share (c_revenue x) (fst t))
    | None => Some (Fin 0)
    end.

(** [calculate_volume_share], lines 232-239. *)
Definition calculate_volume_share (tot : list (string * string * nat * (Q * Q)))
    (x : cells) : fval :=
  try_or_zero
    match c_segment x with
    | Some s =>
        t <- loc tot (c_period x, c_platform x, s) ;;
        Some (BrandShare.share (c_volume x) (snd t))
    | None => Some (Fin 0)
    end.

Definition with_shares (tot : list (string * string * nat * (Q * Q)))
    (rows : list row) : list share_row :=
  map (fun x => mkShare x (calculate_share tot (cells_of x))
                          (calculate_volume_share tot (cells_of x)))
      rows.

(** [sort_values(by='零售额', ascending=False)] *)
Definition by_revenue_desc (a b : share_row) : bool :=
  Qle_bool (r_revenue (s_row b)) (r_revenue (s_row a)).

(** Sorted by falling revenue: every row has at least the revenue of every
    row after it. *)
Definition falling (l : list share_row) : Prop :=
  StronglySorted (fun a b => r_revenue (s_row b) <= r_revenue (s_row a)) l.

(** The rows of one (period, platform, segment) stratum. *)
Definition candidates (t : list share_row) (p plat : string) (seg : nat)
  : list share_row :=
  filter (fun x => keqb (r_period (s_row x)) p
                   && keqb (r_platform (s_row x)) plat
                   && keqb (r_segment (s_row x)) seg) t.

(** The frame appended for one stratum, lines 251-257. *)
Definition top_n (n : nat) (stratum : list share_row) : list share_row :=
  head n (sort_by by_revenue_desc stratum).

Definition periods_of (t : list share_row) : list string :=
  unique keqb (map (fun x => r_period (s_row x)) t).

Definition platforms_of (t : list share_row) : list string :=
  unique keqb (map (fun x => r_platform (s_row x)) t).

Definition segments_of (t : list share_row) : list nat :=
  unique keqb (map (fun x => r_segment (s_row x)) t).

(** [result_dfs], lines 245-257: one frame per period, platform and
    segment of the table. *)
Definition result_dfs (n : nat) (t : list share_row) : list (list share_row) :=
  flat_map (fun p =>
    flat_map (fun plat =>
      map (fun seg => top_n n (candidates t p plat seg)) (segments_of t))
      (platforms_of t))
    (periods_of t).

(** The rollup frame, lines 261-293. *)
Definition rollup_key (x : segmented) : option (string * nat * string) :=
  match snd x, brand (fst x) with
  | Some s, Some b => Some (period (fst x), s, b)
  | _, _ => None
  end.

Definition all_platform_top_brands (sdf : list segmented) : list row :=
  map (fun kg =>
         match kg with
         | (p, s, b, g) =>
             mkRow p ALL_PLATFORMS s b
                   (agg_sum revenue (records g)) (agg_sum volume (records g))
         end)
      (groupby rollup_key sdf).

Definition all_platform_segment_totals (sdf : list segmented)
  : list (string * nat * (Q * Q)) :=
  map (fun kg => (fst kg, totals (snd kg)))
      (groupby (fun x => option_map (fun s => (period (fst x), s)) (snd x)) sdf).

(** [calculate_all_platform_share], lines 273-280. *)
Definition calculate_all_platform_share (tot : list (string * nat * (Q * Q)))
    (x : cells) : fval :=
  try_or_zero
    match c_segment x with
    | Some s =>
        t <- loc tot (c_period x, s) ;;
        Some (BrandShare.share (c_revenue x) (fst t))
    | None => Some (Fin 0)
    end.

(** [calculate_all_platform_volume_share], lines 282-289. *)
Definition calculate_all_platform_volume_share
    (tot : list (string * nat * (Q * Q))) (x : cells) : fval :=
  try_or_zero
    match c_segment x with
    | Some s =>
        t <- loc tot (c_period x, s) ;;
        Some (BrandShare.share (c_volume x) (snd t))
    | None => Some (Fin 0)
    end.

Definition with_all_platform_shares (tot : list (string * nat * (Q * Q)))
    (rows : list row) : list share_row :=
  map (fun x => mkShare x (calculate_all_platform_share tot (cells_of x))
                          (calculate_all_platform_volume_share tot (cells_of x)))
      rows.

(** The rows of one (period, segment) stratum of the rollup frame. *)
Definition all_platform_candidates (t : list share_row) (p : string) (seg : nat)
  : list share_row :=
  filter (fun x => keqb (r_period (s_row x)) p && keqb (r_segment (s_row x)) seg) t.

(** [all_platform_result_dfs], lines 296-306. *)
Definition all_platform_result_dfs (n : nat) (t : list share_row)
  : list (list share_row) :=
  flat_map (fun p =>
    map (fun seg => top_n n (all_platform_candidates t p seg)) (segments_of t))
    (periods_of t).

(** The strata the two loops visit, in the order they do. *)
Definition stratum_key (x : share_row) : string * string * nat :=
  (r_period (s_row x), r_platform (s_row x), r_segment (s_row x)).

Definition strata (t : list share_row) : list (string * string * nat) :=
  flat_map (fun p =>
    flat_map (fun plat => map (fun seg => (p, plat, seg)) (segments_of t))
             (platforms_of t))
    (periods_of t).

Definition rollup_stratum_key (x : share_row) : string * nat :=
  (r_period (s_row x), r_segment (s_row x)).

Definition rollup_strata (t : list share_row) : list (string * nat) :=
  flat_map (fun p => map (fun seg => (p, seg)) (segments_of t)) (periods_of t).

(** The frames with shares that the two loops read. *)
Definition platform_table (sdf : list segmented) : list share_row :=
  with_shares (segment_totals sdf) (top_brands sdf).

Definition rollup_table (sdf : list segmented) : list share_row :=
  with_all_platform_shares (all_platform_segment_totals sdf)
                           (all_platform_top_brands sdf).

(** [n] is the keyword argument of the source, 5 by default. *)
Definition get_top_brands_by_segment (df : list record) (price_ranges : list Q)
    (n : nat) : option (list share_row) :=
  sdf <- with_segments df price_ranges ;;
  let dfs := result_dfs n (platform_table sdf) in
  let all_dfs := all_platform_result_dfs n (rollup_table sdf) in
  if negb (empty dfs) && negb (empty all_dfs) then Some (concat (dfs ++ all_dfs))
  else if negb (empty dfs) then Some (concat dfs)
  else if negb (empty all_dfs) then Some (concat all_dfs)
  else Some [].

(** The sheet 价位段TOP品牌 written by [format_excel_output], lines 464-470:
    the table, or a one-cell notice when the table has no row. *)
Inductive sheet : Type :=
| Table (rows : list share_row)
| Notice (column : string) (text : string).

Definition fill_row (x : share_row) : share_row :=
  mkShare (s_row x) (fillna0 (s_revenue_share x)) (fillna0 (s_volume_share x)).

Definition top_brands_sheet (top_brands : list share_row) : sheet :=
  let top_brands := map fill_row top_brands in
  if negb (empty top_brands) then Table top_brands
  else Notice "提示" "没有找到符合条件的价位段TOP品牌数据".

End TopBrands.

(** ** Comparison sheets *)

(** The numeric entries of the Python dict [row] that becomes one line of a
    comparison sheet: the column name, and the value or [None].  Entries keep
    the order in which their keys were first assigned. *)
Module Dict.

Definition dict : Type := list (string * option fval).

(** [key in row] and [row[key]] in one: [None] when the key is not there. *)
Fixpoint get (d : dict) (k : string) : option (option fval) :=
  match d with
  | [] => None
  | (k', v) :: t => if String.eqb k k' then Some v else get t k
  end.

(** [row[key] = v] *)
Fixpoint set (d : dict) (k : string) (v : option fval) : dict :=
  match d with
  | [] => [(k, v)]
  | (k', v') :: t => if String.eqb k k' then (k, v) :: t else (k', v') :: set t k v
  end.

End Dict.

(** *** create_brand_comparison_sheet *)

Module BrandComparison.
Import BrandShare.

(** One line of the sheet 品牌占比对比分析: the entries 平台 and 品牌 of the
    dict, and its numeric entries.  No numeric column name equals 平台 or
    品牌: each ends in a suffix longer than those. *)
Record wide_row : Type := mkWide {
  w_platform : string;
  w_brand : string;
  w_cells : Dict.dict
}.

Definition revenue_key (period : string) : string :=
  (period ++ " 零售额")%string.

Definition share_key (period : string) : string :=
  (period ++ " 零售额占比(%)")%string.

Definition change_key (period prev_period : string) : string :=
  (period ++ " vs " ++ prev_period ++ " 占比变化(%)")%string.

(** Lines 664-671: the revenue and the share of the brand in each period of
    the platform, [None] where the brand has no row. *)
Definition add_period (brand_data : list share_row) (row : Dict.dict)
    (period : string) : Dict.dict :=
  match filter (fun x => keqb (r_period (s_row x)) period) brand_data with
  | x :: _ =>
      Dict.set (Dict.set row (revenue_key period) (Some (Fin (r_revenue (s_row x)))))
               (share_key period) (Some (s_revenue_share x))
  | [] =>
      Dict.set (Dict.set row (revenue_key period) None) (share_key period) None
  end.

(** Lines 674-683: [prev_share] and [prev_period] are assigned together, so
    they are kept as one optional pair. *)
Definition add_change (st : Dict.dict * option (fval * string)) (period : string)
  : Dict.dict * option (fval * string) :=
  match Dict.get (fst st) (share_key period) with
  | Some (Some v) =>
      let row :=
        match snd st with
        | Some (prev_share, prev_period) =>
            Dict.set (fst st) (change_key period prev_period)
                     (Some (v - prev_share)%fl)
        | None => fst st
        end in
      (row, Some (v, period))
  | _ => st
  end.

Definition brand_row (platform brand : string) (periods : list string)
    (brand_data : list share_row) : wide_row :=
  let row := fold_left (add_period brand_data) periods [] in
  let row := fst (fold_left add_change (sort_by kleb periods) (row, None)) in
  mkWide platform brand row.

(** Lines 650-685. *)
Definition comparison_data (top_brands : list share_row) : list wide_row :=
  flat_map
    (fun platform =>
       let platform_data :=
         filter (fun x => keqb (r_platform (s_row x)) platform) top_brands in
       let top_brands_in_platform :=
         unique keqb (map (fun x => r_brand (s_row x)) platform_data) in
       let periods := unique keqb (map (fun x => r_period (s_row x)) platform_data) in
       flat_map
         (fun brand =>
            let brand_data :=
              filter (fun x => keqb (r_brand (s_row x)) brand) platform_data in
            if (1 <? length brand_data)%nat
            then [brand_row platform brand periods brand_data]
            else [])
         top_brands_in_platform)
    (unique keqb (map (fun x => r_platform (s_row x)) top_brands)).

(** The sheet written, or [None] when the function writes none. *)
Definition create_brand_comparison_sheet (top_brands : list share_row)
  : option (list wide_row) :=
  if empty top_brands
     || (length (unique keqb (map (fun x => r_period (s_row x)) top_brands)) <=? 1)%nat
  then None
  else
    let data := comparison_data top_brands in
    if negb (empty data) then Some data else None.

(** The key of a row of the long table. *)
Definition table_key (x : share_row) : string * string * string :=
  (r_period (s_row x), r_platform (s_row x), r_brand (s_row x)).

(** The rows of one brand on one platform, and the periods they are in. *)
Definition entity_rows (t : list share_row) (platform brand : string)
  : list share_row :=
  filter (fun x => keqb (r_platform (s_row x)) platform
                   && keqb (r_brand (s_row x)) brand) t.

Definition entity_periods (t : list share_row) (platform brand : string)
  : list string :=
  unique keqb (map (fun x => r_period (s_row x)) (entity_rows t platform brand)).

(** The sheet has a line for the brand on the platform. *)
Definition in_sheet (sheet : option (list wide_row)) (platform brand : string)
  : Prop :=
  exists rows w,
    sheet = Some rows /\ In w rows /\ w_platform w = platform /\ w_brand w = brand.

End BrandComparison.

(** *** create_top_products_comparison_sheet *)

Module ProductComparison.

(** A row of the table 价位段TOP产品 as [format_excel_output] passes it on:
    the segment is the label, a string. *)
Record row : Type := mkRow {
  r_period : string;
  r_platform : string;
  r_segment : string;
  r_name : string;
  r_link : string;
  r_revenue : Q;
  r_volume : Q;
  r_price : Q
}.

Record wide_row : Type := mkWide {
  w_platform : string;
  w_segment : string;
  w_name : string;
  w_link : string;
  w_cells : Dict.dict
}.

(** [product_period_count]: a dict from (platform, segment, product name) to
    the set of periods seen, the set kept as a duplicate-free list. *)
Definition counts : Type := list (string * string * string * list string).

Definition set_add (s : list string) (p : string) : list string :=
  if existsb (String.eqb p) s then s else (s ++ [p])%list.

Fixpoint count_add (d : counts) (k : string * string * string) (p : string)
  : counts :=
  match d with
  | [] => [(k, set_add [] p)]
  | (k', s) :: t =>
      if keqb k k' then (k', set_add s p) :: t else (k', s) :: count_add t k p
  end.

(** [product_period_count.get(key, set())] *)
Fixpoint count_get (d : counts) (k : string * string * string) : list string :=
  match d with
  | [] => []
  | (k', s) :: t => if keqb k k' then s else count_get t k
  end.

Definition platforms_of (t : list row) : list string :=
  unique keqb (map r_platform t).

Definition platform_data (t : list row) (platform : string) : list row :=
  filter (fun x => keqb (r_platform x) platform) t.

Definition segments_of (data : list row) : list string :=
  unique keqb (map r_segment data).

Definition segment_data (data : list row) (segment : string) : list row :=
  filter (fun x => keqb (r_segment x) segment) data.

(** Lines 832-843. *)
Definition product_period_count (top_products : list row) : counts :=
  fold_left
    (fun d platform =>
       let pdata := platform_data top_products platform in
       fold_left
         (fun d segment =>
            fold_left
              (fun d x => count_add d (platform, segment, r_name x) (r_period x))
              (segment_data pdata segment) d)
         (segments_of pdata) d)
    (platforms_of top_products) [].

Definition value_key (metric period : string) : string :=
  (period ++ " " ++ metric)%string.

Definition change_key (label period prev_period : string) : string :=
  (period ++ " vs " ++ prev_period ++ " " ++ label ++ "(%)")%string.

(** Lines 877-886. *)
Definition add_period (product_data : list row) (d : Dict.dict) (period : string)
  : Dict.dict :=
  match filter (fun x => keqb (r_period x) period) product_data with
  | x :: _ =>
      Dict.set
        (Dict.set
           (Dict.set d (value_key "零售额" period) (Some (Fin (r_revenue x))))
           (value_key "零售量" period) (Some (Fin (r_volume x))))
        (value_key "成交均价" period) (Some (Fin (r_price x)))
  | [] =>
      Dict.set
        (Dict.set (Dict.set d (value_key "零售额" period) None)
                  (value_key "零售量" period) None)
        (value_key "成交均价" period) None
  end.

(** [prev_value != 0] *)
Definition nonzero (v : fval) : bool :=
  match v with
  | Fin q => negb (Qis_zero q)
  | _ => true
  end.

(** One step of a change loop, lines 895-901 (and 907-913, 919-925). *)
Definition add_change (metric label : string)
    (st : Dict.dict * option (fval * string)) (period : string)
  : Dict.dict * option (fval * string) :=
  match Dict.get (fst st) (value_key metric period) with
  | Some (Some v) =>
      let d :=
        match snd st with
        | Some (prev_value, prev_period) =>
            if nonzero prev_value
            then Dict.set (fst st) (change_key label period prev_period)
                          (Some (((v / prev_value) - Fin 1) * Fin 100)%fl)
            else fst st
        | None => fst st
        end in
      (d, Some (v, period))
  | _ => st
  end.

Definition add_changes (metric label : string) (sorted_periods : list string)
    (d : Dict.dict) : Dict.dict :=
  fst (fold_left (add_change metric label) sorted_periods (d, None)).

(** Lines 867-927.  [product_data] holds at least the row the product name
    was read from, so [iloc[0]] finds a link. *)
Definition product_row (platform segment product_name : string)
    (periods : list string) (product_data : list row) : wide_row :=
  let d := fold_left (add_period product_data) periods [] in
  let sorted_periods := sort_by kleb periods in
  let d := add_changes "零售额" "零售额变化" sorted_periods d in
  let d := add_changes "零售量" "零售量变化" sorted_periods d in
  let d := add_changes "成交均价" "均价变化" sorted_periods d in
  mkWide platform segment product_name (hd "" (map r_link product_data)) d.

(** Lines 846-927. *)
Definition comparison_data (top_products : list row) : list wide_row :=
  let product_period_count := product_period_count top_products in
  flat_map
    (fun platform =>
       let pdata := platform_data top_products platform in
       flat_map
         (fun segment =>
            let sdata := segment_data pdata segment in
            let product_names := unique keqb (map r_name sdata) in
            let periods := unique keqb (map r_period sdata) in
            let sorted_products :=
              sort_by (fun a b => (snd b <=? snd a)%nat)
                      (map (fun name =>
                              (name,
                               length (count_get product_period_count
                                                 (platform, segment, name))))
                           product_names) in
            flat_map
              (fun nc =>
                 if (1 <? snd nc)%nat
                 then [product_row platform segment (fst nc) periods
                         (filter (fun x => keqb (r_name x) (fst nc)) sdata)]
                 else [])
              sorted_products)
         (segments_of pdata))
    (platforms_of top_products).

(** The final [sort_values(by=['平台', '价位段', f'{last_period} 零售额'],
    ascending=[True, True, False])]; a missing revenue goes last. *)
Definition revenue_desc (k : string) (a b : wide_row) : bool :=
  match Dict.get (w_cells a) k, Dict.get (w_cells b) k with
  | Some (Some (Fin x)), Some (Some (Fin y)) => Qle_bool y x
  | Some (Some _), _ => true
  | _, Some (Some _) => false
  | _, _ => true
  end.

Definition sheet_order (k : string) (a b : wide_row) : bool :=
  match kcmp (w_platform a) (w_platform b) with
  | Lt => true
  | Gt => false
  | Eq =>
      match kcmp (w_segment a) (w_segment b) with
      | Lt => true
      | Gt => false
      | Eq => revenue_desc k a b
      end
  end.

Definition has_column (k : string) (data : list wide_row) : bool :=
  existsb (fun w => match Dict.get (w_cells w) k with Some _ => true | None => false end)
          data.

(** Lines 930-941. *)
Definition ordered (top_products : list row) (data : list wide_row)
  : list wide_row :=
  match rev (sort_by kleb (unique keqb (map r_period top_products))) with
  | last_period :: _ =>
      let k := value_key "零售额" last_period in
      if negb (String.eqb last_period "") && has_column k data
      then sort_by (sheet_order k) data
      else data
  | [] => data
  end.

(** The sheet written, or [None] when the function writes none. *)
Definition create_top_products_comparison_sheet (top_products : list row)
  : option (list wide_row) :=
  if empty top_products
     || (length (unique keqb (map r_period top_products)) <=? 1)%nat
  then None
  else
    let data := comparison_data top_products in
    if negb (empty data) then Some (ordered top_products data) else None.

(** The rows of one product in one segment on one platform, and the periods
    they are in. *)
Definition entity_rows (t : list row) (platform segment product_name : string)
  : list row :=
  filter (fun x => keqb (r_platform x) platform && keqb (r_segment x) segment
                   && keqb (r_name x) product_name) t.

Definition entity_periods (t : list row) (platform segment product_name : string)
  : list string :=
  unique keqb (map r_period (entity_rows t platform segment product_name)).

(** The sheet has a line for the product. *)
Definition in_sheet (sheet : option (list wide_row))
    (platform segment product_name : string) : Prop :=
  exists rows w,
    sheet = Some rows /\ In w rows
    /\ w_platform w = platform /\ w_segment w = segment /\ w_name w = product_name.

(** The keys and periods the counting loops visit, in the order they do. *)
Definition visited (top_products : list row)
  : list (string * string * string * string) :=
  flat_map
    (fun platform =>
       let pdata := platform_data top_products platform in
       flat_map
         (fun segment =>
            map (fun x => ((platform, segment, r_name x), r_period x))
                (segment_data pdata segment))
         (segments_of pdata))
    (platforms_of top_products).

(** The revenue cell of a product in a period, and the periods of a list in
    which the product has a revenue, each with that revenue. *)
Definition revenue_cell (product_data : list row) (period : string) : option fval :=
  match filter (fun x => keqb (r_period x) period) product_data with
  | x :: _ => Some (Fin (r_revenue x))
  | [] => None
  end.

Definition present_revenues (product_data : list row) (periods : list string)
  : list (string * fval) :=
  flat_map (fun p => match revenue_cell product_data p with
                     | Some v => [(p, v)]
                     | None => []
                     end) periods.

(** One step of a change loop on a period in which the product has a value. *)
Definition change_step (label : string) (st : Dict.dict * option (fval * string))
    (pv : string * fval) : Dict.dict * option (fval * string) :=
  (match snd st with
   | Some (prev_value, prev_period) =>
       if nonzero prev_value
       then Dict.set (fst st) (change_key label (fst pv) prev_period)
                     (Some (((snd pv / prev_value) - Fin 1) * Fin 100)%fl)
       else fst st
   | None => fst st
   end,
   Some (snd pv, fst pv)).

(** Adding a list of keys and periods to the dict. *)
Definition count_all (kps : list (string * string * string * string)) (d : counts)
  : counts :=
  fold_left (fun d kp => count_add d (fst kp) (snd kp)) kps d.

End ProductComparison.

(** ** Readings of the specification *)

(** The period delta engine as the specification words it: the values of
    one key are put in the order of the supplied list of periods, the first
    delta is undefined, and every other delta is the change against the value
    before. *)
Fixpoint position (order : list string) (p : string) : nat :=
  match order with
  | [] => 0
  | q :: t => if String.eqb p q then 0%nat else S (position t p)
  end.

Definition deltas_in_order (order : list string) (values : list (string * Q))
  : list (string * Q * fval) :=
  let sorted :=
    sort_by (fun a b => (position order (fst a) <=? position order (fst b))%nat)
            values in
  combine sorted (pct_change_100 false (map (fun a => Fin (snd a)) sorted)).

(** The share of a price segment row as the specification words it: the
    revenue of the row over the revenue of the rows of its (period, platform)
    stratum in the segment table, times 100. *)
Definition segment_share_of_rows (t : list PriceSegments.share_row)
    (x : PriceSegments.share_row) : fval :=
  BrandShare.share
    (PriceSegments.r_revenue (PriceSegments.s_row x))
    (sumQ (map (fun y => PriceSegments.r_revenue (PriceSegments.s_row y))
               (filter (fun y =>
                          keqb (PriceSegments.r_period (PriceSegments.s_row y))
                               (PriceSegments.r_period (PriceSegments.s_row x))
                          && keqb (PriceSegments.r_platform (PriceSegments.s_row y))
                                  (PriceSegments.r_platform (PriceSegments.s_row x)))
                       t))).

(** An amount in whole cents: a multiple of 0.01. *)
Definition cents (q : Q) : Prop := exists z : Z, q == z # 100.

(** ** load_data and combine_platform_data *)

Module Upload.

(** What [pd.read_excel] makes of an uploaded file: an exception, or a frame
    with its column names and its rows.  The cells of the six required
    columns of a row are kept as a [record]; the tags of that record are not
    read before [combine_platform_data] has overwritten them. *)
Inductive workbook : Type :=
| Unreadable
| Frame (columns : list string) (rows : list record).

Definition required_columns : list string :=
  ["商品名称"; "商品链接"; "零售额"; "零售量"; "成交均价"; "品牌"].

(** [load_data], lines 13-24: [None] is the [None] it returns after
    reporting the error, for a file that cannot be read as for a frame that
    lacks a required column. *)
Definition load_data (file : workbook) : option (list record) :=
  match file with
  | Unreadable => None
  | Frame columns rows =>
      if forallb (fun col => existsb (String.eqb col) columns) required_columns
      then Some rows
      else None
  end.

(** [df['平台'] = platform; df['时间段'] = period] on one row. *)
Definition tag (platform period : string) (r : record) : record :=
  mkRecord (name r) (link r) (revenue r) (volume r) (price r) (brand r)
           platform period.

(** [zip(uploaded_files, platform_names, period_names)] *)
Definition zipped {A B C} (la : list A) (lb : list B) (lc : list C)
  : list (A * B * C) :=
  combine (combine la lb) lc.

(** [all_data], lines 28-35: the tagged frame of every file that loads. *)
Definition all_data (uploaded_files : list workbook)
    (platform_names period_names : list string) : list (list record) :=
  flat_map
    (fun x =>
       match x with
       | (file, platform, period) =>
           match load_data file with
           | Some df => [map (tag platform period) df]
           | None => []
           end
       end)
    (zipped uploaded_files platform_names period_names).

(** [combine_platform_data], lines 26-42: [None] is the [None] it returns
    when no file could be loaded. *)
Definition combine_platform_data (uploaded_files : list workbook)
    (platform_names period_names : list string) : option (list record) :=
  let all_data := all_data uploaded_files platform_names period_names in
  if (0 <? length all_data)%nat then Some (concat all_data) else None.

End Upload.

(** ** The price boundaries chosen in [main] *)

Module PriceRanges.

(** [df['成交均价'].min()] and [.max()]; an empty column has neither. *)
Fixpoint column_min (col : list Q) : option Q :=
  match col with
  | [] => None
  | x :: t =>
      match column_min t with
      | Some m => Some (if Qle_bool x m then x else m)
      | None => Some x
      end
  end.

Fixpoint column_max (col : list Q) : option Q :=
  match col with
  | [] => None
  | x :: t =>
      match column_max t with
      | Some m => Some (if Qle_bool m x then x else m)
      | None => Some x
      end
  end.

(** The value the number input of the upper edge of segment [i + 1] starts
    with, line 1035. *)
Definition default_upper (min_price max_price : Q) (num_segments i : nat) : Q :=
  min_price
  + (max_price - min_price) * inject_Z (Z.of_nat (i + 1))
    / inject_Z (Z.of_nat num_segments).

Definition default_uppers (min_price max_price : Q) (num_segments : nat) : list Q :=
  map (default_upper min_price max_price num_segments) (seq 0 (num_segments - 1)).

(** Lines 1029-1037: the least price, the values of the [num_segments - 1]
    number inputs, the greatest price. *)
Definition auto_ranges (min_price max_price : Q) (uppers : list Q) : list Q :=
  (min_price :: uppers ++ [max_price])%list.

(** Lines 1014-1024.  [parsed] is the list
    [[float(x) for x in custom_ranges_str.split(',')]], or [None] when a
    piece of the text is not a number. *)
Definition custom_ranges (parsed : option (list Q)) (min_price max_price : Q)
  : list Q :=
  match parsed with
  | Some price_ranges =>
      let price_ranges := sort_by Qle_bool price_ranges in
      if (length price_ranges <? 2)%nat
      then [min_price; max_price]
      else price_ranges
  | None => [min_price; max_price]
  end.

(** The boundary at position [k] of the [n + 1] evenly spaced ones between
    [lo] and [hi]. *)
Definition edge (lo hi : Q) (n k : nat) : Q :=
  lo + (hi - lo) * inject_Z (Z.of_nat k) / inject_Z (Z.of_nat n).

End PriceRanges.

(** ** The keys of the period table *)

Module PeriodTable.
Import PeriodStats.

(** The two key columns of a row of the statistics. *)
Definition row_key (x : row) : string * string := (r_period x, r_platform x).

End PeriodTable.

(** A cell that holds a percentage: a finite number between 0 and 100. *)
Definition percentage (v : fval) : Prop :=
  exists s, v = Fin s /\ 0 <= s /\ s <= 100.

(** ** get_top_products_by_segment *)

Module TopProducts.
Import Segment.

(** A row of [top_products] and [all_platform_top_products]: the sums of the
    revenue and the volume and the mean of the price of the records of one
    product, a product being a name with a link. *)
Record row : Type := mkRow {
  r_period : string;
  r_platform : string;
  r_segment : nat;
  r_name : string;
  r_link : string;
  r_revenue : Q;
  r_volume : Q;
  r_price : Q
}.

Definition records (g : list segmented) : list record := map fst g.

Definition product_key (x : segmented)
  : option (string * string * nat * string * string) :=
  option_map
    (fun s => (period (fst x), platform (fst x), s, name (fst x), link (fst x)))
    (snd x).

(** [df.groupby([period, platform_col, '价位段', '商品名称', '商品链接'])
      .agg(...).reset_index()] *)
Definition top_products (sdf : list segmented) : list row :=
  map (fun kg =>
         match kg with
         | (p, plat, s, nm, lk, g) =>
             mkRow p plat s nm lk
                   (agg_sum revenue (records g)) (agg_sum volume (records g))
                   (agg_mean price (records g))
         end)
      (groupby product_key sdf).

(** [sort_values(by='零售额', ascending=False)] *)
Definition by_revenue_desc (a b : row) : bool :=
  Qle_bool (r_revenue b) (r_revenue a).

Definition falling (l : list row) : Prop :=
  StronglySorted (fun a b => r_revenue b <= r_revenue a) l.

(** The rows of one (period, platform, segment) stratum. *)
Definition candidates (t : list row) (p plat : string) (seg : nat) : list row :=
  filter (fun x => keqb (r_period x) p && keqb (r_platform x) plat
                   && keqb (r_segment x) seg) t.

(** The frame appended for one stratum, lines 341-347. *)
Definition top_n (n : nat) (stratum : list row) : list row :=
  head n (sort_by by_revenue_desc stratum).

(** [result_dfs], lines 337-347. *)
Definition result_dfs (n : nat) (t : list row) : list (list row) :=
  flat_map (fun p =>
    flat_map (fun plat =>
      map (fun seg => top_n n (candidates t p plat seg))
          (unique keqb (map r_segment t)))
      (unique keqb (map r_platform t)))
    (unique keqb (map r_period t)).

Definition rollup_key (x : segmented) : option (string * nat * string * string) :=
  option_map (fun s => (period (fst x), s, name (fst x), link (fst x))) (snd x).

(** The rollup frame, lines 351-357. *)
Definition all_platform_top_products (sdf : list segmented) : list row :=
  map (fun kg =>
         match kg with
         | (p, s, nm, lk, g) =>
             mkRow p ALL_PLATFORMS s nm lk
                   (agg_sum revenue (records g)) (agg_sum volume (records g))
                   (agg_mean price (records g))
         end)
      (groupby rollup_key sdf).

(** The rows of one (period, segment) stratum of the rollup frame. *)
Definition all_platform_candidates (t : list row) (p : string) (seg : nat)
  : list row :=
  filter (fun x => keqb (r_period x) p && keqb (r_segment x) seg) t.

(** [all_platform_result_dfs], lines 362-370. *)
Definition all_platform_result_dfs (n : nat) (t : list row) : list (list row) :=
  flat_map (fun p =>
    map (fun seg => top_n n (all_platform_candidates t p seg))
        (unique keqb (map r_segment t)))
    (unique keqb (map r_period t)).

(** [n] is the keyword argument of the source, 5 by default. *)
Definition get_top_products_by_segment (df : list record) (price_ranges : list Q)
    (n : nat) : option (list row) :=
  sdf <- with_segments df price_ranges ;;
  let dfs := result_dfs n (top_products sdf) in
  let all_dfs := all_platform_result_dfs n (all_platform_top_products sdf) in
  if negb (empty dfs) && negb (empty all_dfs) then Some (concat (dfs ++ all_dfs))
  else if negb (empty dfs) then Some (concat dfs)
  else if negb (empty all_dfs) then Some (concat all_dfs)
  else Some [].

(** The columns that name a row. *)
Definition row_key (x : row) : string * string * nat * string * string :=
  (r_period x, r_platform x, r_segment x, r_name x, r_link x).

End TopProducts.

(** ** The TOP10 brand table of [main] *)

Module Top10.
Import BrandShare.

(** [sort_values(by='零售额', ascending=False)] *)
Definition by_revenue_desc (a b : share_row) : bool :=
  Qle_bool (r_revenue (s_row b)) (r_revenue (s_row a)).

Definition falling (l : list share_row) : Prop :=
  StronglySorted (fun a b => r_revenue (s_row b) <= r_revenue (s_row a)) l.

(** [platform_period_data], lines 1074-1077. *)
Definition platform_period_data (brand_stats : list share_row) (p platform : string)
  : list share_row :=
  head 10 (sort_by by_revenue_desc (stratum p platform brand_stats)).

(** [top_10_brands_list], lines 1070-1079. *)
Definition top_10_brands_list (brand_stats : list share_row)
  : list (list share_row) :=
  flat_map (fun p =>
    map (fun platform => platform_period_data brand_stats p platform)
        (unique keqb (map (fun x => r_platform (s_row x)) brand_stats)))
    (unique keqb (map (fun x => r_period (s_row x)) brand_stats)).

(** [pd.concat(top_10_brands_list, ignore_index=True)], line 1081: it raises
    on a list without frames. *)
Definition top_10_brands (brand_stats : list share_row) : option (list share_row) :=
  let frames := top_10_brands_list brand_stats in
  if empty frames then None else Some (concat frames).

End Top10.

(** ** The tables as [format_excel_output] passes them on *)

(** [fillna(0)] on the rows of the period statistics, of the brand share
    table and of the price segment table, lines 452-454. *)
Module Fill.

Definition period_row (x : PeriodStats.final_row) : PeriodStats.final_row :=
  PeriodStats.mkFinal (PeriodStats.f_row x)
                      (fillna0 (PeriodStats.f_revenue_change x))
                      (fillna0 (PeriodStats.f_volume_change x))
                      (fillna0 (PeriodStats.f_price_change x)).

Definition brand_row (x : BrandShare.share_row) : BrandShare.share_row :=
  BrandShare.mkShare (BrandShare.s_row x)
                     (fillna0 (BrandShare.s_revenue_share x))
                     (fillna0 (BrandShare.s_volume_share x)).

Definition segment_row (x : PriceSegments.final_row) : PriceSegments.final_row :=
  PriceSegments.mkFinal
    (PriceSegments.mkShare (PriceSegments.s_row (PriceSegments.f_row x))
       (fillna0 (PriceSegments.s_revenue_share (PriceSegments.f_row x)))
       (fillna0 (PriceSegments.s_volume_share (PriceSegments.f_row x))))
    (fillna0 (PriceSegments.f_revenue_share_change x))
    (fillna0 (PriceSegments.f_volume_share_change x)).

End Fill.

(** *** create_period_comparison_sheet *)

Module PeriodComparison.
Import PeriodStats.

(** A value of the dict [row]: the text under 指标, or a number or [None]
    under a period or a change column. *)
Inductive cell : Type :=
| Text (s : string)
| Number (v : option fval).

(** The dict [row]; entries keep the order in which their keys were first
    assigned. *)
Definition dict : Type := list (string * cell).

Fixpoint get (d : dict) (k : string) : option cell :=
  match d with
  | [] => None
  | (k', v) :: t => if String.eqb k k' then Some v else get t k
  end.

Fixpoint set (d : dict) (k : string) (v : cell) : dict :=
  match d with
  | [] => [(k, v)]
  | (k', v') :: t => if String.eqb k k' then (k, v) :: t else (k', v') :: set t k v
  end.

(** [for metric in ['零售额', '零售量', '成交均价']] *)
Definition metrics : list (string * (row -> Q)) :=
  [("零售额", r_revenue); ("零售量", r_volume); ("成交均价", r_price)].

Definition label (platform metric : string) : string :=
  (platform ++ " - " ++ metric)%string.

Definition change_key (curr_period prev_period : string) : string :=
  (curr_period ++ " vs " ++ prev_period ++ " (%)")%string.

(** [sorted(period_stats['时间段'].unique())] and
    [period_stats['平台'].unique()] *)
Definition periods_of (period_stats : list final_row) : list string :=
  sort_by kleb (unique keqb (map (fun x => r_period (f_row x)) period_stats)).

Definition platforms_of (period_stats : list final_row) : list string :=
  unique keqb (map (fun x => r_platform (f_row x)) period_stats).

(** Lines 582-587: the value of the platform in the period, [None] where
    the platform has no row. *)
Definition add_period (metric : row -> Q) (platform_data : list final_row)
    (row : dict) (period : string) : dict :=
  match filter (fun x => keqb (r_period (f_row x)) period) platform_data with
  | x :: _ => set row period (Number (Some (Fin (metric (f_row x)))))
  | [] => set row period (Number None)
  end.

(** The pairs [(periods[i-1], periods[i])] for [i] in
    [range(1, len(periods))]. *)
Definition consecutive (periods : list string) : list (string * string) :=
  combine periods (tl periods).

(** [v is not None] and [v != 0] on a value of the dict; a text is neither
    [None] nor equal to 0. *)
Definition is_not_none (c : cell) : bool :=
  match c with
  | Number None => false
  | _ => true
  end.

Definition not_zero (c : cell) : bool :=
  match c with
  | Number (Some v) => ProductComparison.nonzero v
  | _ => true
  end.

(** Lines 591-597 for one pair of periods.  [None] is the [TypeError] of a
    division that has a text for an operand. *)
Definition add_change (row : dict) (pc : string * string) : option dict :=
  let prev_period := fst pc in
  let curr_period := snd pc in
  let key := change_key curr_period prev_period in
  match get row prev_period, get row curr_period with
  | Some prev, Some curr =>
      if is_not_none prev && is_not_none curr && not_zero prev
      then match curr, prev with
           | Number (Some c), Number (Some p) =>
               Some (set row key (Number (Some (((c / p) - Fin 1) * Fin 100)%fl)))
           | _, _ => None
           end
      else Some (set row key (Number None))
  | _, _ => Some (set row key (Number None))
  end.

(** Lines 579-599: the line of one metric of one platform. *)
Definition metric_row (periods : list string) (platform : string)
    (platform_data : list final_row) (metric : string * (row -> Q)) : option dict :=
  let row := [("指标", Text (label platform (fst metric)))] in
  let row := fold_left (add_period (snd metric) platform_data) periods row in
  fold_left (fun acc pc => row <- acc ;; add_change row pc)
            (consecutive periods) (Some row).

(** The platforms with more than one row, each with its rows and with each
    of the metrics: the lines of the sheet, in the order the loops of lines
    573-578 visit them. *)
Definition lines (period_stats : list final_row)
  : list (string * list final_row * (string * (row -> Q))) :=
  flat_map
    (fun platform =>
       let platform_data :=
         filter (fun x => keqb (r_platform (f_row x)) platform) period_stats in
       if (1 <? length platform_data)%nat
       then map (fun metric => (platform, platform_data, metric)) metrics
       else [])
    (platforms_of period_stats).

(** [comparison_data], lines 571-599. *)
Definition comparison_data (period_stats : list final_row) : option (list dict) :=
  let periods := periods_of period_stats in
  apply_rows (fun l => metric_row periods (fst (fst l)) (snd (fst l)) (snd l))
             (lines period_stats).

(** Lines 606-616: the columns of the sheet. *)
Definition columns (periods : list string) : list string :=
  ("指标" :: periods
   ++ map (fun pc => change_key (snd pc) (fst pc)) (consecutive periods))%list.

Definition has_column (data : list dict) (col : string) : bool :=
  existsb (fun row => match get row col with Some _ => true | None => false end)
          data.

Definition final_columns (periods : list string) (data : list dict) : list string :=
  "指标" :: filter (has_column data) (tl (columns periods)).

(** The frame written to the sheet 时间段对比分析: its columns, and its lines
    as dicts. *)
Record sheet : Type := mkSheet {
  s_columns : list string;
  s_rows : list dict
}.

(** Lines 560-621.  The outer [None] is an exception, the inner [None] a
    return without a sheet.  The number formats of lines 623-639 are not
    modelled. *)
Definition create_period_comparison_sheet (period_stats : list final_row)
  : option (option sheet) :=
  let periods := periods_of period_stats in
  if (length periods <=? 1)%nat then Some None
  else
    data <- comparison_data period_stats ;;
    if negb (empty data)
    then Some (Some (mkSheet (final_columns periods data) data))
    else Some None.

(** The value of a platform in a period, as the sheet shows it. *)
Definition value_at (metric : row -> Q) (platform_data : list final_row)
    (period : string) : option fval :=
  match filter (fun x => keqb (r_period (f_row x)) period) platform_data with
  | x :: _ => Some (Fin (metric (f_row x)))
  | [] => None
  end.

(** The change from one value to the next: none when a value is missing or
    the earlier value is zero. *)
Definition guarded_change (prev curr : option fval) : option fval :=
  match prev, curr with
  | Some p, Some c =>
      if ProductComparison.nonzero p
      then Some (((c / p) - Fin 1) * Fin 100)%fl
      else None
  | _, _ => None
  end.

(** A number of the sheet is finite. *)
Definition finite_cell (c : cell) : Prop :=
  match c with
  | Number (Some v) => is_finite v = true
  | _ => True
  end.

(** The dict holds finite numbers, and a number or [None] under each of the
    periods [ps]. *)
Definition clean (ps : list string) (row : dict) : Prop :=
  (forall k c, get row k = Some c -> finite_cell c)
  /\ forall p, In p ps -> exists v, get row p = Some (Number v).

End PeriodComparison.

(** *** create_segment_comparison_sheet *)

Module SegmentComparison.

(** A row of the table 价位段统计 as [format_excel_output] passes it on: the
    segment is the label, a string, and no cell is missing. *)
Record row : Type := mkRow {
  r_period : string;
  r_platform : string;
  r_segment : string;
  r_revenue : Q;
  r_volume : Q;
  r_revenue_share : fval;
  r_volume_share : fval;
  r_revenue_share_change : fval;
  r_volume_share_change : fval
}.

(** One line of the sheet 价位段占比对比分析. *)
Record wide_row : Type := mkWide {
  w_platform : string;
  w_segment : string;
  w_cells : Dict.dict
}.

(** Lines 717-724; the column names are those of the brand sheet. *)
Definition add_period (segment_data : list row) (row : Dict.dict) (period : string)
  : Dict.dict :=
  match filter (fun x => keqb (r_period x) period) segment_data with
  | x :: _ =>
      Dict.set (Dict.set row (BrandComparison.revenue_key period)
                         (Some (Fin (r_revenue x))))
               (BrandComparison.share_key period) (Some (r_revenue_share x))
  | [] =>
      Dict.set (Dict.set row (BrandComparison.revenue_key period) None)
               (BrandComparison.share_key period) None
  end.

(** Lines 714-736; the change loop is that of the brand sheet. *)
Definition segment_row (platform segment : string) (periods : list string)
    (segment_data : list row) : wide_row :=
  let row := fold_left (add_period segment_data) periods [] in
  let row :=
    fst (fold_left BrandComparison.add_change (sort_by kleb periods) (row, None)) in
  mkWide platform segment row.

(** Lines 702-738.  A segment read from the column is a string, so the test
    [segment is not None] holds. *)
Definition comparison_data (segment_stats : list row) : list wide_row :=
  flat_map
    (fun platform =>
       let platform_data :=
         filter (fun x => keqb (r_platform x) platform) segment_stats in
       let segments := unique keqb (map r_segment platform_data) in
       let periods := unique keqb (map r_period platform_data) in
       flat_map
         (fun segment =>
            let segment_data :=
              filter (fun x => keqb (r_segment x) segment) platform_data in
            if (1 <? length segment_data)%nat
            then [segment_row platform segment periods segment_data]
            else [])
         segments)
    (unique keqb (map r_platform segment_stats)).

(** The sheet written, or [None] when the function writes none. *)
Definition create_segment_comparison_sheet (segment_stats : list row)
  : option (list wide_row) :=
  if empty segment_stats
     || (length (unique keqb (map r_period segment_stats)) <=? 1)%nat
  then None
  else
    let data := comparison_data segment_stats in
    if negb (empty data) then Some data else None.

(** The key of a row of the long table. *)
Definition table_key (x : row) : string * string * string :=
  (r_period x, r_platform x, r_segment x).

(** The rows of one segment on one platform, and the periods they are in. *)
Definition entity_rows (t : list row) (platform segment : string) : list row :=
  filter (fun x => keqb (r_platform x) platform && keqb (r_segment x) segment) t.

Definition entity_periods (t : list row) (platform segment : string) : list string :=
  unique keqb (map r_period (entity_rows t platform segment)).

(** The sheet has a line for the segment on the platform. *)
Definition in_sheet (sheet : option (list wide_row)) (platform segment : string)
  : Prop :=
  exists rows w,
    sheet = Some rows /\ In w rows /\ w_platform w = platform /\ w_segment w = segment.

(** The row read as a row of the brand share table, the segment standing
    for the brand, and the line read as a line of the brand sheet. *)
Definition as_brand_row (x : row) : BrandShare.share_row :=
  BrandShare.mkShare
    (BrandShare.mkRow (r_period x) (r_platform x) (r_segment x)
                      (r_revenue x) (r_volume x))
    (r_revenue_share x) (r_volume_share x).

Definition as_brand_line (w : wide_row) : BrandComparison.wide_row :=
  BrandComparison.mkWide (w_platform w) (w_segment w) (w_cells w).

End SegmentComparison.

(** *** create_top_brands_comparison_sheet *)

Module TopBrandsComparison.

(** A row of the table 价位段TOP品牌 as [format_excel_output] passes it on. *)
Record row : Type := mkRow {
  r_period : string;
  r_platform : string;
  r_segment : string;
  r_brand : string;
  r_revenue : Q;
  r_volume : Q;
  r_revenue_share : fval;
  r_volume_share : fval
}.

(** One line of the sheet 价位段品牌对比分析. *)
Record wide_row : Type := mkWide {
  w_platform : string;
  w_segment : string;
  w_brand : string;
  w_cells : Dict.dict
}.

(** Lines 772-779. *)
Definition add_period (brand_data : list row) (row : Dict.dict) (period : string)
  : Dict.dict :=
  match filter (fun x => keqb (r_period x) period) brand_data with
  | x :: _ =>
      Dict.set (Dict.set row (BrandComparison.revenue_key period)
                         (Some (Fin (r_revenue x))))
               (BrandComparison.share_key period) (Some (r_revenue_share x))
  | [] =>
      Dict.set (Dict.set row (BrandComparison.revenue_key period) None)
               (BrandComparison.share_key period) None
  end.

(** Lines 769-793: both loops run over [sorted(periods)]. *)
Definition brand_row (platform segment brand : string) (periods : list string)
    (brand_data : list row) : wide_row :=
  let row := fold_left (add_period brand_data) (sort_by kleb periods) [] in
  let row :=
    fst (fold_left BrandComparison.add_change (sort_by kleb periods) (row, None)) in
  mkWide platform segment brand row.

(** Lines 754-793. *)
Definition comparison_data (top_brands_segment : list row) : list wide_row :=
  flat_map
    (fun platform =>
       let platform_data :=
         filter (fun x => keqb (r_platform x) platform) top_brands_segment in
       flat_map
         (fun segment =>
            let segment_data :=
              filter (fun x => keqb (r_segment x) segment) platform_data in
            let brands := unique keqb (map r_brand segment_data) in
            let periods := unique keqb (map r_period segment_data) in
            flat_map
              (fun brand =>
                 let brand_data :=
                   filter (fun x => keqb (r_brand x) brand) segment_data in
                 if (1 <? length brand_data)%nat
                 then [brand_row platform segment brand periods brand_data]
                 else [])
              brands)
         (unique keqb (map r_segment platform_data)))
    (unique keqb (map r_platform top_brands_segment)).

(** The cell of a line in a numeric column of the frame: a cell that is
    not there, [None] and NaN are all missing. *)
Definition column_cell (k : string) (w : wide_row) : option fval :=
  match Dict.get (w_cells w) k with
  | Some (Some NaN) => None
  | Some (Some v) => Some v
  | _ => None
  end.

(** [a <= b] on cells that are not missing. *)
Definition fle (a b : fval) : bool :=
  match a, b with
  | NaN, _ | _, NaN => false
  | NInf, _ | _, PInf => true
  | Fin x, Fin y => Qle_bool x y
  | _, _ => false
  end.

(** The final [sort_values(by=['平台', '价位段', last_period_column],
    ascending=[True, True, False])]; a missing share goes last. *)
Definition share_desc (k : string) (a b : wide_row) : bool :=
  match column_cell k a, column_cell k b with
  | Some x, Some y => fle y x
  | Some _, None => true
  | None, Some _ => false
  | None, None => true
  end.

Definition sheet_order (k : string) (a b : wide_row) : bool :=
  match kcmp (w_platform a) (w_platform b) with
  | Lt => true
  | Gt => false
  | Eq =>
      match kcmp (w_segment a) (w_segment b) with
      | Lt => true
      | Gt => false
      | Eq => share_desc k a b
      end
  end.

Definition has_column (k : string) (data : list wide_row) : bool :=
  existsb (fun w => match Dict.get (w_cells w) k with Some _ => true | None => false end)
          data.

(** Lines 796-817. *)
Definition ordered (top_brands_segment : list row) (data : list wide_row)
  : list wide_row :=
  match rev (sort_by kleb (unique keqb (map r_period top_brands_segment))) with
  | last_period :: _ =>
      let k := BrandComparison.share_key last_period in
      if has_column k data then sort_by (sheet_order k) data else data
  | [] => data
  end.

(** The sheet written, or [None] when the function writes none. *)
Definition create_top_brands_comparison_sheet (top_brands_segment : list row)
  : option (list wide_row) :=
  if empty top_brands_segment
     || (length (unique keqb (map r_period top_brands_segment)) <=? 1)%nat
  then None
  else
    let data := comparison_data top_brands_segment in
    if negb (empty data) then Some (ordered top_brands_segment data) else None.

(** The rows of one brand in one segment on one platform, and the periods
    they are in. *)
Definition entity_rows (t : list row) (platform segment brand : string) : list row :=
  filter (fun x => keqb (r_platform x) platform && keqb (r_segment x) segment
                   && keqb (r_brand x) brand) t.

Definition entity_periods (t : list row) (platform segment brand : string)
  : list string :=
  unique keqb (map r_period (entity_rows t platform segment brand)).

Definition table_key (x : row) : string * string * string * string :=
  (r_period x, r_platform x, r_segment x, r_brand x).

(** The sheet has a line for the brand. *)
Definition in_sheet (sheet : option (list wide_row))
    (platform segment brand : string) : Prop :=
  exists rows w,
    sheet = Some rows /\ In w rows
    /\ w_platform w = platform /\ w_segment w = segment /\ w_brand w = brand.

End TopBrandsComparison.

(** ** format_excel_output *)

Module FormatExcel.

(** A sheet that may hold a notice in place of its table, lines 464-477. *)
Inductive written (A : Type) : Type :=
| Rows (rows : list A)
| Hint (column text : string).
Arguments Rows {A} rows.
Arguments Hint {A} column text.

(** What the function writes: the five sheets that are always there, and
    the comparison sheets, each [None] when it is not written. *)
Record workbook : Type := mkWorkbook {
  period_sheet : list PeriodStats.final_row;
  brand_sheet : list BrandShare.share_row;
  segment_sheet : list SegmentComparison.row;
  top_brands_sheet : written TopBrandsComparison.row;
  top_products_sheet : written ProductComparison.row;
  period_comparison : option PeriodComparison.sheet;
  brand_comparison : option (list BrandComparison.wide_row);
  segment_comparison : option (list SegmentComparison.wide_row);
  top_brands_comparison : option (list TopBrandsComparison.wide_row);
  top_products_comparison : option (list ProductComparison.wide_row)
}.

Section Labelled.

(** The categories of the 价位段 columns: [astype(str)] turns a category
    code into its label. *)
Variable labels : list string.

Definition segment_name (code : nat) : string := nth code labels "".

(** Lines 436-439 and 454 on a row of the price segment table. *)
Definition segment_stats_row (x : PriceSegments.final_row) : SegmentComparison.row :=
  let y := PriceSegments.f_row x in
  let z := PriceSegments.s_row y in
  SegmentComparison.mkRow
    (PriceSegments.r_period z) (PriceSegments.r_platform z)
    (segment_name (PriceSegments.r_segment z))
    (PriceSegments.r_revenue z) (PriceSegments.r_volume z)
    (fillna0 (PriceSegments.s_revenue_share y))
    (fillna0 (PriceSegments.s_volume_share y))
    (fillna0 (PriceSegments.f_revenue_share_change x))
    (fillna0 (PriceSegments.f_volume_share_change x)).

(** Lines 441-444 and 455 on a row of the top brands table. *)
Definition top_brands_row (x : TopBrands.share_row) : TopBrandsComparison.row :=
  let z := TopBrands.s_row x in
  TopBrandsComparison.mkRow
    (TopBrands.r_period z) (TopBrands.r_platform z)
    (segment_name (TopBrands.r_segment z)) (TopBrands.r_brand z)
    (TopBrands.r_revenue z) (TopBrands.r_volume z)
    (fillna0 (TopBrands.s_revenue_share x))
    (fillna0 (TopBrands.s_volume_share x)).

(** Lines 446-449 and 456 on a row of the top products table, which has no
    missing cell. *)
Definition top_products_row (x : TopProducts.row) : ProductComparison.row :=
  ProductComparison.mkRow
    (TopProducts.r_period x) (TopProducts.r_platform x)
    (segment_name (TopProducts.r_segment x))
    (TopProducts.r_name x) (TopProducts.r_link x)
    (TopProducts.r_revenue x) (TopProducts.r_volume x) (TopProducts.r_price x).

(** Lines 426-489.  [None] is an exception of
    [create_period_comparison_sheet].  The styles of lines 491-558 are not
    modelled. *)
Definition format_excel_output
    (period_stats : list PeriodStats.final_row)
    (top_10_brands : list BrandShare.share_row)
    (segment_stats : list PriceSegments.final_row)
    (top_brands : list TopBrands.share_row)
    (top_products : list TopProducts.row) : option workbook :=
  let period_stats := map Fill.period_row period_stats in
  let top_10_brands := map Fill.brand_row top_10_brands in
  let segment_stats := map segment_stats_row segment_stats in
  let top_brands := map top_brands_row top_brands in
  let top_products := map top_products_row top_products in
  period_comparison <-
    PeriodComparison.create_period_comparison_sheet period_stats ;;
  Some
    (mkWorkbook
       period_stats top_10_brands segment_stats
       (if negb (empty top_brands) then Rows top_brands
        else Hint "提示" "没有找到符合条件的价位段TOP品牌数据")
       (if negb (empty top_products) then Rows top_products
        else Hint "提示" "没有找到符合条件的价位段TOP产品数据")
       period_comparison
       (BrandComparison.create_brand_comparison_sheet top_10_brands)
       (SegmentComparison.create_segment_comparison_sheet segment_stats)
       (if negb (empty top_brands)
           && (1 <? length (unique keqb
                              (map TopBrandsComparison.r_period top_brands)))%nat
        then TopBrandsComparison.create_top_brands_comparison_sheet top_brands
        else None)
       (if negb (empty top_products)
           && (1 <? length (unique keqb
                              (map ProductComparison.r_period top_products)))%nat
        then ProductComparison.create_top_products_comparison_sheet top_products
        else None)).

End Labelled.

Definition BASE_SHEETS : list string :=
  ["时间段统计"; "品牌占比分析"; "价位段统计"; "价位段TOP品牌"; "价位段TOP产品"].

Definition if_written {A} (sheet : option A) (sheet_name : string) : list string :=
  match sheet with
  | Some _ => [sheet_name]
  | None => []
  end.

(** The names of the sheets of the workbook, in the order they are
    written. *)
Definition sheet_names (w : workbook) : list string :=
  (BASE_SHEETS
   ++ if_written (period_comparison w) "时间段对比分析"
   ++ if_written (brand_comparison w) "品牌占比对比分析"
   ++ if_written (segment_comparison w) "价位段占比对比分析"
   ++ if_written (top_brands_comparison w) "价位段品牌对比分析"
   ++ if_written (top_products_comparison w) "价位段产品对比分析")%list.

End FormatExcel.

(** ** The analysis of [main] *)

Module Pipeline.

Section Report.

(** Python's [str] of a boundary, and the version of [pct_change]. *)
Variable fmt : Q -> string.
Variable fill_pad : bool.

(** Lines 1049-1113, the charts and the widgets left out: the five tables,
    and the workbook made of them.  [None] is an exception. *)
Definition report (df : list record) (price_ranges : list Q)
  : option FormatExcel.workbook :=
  let period_stats := PeriodStats.calculate_period_stats fill_pad df in
  brand_stats <- BrandShare.calculate_brand_share df ;;
  top_10_brands <- Top10.top_10_brands brand_stats ;;
  segment_stats <- PriceSegments.analyze_price_segments fill_pad df price_ranges ;;
  top_brands <- TopBrands.get_top_brands_by_segment df price_ranges 5 ;;
  top_products <- TopProducts.get_top_products_by_segment df price_ranges 5 ;;
  FormatExcel.format_excel_output (Segment.labels fmt price_ranges)
    period_stats top_10_brands segment_stats top_brands top_products.

End Report.

End Pipeline.

(** The share columns of a line of the brand sheet, read off the rows of the
    brand. *)
Module ShareCells.
Import BrandShare.

(** The share of the brand in a period, [None] where it has no row. *)
Definition share_cell (brand_data : list share_row) (period : string) : option fval :=
  match filter (fun x => keqb (r_period (s_row x)) period) brand_data with
  | x :: _ => Some (s_revenue_share x)
  | [] => None
  end.

(** The periods of a list in which the brand has a share, each with the
    share. *)
Definition present_shares (brand_data : list share_row) (periods : list string)
  : list (string * fval) :=
  flat_map (fun p => match share_cell brand_data p with
                     | Some v => [(p, v)]
                     | None => []
                     end) periods.

(** Each entry of a list with the entry after it. *)
Definition neighbours {A} (l : list A) : list (A * A) := combine l (tl l).

(** The column of the change from the first of two neighbours to the
    second. *)
Definition neighbour_key (pr : (string * fval) * (string * fval)) : string :=
  BrandComparison.change_key (fst (snd pr)) (fst (fst pr)).

(** One step of the change loop on a period in which the brand has a
    share. *)
Definition change_step (st : Dict.dict * option (fval * string))
    (pv : string * fval) : Dict.dict * option (fval * string) :=
  (match snd st with
   | Some (prev_share, prev_period) =>
       Dict.set (fst st) (BrandComparison.change_key (fst pv) prev_period)
                (Some (snd pv - prev_share)%fl)
   | None => fst st
   end,
   Some (snd pv, fst pv)).

End ShareCells.

(** ** The upload grid of [main] *)

Module UploadGrid.
Import Upload.

(** The three lists [main] fills side by side, lines 957-959. *)
Record lists : Type := mkLists {
  uploaded_files : list (option workbook);
  platform_names : list string;
  period_names : list string
}.

Section Grid.
Variables num_platforms num_periods : nat.
(** What the text inputs of period [j + 1] and of platform [i + 1] hold, and
    what the uploader of platform [i] and period [j] holds: a file, or
    [None] while nothing has been uploaded there. *)
Variable period_label : nat -> string.
Variable platform_name : nat -> string.
Variable file_uploader : nat -> nat -> option workbook.

(** Lines 963-966. *)
Definition period_labels : list string :=
  fold_left (fun labels i => labels ++ [period_label i])%list (seq 0 num_periods) [].

(** The body of the inner loop, lines 978-985.  [period_labels[j]] is read
    with [j] below [num_periods], the length of [period_labels]. *)
Definition upload (i : nat) (st : lists) (j : nat) : lists :=
  mkLists (uploaded_files st ++ [file_uploader i j])
          (platform_names st ++ [platform_name i])
          (period_names st ++ [nth j period_labels ""]).

(** Lines 969-985. *)
Definition uploads : lists :=
  fold_left (fun st i => fold_left (upload i) (seq 0 num_periods) st)
            (seq 0 num_platforms) (mkLists [] [] []).

(** Line 988. *)
Definition valid_files : list (workbook * string * string) :=
  flat_map (fun x =>
              match x with
              | (Some f, p, t) => [(f, p, t)]
              | (None, _, _) => []
              end)
           (zipped (uploaded_files uploads) (platform_names uploads)
                   (period_names uploads)).

(** Lines 989-997: the frame the analysis runs on, [None] when [main] goes
    no further. *)
Definition df : option (list record) :=
  let uploaded_valid_files := map (fun f => fst (fst f)) valid_files in
  let platform_valid_names := map (fun f => snd (fst f)) valid_files in
  let period_valid_names := map (fun f => snd f) valid_files in
  if (0 <? length valid_files)%nat
  then combine_platform_data uploaded_valid_files platform_valid_names
                             period_valid_names
  else None.

End Grid.
End UploadGrid.

(** ** The frame behind the brand chart *)

Module BrandChart.
Import BrandShare.

(** A row of [top_brands]: the three key columns and the summed 零售额. *)
Record bar : Type := mkBar {
  b_period : string;
  b_platform : string;
  b_brand : string;
  b_revenue : Q
}.

(** Line 393:
    [df.groupby([period, platform_col, '品牌'])['零售额'].sum().reset_index()]
    on a brand share table. *)
Definition summed (df : list share_row) : list bar :=
  map (fun kg =>
         match kg with
         | (p, plat, b, g) =>
             mkBar p plat b (sumQ (map (fun x => r_revenue (s_row x)) g))
         end)
      (groupby (fun x => Some (r_period (s_row x), r_platform (s_row x),
                               r_brand (s_row x)))
               df).

(** Line 394: the order of
    [sort_values([period, platform_col, '零售额'], ascending=[True, True, False])]. *)
Definition chart_order (a b : bar) : bool :=
  match kcmp (b_period a) (b_period b) with
  | Lt => true
  | Gt => false
  | Eq =>
      match kcmp (b_platform a) (b_platform b) with
      | Lt => true
      | Gt => false
      | Eq => Qle_bool (b_revenue b) (b_revenue a)
      end
  end.

(** The rows of the (period, platform) group of [x]. *)
Definition same_group (x y : bar) : bool :=
  keqb (b_period y) (b_period x) && keqb (b_platform y) (b_platform x).

(** Line 395: [groupby([period, platform_col]).head(n)] keeps, in frame
    order, the rows with fewer than [n] rows of their group before them;
    [seen] holds the rows passed so far. *)
Fixpoint group_head (n : nat) (seen l : list bar) : list bar :=
  match l with
  | [] => []
  | x :: t =>
      if (length (filter (same_group x) seen) <? n)%nat
      then x :: group_head n (x :: seen) t
      else group_head n (x :: seen) t
  end.

(** Lines 393-395 of [plot_brand_comparison]: the frame the bars are drawn
    from. *)
Definition top_brands (df : list share_row) (n : nat) : list bar :=
  let top_brands := summed df in
  let top_brands := sort_by chart_order top_brands in
  group_head n [] top_brands.

(** The bars of one period and platform. *)
Definition stratum (p plat : string) (t : list bar) : list bar :=
  filter (fun x => keqb (b_period x) p && keqb (b_platform x) plat) t.

End BrandChart.

(** ** Sample data *)

(** Python's [str] of an integer boundary such as [100]. *)
Definition py_str (q : Q) : string :=
  NilZero.string_of_int (Z.to_int (Qnum q)).

(** One period with twelve brands on platform A and three on platform B, all
    at the price 50. *)
Definition sample_brand (plat : string) (b : string * Q) : record :=
  mkRecord "lamp" "u" (snd b) 1 50 (Some (fst b)) plat "P1".

Definition sample_brands : list record :=
  (map (sample_brand "A")
       [("b01", 10); ("b02", 120); ("b03", 30); ("b04", 40); ("b05", 50);
        ("b06", 60); ("b07", 70); ("b08", 80); ("b09", 90); ("b10", 100);
        ("b11", 110); ("b12", 20)]
   ++ map (sample_brand "B") [("b01", 5); ("b02", 15); ("b03", 25)])%list.

(** A lamp sold in two periods and a desk sold in one, and a lamp sold in
    the ninth and the tenth period. *)
Definition sample_product (product_name period : string) (rev : Q)
  : ProductComparison.row :=
  ProductComparison.mkRow period "A" "0-100" product_name "u" rev 2 50.

Definition sample_products : list ProductComparison.row :=
  [ sample_product "lamp" "时间段 1" 200;
    sample_product "lamp" "时间段 2" 250;
    sample_product "desk" "时间段 1" 10 ].

Definition late_products : list ProductComparison.row :=
  [ sample_product "lamp" "时间段 9" 200;
    sample_product "lamp" "时间段 10" 250 ].

(** Platform A with the revenue 100 in P1 and 150 in P2. *)
Definition sample_periods : list record :=
  [ mkRecord "lamp" "u1" 100 1 10 (Some "x") "A" "P1";
    mkRecord "lamp" "u1" 150 1 10 (Some "x") "A" "P2" ].

(** Brand x with the shares 40, 25 and 30 in three periods on platform A. *)
Definition sample_shares : list BrandShare.share_row :=
  [ BrandShare.mkShare (BrandShare.mkRow "P1" "A" "x" 400 4) (Fin 40) (Fin 40);
    BrandShare.mkShare (BrandShare.mkRow "P2" "A" "x" 250 2) (Fin 25) (Fin 20);
    BrandShare.mkShare (BrandShare.mkRow "P3" "A" "x" 300 3) (Fin 30) (Fin 30) ].

(** Two records of one stratum, one of them above the last boundary of
    0, 100, 300. *)
Definition sample_stratum : list record :=
  [ mkRecord "lamp" "u1" 100 1 50 (Some "x") "A" "P1";
    mkRecord "desk" "u2" 100 1 400 (Some "y") "A" "P1" ].

(** Three products of one segment. *)
Definition sample_segment : list record :=
  [ mkRecord "lamp" "u1" 100 1 50 (Some "x") "A" "P1";
    mkRecord "desk" "u2" 300 2 60 (Some "y") "A" "P1";
    mkRecord "bulb" "u3" 200 2 70 (Some "y") "A" "P1" ].

(** Brand x in the segment 0-100 on platform A in two periods, and brand y
    in one. *)
Definition sample_top_brands : list TopBrandsComparison.row :=
  [ TopBrandsComparison.mkRow "P1" "A" "0-100" "x" 400 4 (Fin 40) (Fin 40);
    TopBrandsComparison.mkRow "P2" "A" "0-100" "x" 250 2 (Fin 25) (Fin 20);
    TopBrandsComparison.mkRow "P1" "A" "0-100" "y" 300 3 (Fin 30) (Fin 30) ].

(** * Properties *)

(** ** Keys, sorting and grouping *)

Lemma string_compare_refl (s : string) : String.compare s s = Eq.
Proof.
  induction s as [|c s IH]; simpl; auto.
  unfold Ascii.compare. now rewrite N.compare_refl.
Qed.

Lemma string_compare_eq (a b : string) : String.compare a b = Eq <-> a = b.
Proof.
  split; [apply String.compare_eq_iff | intros ->; apply string_compare_refl].
Qed.

Lemma string_kcmp_eq (a b : string) : kcmp a b = Eq <-> a = b.
Proof. exact (string_compare_eq a b). Qed.

Lemma string_kcmp_antisym (a b : string) : kcmp b a = CompOpp (kcmp a b).
Proof. exact (String.compare_antisym b a). Qed.

#[export] Instance string_KeyLaws : KeyLaws string :=
  {| kcmp_eq := string_kcmp_eq; kcmp_antisym := string_kcmp_antisym |}.

Lemma nat_kcmp_eq (a b : nat) : kcmp a b = Eq <-> a = b.
Proof. exact (Nat.compare_eq_iff a b). Qed.

Lemma nat_kcmp_antisym (a b : nat) : kcmp b a = CompOpp (kcmp a b).
Proof. exact (Nat.compare_antisym a b). Qed.

#[export] Instance nat_KeyLaws : KeyLaws nat :=
  {| kcmp_eq := nat_kcmp_eq; kcmp_antisym := nat_kcmp_antisym |}.

Lemma kcmp_refl {K} `{KeyLaws K} (a : K) : kcmp a a = Eq.
Proof. now apply kcmp_eq. Qed.

Lemma pair_cmp_eq {A B} `{KeyLaws A} `{KeyLaws B} (x y : A * B) :
  kcmp x y = Eq <-> x = y.
Proof.
  destruct x as [a b], y as [a' b']. simpl. unfold pair_cmp; simpl. split.
  - destruct (kcmp a a') eqn:E; try discriminate.
    intros E2. apply kcmp_eq in E, E2. now subst.
  - intros [= -> ->]. rewrite kcmp_refl. apply kcmp_refl.
Qed.

Lemma pair_cmp_antisym {A B} `{KeyLaws A} `{KeyLaws B} (x y : A * B) :
  kcmp y x = CompOpp (kcmp x y).
Proof.
  destruct x as [a b], y as [a' b']. simpl. unfold pair_cmp; simpl.
  rewrite (kcmp_antisym a a').
  destruct (kcmp a a'); simpl; auto using kcmp_antisym.
Qed.

#[export] Instance pair_KeyLaws {A B} `{KeyLaws A} `{KeyLaws B} : KeyLaws (A * B) :=
  {| kcmp_eq := pair_cmp_eq; kcmp_antisym := pair_cmp_antisym |}.

Lemma keqb_eq {K} `{KeyLaws K} (a b : K) : keqb a b = true <-> a = b.
Proof.
  unfold keqb. rewrite <- kcmp_eq. destruct (kcmp a b); split; congruence.
Qed.

Lemma keqb_refl {K} `{KeyLaws K} (a : K) : keqb a a = true.
Proof. now apply keqb_eq. Qed.

Lemma keqb_neq {K} `{KeyLaws K} (a b : K) : keqb a b = false <-> a <> b.
Proof.
  rewrite <- keqb_eq. destruct (keqb a b); split; congruence.
Qed.

Lemma keqb_sym {K} `{KeyLaws K} (a b : K) : keqb a b = keqb b a.
Proof.
  destruct (keqb b a) eqn:E.
  - apply keqb_eq in E. subst. apply keqb_refl.
  - apply keqb_neq. apply keqb_neq in E. congruence.
Qed.

Lemma kleb_total {K} `{KeyLaws K} (a b : K) : kleb a b = false -> kleb b a = true.
Proof.
  unfold kleb. rewrite (kcmp_antisym a b). destruct (kcmp a b); simpl; congruence.
Qed.

Section SortFacts.
Context {A : Type} (leb : A -> A -> bool).

Lemma insert_by_perm (x : A) (l : list A) :
  Permutation (insert_by leb x l) (x :: l).
Proof.
  induction l as [|y t IH]; simpl; auto.
  destruct (leb x y); auto.
  rewrite IH. apply perm_swap.
Qed.

Lemma sort_by_perm (l : list A) : Permutation (sort_by leb l) l.
Proof.
  induction l as [|x t IH]; simpl; auto.
  rewrite insert_by_perm. now constructor.
Qed.

Lemma sort_by_In (x : A) (l : list A) : In x (sort_by leb l) <-> In x l.
Proof.
  split; apply Permutation_in; [|symmetry]; apply sort_by_perm.
Qed.

Lemma sort_by_length (l : list A) : length (sort_by leb l) = length l.
Proof. apply Permutation_length, sort_by_perm. Qed.

Hypothesis leb_total : forall a b, leb a b = false -> leb b a = true.

Lemma insert_by_sorted (x : A) (l : list A) :
  Sorted (fun a b => leb a b = true) l ->
  Sorted (fun a b => leb a b = true) (insert_by leb x l).
Proof.
  induction 1 as [|y t Hs IH Hd]; simpl.
  - repeat constructor.
  - destruct (leb x y) eqn:E.
    + repeat constructor; auto.
    + constructor; auto.
      destruct t as [|z t]; simpl in *.
      * constructor. auto.
      * destruct (leb x z); constructor; auto.
        now inversion Hd.
Qed.

Lemma sort_by_sorted (l : list A) :
  Sorted (fun a b => leb a b = true) (sort_by leb l).
Proof.
  induction l as [|x t IH]; simpl; [constructor | now apply insert_by_sorted].
Qed.

End SortFacts.

Section UniqueFacts.
Context {K : Type} `{KeyLaws K}.

Lemma unique_In (x : K) (l : list K) : In x (unique keqb l) <-> In x l.
Proof.
  induction l as [|y t IH]; simpl; [tauto|].
  rewrite filter_In, IH.
  destruct (keqb y x) eqn:E; simpl.
  - apply keqb_eq in E. subst. intuition congruence.
  - apply keqb_neq in E. intuition congruence.
Qed.

Lemma unique_NoDup (l : list K) : NoDup (unique keqb l).
Proof.
  induction l as [|y t IH]; simpl; constructor.
  - rewrite filter_In, keqb_refl. simpl. intros [_ ?]; discriminate.
  - now apply NoDup_filter.
Qed.

Lemma present_In {A} (x : A) (l : list (option A)) :
  In x (present l) <-> In (Some x) l.
Proof.
  induction l as [|[y|] t IH]; simpl; [tauto| |].
  - rewrite IH. intuition congruence.
  - rewrite IH. intuition congruence.
Qed.

End UniqueFacts.

Section GroupFacts.
Context {R K : Type} `{KeyLaws K}.
Variable key : R -> option K.

Lemma group_keys_In (k : K) (rows : list R) :
  In k (group_keys key rows) <-> exists r, In r rows /\ key r = Some k.
Proof.
  unfold group_keys. rewrite sort_by_In, unique_In, present_In, in_map_iff.
  split; intros [r Hr]; exists r; tauto.
Qed.

Lemma group_keys_NoDup (rows : list R) : NoDup (group_keys key rows).
Proof.
  unfold group_keys.
  eapply Permutation_NoDup; [symmetry; apply sort_by_perm | apply unique_NoDup].
Qed.

Lemma group_keys_sorted (rows : list R) :
  Sorted (fun a b => kleb a b = true) (group_keys key rows).
Proof. apply sort_by_sorted. intros a b. apply kleb_total. Qed.

Lemma has_key_true (k : K) (r : R) : has_key key k r = true <-> key r = Some k.
Proof.
  unfold has_key. destruct (key r) as [k'|].
  - rewrite keqb_eq. split; congruence.
  - split; discriminate.
Qed.

Lemma groupby_In (k : K) (g : list R) (rows : list R) :
  In (k, g) (groupby key rows) <->
  In k (group_keys key rows) /\ g = filter (has_key key k) rows.
Proof.
  unfold groupby. rewrite in_map_iff. split.
  - intros [k' [[= -> <-] Hin]]. auto.
  - intros [Hin ->]. exists k. auto.
Qed.

(** A group of a [groupby] is never empty. *)
Lemma groupby_nonempty (k : K) (g : list R) (rows : list R) :
  In (k, g) (groupby key rows) -> g <> [].
Proof.
  rewrite groupby_In, group_keys_In. intros [[r [Hin Hk]] ->] E.
  assert (Hr : In r (filter (has_key key k) rows))
    by (apply filter_In; split; auto; now apply has_key_true).
  rewrite E in Hr. inversion Hr.
Qed.

(** [.loc] on a frame built from a [groupby]. *)
Lemma loc_map_In {V} (f : K -> V) (ks : list K) (k : K) :
  In k ks -> loc (map (fun k' => (k', f k')) ks) k = Some (f k).
Proof.
  induction ks as [|k' t IH]; simpl; [tauto|].
  destruct (keqb k k') eqn:E.
  - apply keqb_eq in E. now subst.
  - intros [->|Hin]; auto. rewrite keqb_refl in E. discriminate.
Qed.

Lemma loc_groupby {V} (f : list R -> V) (rows : list R) (k : K) :
  In k (group_keys key rows) ->
  loc (map (fun kg => (fst kg, f (snd kg))) (groupby key rows)) k
  = Some (f (filter (has_key key k) rows)).
Proof.
  intros Hin. unfold groupby. rewrite map_map. simpl.
  now apply (loc_map_In (fun k' => f (filter (has_key key k') rows))).
Qed.

End GroupFacts.

(** ** Price segmenter *)

Module SegmentFacts.
Import Segment.

Lemma below_iff (x b : Q) : negb (Qle_bool x b) = true <-> b < x.
Proof.
  rewrite negb_true_iff. split.
  - intros E. apply Qnot_le_lt. intros Hle.
    apply Qle_bool_iff in Hle. congruence.
  - intros Hlt. destruct (Qle_bool x b) eqn:E; auto.
    apply Qle_bool_iff in E. exfalso. now apply (Qlt_not_le b x).
Qed.

Lemma not_below_iff (x b : Q) : negb (Qle_bool x b) = false <-> x <= b.
Proof.
  rewrite negb_false_iff. apply Qle_bool_iff.
Qed.

(** What [searchsorted_left] returns: every edge before the index is below
    the price, and the edge at the index is not. *)
Lemma searchsorted_left_spec (bins : list Q) (x : Q) (i : nat) :
  searchsorted_left bins x = i <->
  (i <= length bins)%nat
  /\ (forall j, (j < i)%nat -> nth j bins 0 < x)
  /\ ((i < length bins)%nat -> x <= nth i bins 0).
Proof.
  revert i. induction bins as [|b t IH]; intros i; simpl.
  - split.
    + intros <-. repeat split; auto; intros; lia.
    + intros [Hi _]. lia.
  - destruct (negb (Qle_bool x b)) eqn:E.
    + apply below_iff in E. split.
      * intros <-. destruct (proj1 (IH _) eq_refl) as [H1 [H2 H3]].
        repeat split; [lia | | intros; apply H3; lia].
        intros [|j] Hj; auto. apply H2. lia.
      * intros [H1 [H2 H3]]. destruct i as [|i].
        -- exfalso. apply (Qlt_not_le b x); auto. apply H3. lia.
        -- f_equal. apply IH. repeat split; [lia | | intros; apply H3; lia].
           intros j Hj. apply (H2 (S j)). lia.
    + apply not_below_iff in E. split.
      * intros <-. repeat split; [lia | intros; lia | auto].
      * intros [H1 [H2 H3]]. destruct i as [|i]; auto.
        exfalso. apply (Qlt_not_le b x); auto. apply (H2 0%nat). lia.
Qed.

Lemma increasing_cons (a : Q) (t : list Q) :
  increasing (a :: t) = true ->
  increasing t = true /\ (forall j, (j < length t)%nat -> a < nth j t 0).
Proof.
  revert a. induction t as [|b t IH]; intros a; simpl.
  - split; auto. intros; lia.
  - rewrite andb_true_iff, below_iff. intros [Hab Ht]. split; auto.
    destruct (IH _ Ht) as [_ Hb].
    intros [|j] Hj; auto.
    apply Qlt_trans with b; auto. apply Hb. lia.
Qed.

(** Strictly increasing edges, read by position. *)
Lemma increasing_nth (bins : list Q) (i j : nat) :
  increasing bins = true -> (i < j)%nat -> (j < length bins)%nat ->
  nth i bins 0 < nth j bins 0.
Proof.
  revert i j. induction bins as [|b t IH]; intros i j Hinc Hij Hj; simpl in Hj.
  - lia.
  - destruct (increasing_cons _ _ Hinc) as [Ht Hb].
    destruct j as [|j]; [lia|]. destruct i as [|i]; simpl.
    + apply Hb. lia.
    + apply IH; auto; lia.
Qed.

Lemma increasing_valid (bins : list Q) :
  increasing bins = true -> bins_valid bins = true.
Proof.
  intros Hinc. unfold bins_valid. rewrite Hinc, andb_true_r.
  induction bins as [|a [|b t] IH]; auto.
  simpl in Hinc. apply andb_true_iff in Hinc as [Hab Ht].
  change (Qle_bool a b && non_decreasing (b :: t) = true).
  rewrite (IH Ht), andb_true_r.
  apply Qle_bool_iff, Qlt_le_weak. now apply below_iff.
Qed.

Lemma cut_unfold (bins : list Q) (x : Q) :
  cut bins x =
  match searchsorted_left bins x with
  | O => None
  | S k => if Nat.eqb (S k) (length bins) then None else Some k
  end.
Proof.
  unfold cut. destruct (searchsorted_left bins x) as [|k]; [reflexivity|].
  replace (S k - 1)%nat with k by lia. reflexivity.
Qed.

(** The interval of a category, for strictly increasing edges. *)
Lemma cut_Some (bins : list Q) (x : Q) (i : nat) :
  increasing bins = true ->
  cut bins x = Some i <->
  (i + 1 < length bins)%nat /\ nth i bins 0 < x /\ x <= nth (i + 1) bins 0.
Proof.
  intros Hinc. rewrite cut_unfold.
  destruct (searchsorted_left bins x) as [|k] eqn:E.
  - split; [discriminate|]. intros [Hi [Hlo _]].
    apply searchsorted_left_spec in E. destruct E as [_ [_ E]].
    exfalso. apply (Qlt_not_le (nth i bins 0) x); auto.
    apply Qle_trans with (nth 0 bins 0); [apply E; lia|].
    destruct i; [apply Qle_refl|].
    apply Qlt_le_weak, increasing_nth; auto; lia.
  - apply searchsorted_left_spec in E. destruct E as [E1 [E2 E3]].
    destruct (Nat.eqb (S k) (length bins)) eqn:El.
    + apply Nat.eqb_eq in El. split; [discriminate|]. intros [Hi [_ Hhi]].
      exfalso. apply (Qlt_not_le (nth k bins 0) x); [apply E2; lia|].
      apply Qle_trans with (nth (i + 1) bins 0); auto.
      destruct (Nat.eq_dec k (i + 1)) as [->|Hne]; [apply Qle_refl|].
      apply Qlt_le_weak, increasing_nth; auto; lia.
    + apply Nat.eqb_neq in El. split.
      * intros [= <-]. replace (k + 1)%nat with (S k) by lia.
        repeat split; [lia | apply E2; lia | apply E3; lia].
      * intros [Hi [Hlo Hhi]]. f_equal.
        destruct (lt_eq_lt_dec i k) as [[Hlt|Heq]|Hgt]; auto; exfalso.
        -- apply (Qlt_not_le (nth k bins 0) x); [apply E2; lia|].
           apply Qle_trans with (nth (i + 1) bins 0); auto.
           destruct (Nat.eq_dec k (i + 1)) as [->|Hne]; [apply Qle_refl|].
           apply Qlt_le_weak, increasing_nth; auto; lia.
        -- apply (Qlt_not_le (nth i bins 0) x); auto.
           apply Qle_trans with (nth (S k) bins 0); [apply E3; lia|].
           destruct (Nat.eq_dec i (S k)) as [->|Hne]; [apply Qle_refl|].
           apply Qlt_le_weak, increasing_nth; auto; lia.
Qed.

(** The prices without a category. *)
Lemma cut_None (bins : list Q) (x : Q) :
  increasing bins = true -> (2 <= length bins)%nat ->
  cut bins x = None <->
  x <= nth 0 bins 0 \/ nth (length bins - 1) bins 0 < x.
Proof.
  intros Hinc Hlen. rewrite cut_unfold.
  destruct (searchsorted_left bins x) as [|k] eqn:E.
  - apply searchsorted_left_spec in E. destruct E as [_ [_ E]].
    split; auto. intros _. left. apply E. lia.
  - apply searchsorted_left_spec in E. destruct E as [E1 [E2 E3]].
    destruct (Nat.eqb (S k) (length bins)) eqn:El.
    + apply Nat.eqb_eq in El. split; auto. intros _. right.
      apply E2. lia.
    + apply Nat.eqb_neq in El. split; [discriminate|].
      intros [Hlo|Hhi]; exfalso.
      * apply (Qlt_not_le (nth 0 bins 0) x); auto. apply E2. lia.
      * apply (Qlt_not_le (nth (length bins - 1) bins 0) x); auto.
        apply Qle_trans with (nth (S k) bins 0); [apply E3; lia|].
        destruct (Nat.eq_dec (length bins - 1) (S k)) as [->|Hne];
          [apply Qle_refl|].
        apply Qlt_le_weak, increasing_nth; auto; lia.
Qed.

Lemma labels_nth (fmt : Q -> string) (bins : list Q) (i : nat) :
  (i + 1 < length bins)%nat ->
  nth i (labels fmt bins) "" = label fmt bins i.
Proof.
  intros Hi. unfold labels.
  rewrite (nth_indep _ "" (label fmt bins 0)) by (rewrite length_map, length_seq; lia).
  rewrite map_nth, seq_nth by lia. reflexivity.
Qed.

End SegmentFacts.

(** ** The price segmenter's intervals *)

(** C2, as the claim has it, fails: with the boundaries 0, 100, 300 the price
    100 is labelled 0-100 and not 100-300, and the price 0, the first
    boundary, has no segment. *)
Lemma price_on_boundary_counterexample :
  Segment.segment_label py_str [0; 100; 300] 100 = Some "0-100"
  /\ Segment.segment_label py_str [0; 100; 300] 100 <> Some "100-300"
  /\ Segment.segment_label py_str [0; 100; 300] 0 = None.
Proof.
  repeat split; try reflexivity. discriminate.
Qed.

(** C2, amended: for strictly increasing boundaries [b[0..k]], [k >= 1], a
    price [p] gets the label of the unique [i] with [b[i] < p <= b[i+1]]:
    the intervals are open on the left and closed on the right.  A price with
    [p <= b[0]] or [p > b[k]] gets no label, and binning a frame raises
    nothing. *)
Theorem price_segment_right_closed (fmt : Q -> string) (bins : list Q) (p : Q) :
  Segment.increasing bins = true ->
  (2 <= length bins)%nat ->
  (forall i, (i + 1 < length bins)%nat ->
             nth i bins 0 < p /\ p <= nth (i + 1) bins 0 ->
             Segment.cut bins p = Some i
             /\ Segment.segment_label fmt bins p = Some (Segment.label fmt bins i))
  /\ (forall i, Segment.cut bins p = Some i ->
                (i + 1 < length bins)%nat
                /\ nth i bins 0 < p /\ p <= nth (i + 1) bins 0)
  /\ (p <= nth 0 bins 0 \/ nth (length bins - 1) bins 0 < p <->
      Segment.segment_label fmt bins p = None)
  /\ (forall df, Segment.with_segments df bins
                 = Some (map (fun r => (r, Segment.cut bins (price r))) df)).
Proof.
  intros Hinc Hlen. repeat split.
  - apply SegmentFacts.cut_Some; tauto.
  - unfold Segment.segment_label.
    replace (Segment.cut bins p) with (Some i)
      by (symmetry; apply SegmentFacts.cut_Some; tauto).
    simpl. now rewrite SegmentFacts.labels_nth.
  - now apply (SegmentFacts.cut_Some bins p i Hinc).
  - now apply (SegmentFacts.cut_Some bins p i Hinc).
  - now apply (SegmentFacts.cut_Some bins p i Hinc).
  - intros H. apply SegmentFacts.cut_None in H; auto.
    unfold Segment.segment_label. now rewrite H.
  - unfold Segment.segment_label.
    destruct (Segment.cut bins p) eqn:E; [discriminate|].
    intros _. now apply SegmentFacts.cut_None.
  - unfold Segment.with_segments.
    now rewrite SegmentFacts.increasing_valid.
Qed.

(** The theorem at the boundaries 0, 100, 300: the price 300 is in the last
    segment. *)
Lemma price_segment_right_closed_witness :
  Segment.increasing [0; 100; 300] = true
  /\ (2 <= length [0; 100; 300])%nat
  /\ Segment.segment_label py_str [0; 100; 300] 300 = Some "100-300".
Proof.
  split; [reflexivity|]. split; [simpl; lia|].
  apply (proj1 (price_segment_right_closed py_str [0; 100; 300] 300
                  eq_refl ltac:(simpl; lia)) 1%nat).
  - simpl; lia.
  - split; unfold Qlt, Qle; simpl; lia.
Defined.

(** The sample prices of the segmenter. *)
Example price_segment_samples :
  Segment.segment_label py_str [0; 100; 300] 100 = Some "0-100"
  /\ Segment.segment_label py_str [0; 100; 300] 300 = Some "100-300"
  /\ Segment.segment_label py_str [0; 100; 300] 400 = None.
Proof. repeat split. Qed.

(** ** Sums over groups *)

Lemma sumQ_map_add {A} (f g : A -> Q) (l : list A) :
  sumQ (map (fun x => f x + g x) l) == sumQ (map f l) + sumQ (map g l).
Proof.
  induction l as [|x t IH]; simpl.
  - now rewrite Qplus_0_l.
  - rewrite IH. ring.
Qed.

Lemma sumQ_map_eq {A} (f g : A -> Q) (l : list A) :
  (forall x, In x l -> f x == g x) -> sumQ (map f l) == sumQ (map g l).
Proof.
  induction l as [|x t IH]; simpl; intros Hfg.
  - reflexivity.
  - rewrite (Hfg x) by auto. rewrite IH by auto. reflexivity.
Qed.

Lemma sumQ_map_scale {A} (f : A -> Q) (c : Q) (l : list A) :
  sumQ (map (fun x => f x * c) l) == sumQ (map f l) * c.
Proof.
  induction l as [|x t IH]; simpl.
  - ring.
  - rewrite IH. ring.
Qed.

Lemma sumQ_nonneg (l : list Q) : Forall (fun x => 0 <= x) l -> 0 <= sumQ l.
Proof.
  induction 1 as [|x t Hx _ IH]; simpl.
  - apply Qle_refl.
  - replace 0 with (0 + 0) by reflexivity. now apply Qplus_le_compat.
Qed.

Section GroupSums.
Context {R K : Type} `{KeyLaws K}.
Variable key : R -> option K.
Variable v : R -> Q.

Lemma sum_one_key (ks : list K) (r : R) :
  NoDup ks ->
  sumQ (map (fun k => if has_key key k r then v r else 0) ks)
  == if in_keys key ks r then v r else 0.
Proof.
  unfold in_keys, has_key. destruct (key r) as [k|].
  - induction 1 as [|k' t Hnin Hnd IH]; simpl.
    + reflexivity.
    + rewrite IH. destruct (keqb k' k) eqn:E; simpl.
      * apply keqb_eq in E. subst k'.
        replace (existsb (fun k' => keqb k' k) t) with false.
        -- ring.
        -- symmetry. apply not_true_is_false. intros Hex.
           apply existsb_exists in Hex as [k' [Hin E]].
           apply keqb_eq in E. now subst.
      * ring.
  - intros _. induction ks as [|k' t IH]; simpl.
    + reflexivity.
    + rewrite IH. ring.
Qed.

(** Summing group by group is summing the rows that have one of the keys. *)
Lemma sum_over_keys (ks : list K) (rows : list R) :
  NoDup ks ->
  sumQ (map (fun k => sumQ (map v (filter (has_key key k) rows))) ks)
  == sumQ (map v (filter (in_keys key ks) rows)).
Proof.
  intros Hnd. induction rows as [|r t IH]; simpl.
  - induction ks as [|k ks IHk]; simpl.
    + reflexivity.
    + inversion Hnd; subst. rewrite IHk by auto. ring.
  - rewrite (sumQ_map_eq _
      (fun k => (if has_key key k r then v r else 0)
                + sumQ (map v (filter (has_key key k) t)))).
    + rewrite sumQ_map_add, IH, sum_one_key by auto.
      destruct (in_keys key ks r); simpl; ring.
    + intros k _. destruct (has_key key k r); simpl; ring.
Qed.

(** The groups of a [groupby] selected by a test on the key add up to the
    rows selected by the same test. *)
Lemma groupby_sum (P : K -> bool) (rows : list R) :
  sumQ (map (fun kg => sumQ (map v (snd kg)))
            (filter (fun kg => P (fst kg)) (groupby key rows)))
  == sumQ (map v (filter (fun r => match key r with
                                   | Some k => P k
                                   | None => false
                                   end) rows)).
Proof.
  unfold groupby.
  assert (E : filter (fun kg : K * list R => P (fst kg))
                (map (fun k => (k, filter (has_key key k) rows)) (group_keys key rows))
              = map (fun k => (k, filter (has_key key k) rows))
                    (filter P (group_keys key rows))).
  { induction (group_keys key rows) as [|k t IH]; simpl; auto.
    destruct (P k); simpl; now rewrite IH. }
  rewrite E, map_map. simpl.
  rewrite sum_over_keys by (apply NoDup_filter, group_keys_NoDup).
  erewrite filter_ext_in; [reflexivity|].
  intros r Hr. unfold in_keys. destruct (key r) as [k|] eqn:Ek; auto.
  destruct (P k) eqn:EP.
  - apply existsb_exists. exists k. split; [|apply keqb_refl].
    apply filter_In. split; auto. apply group_keys_In. eauto.
  - apply not_true_is_false. intros Hex.
    apply existsb_exists in Hex as [k' [Hin E']].
    apply keqb_eq in E'. subst k'. apply filter_In in Hin. destruct Hin. congruence.
Qed.

End GroupSums.

Lemma filter_map_comm {A B} (f : B -> bool) (g : A -> B) (l : list A) :
  filter f (map g l) = map g (filter (fun x => f (g x)) l).
Proof.
  induction l as [|x t IH]; simpl; auto.
  destruct (f (g x)); simpl; now rewrite IH.
Qed.

Lemma bool_eq_iff (a b : bool) : (a = true <-> b = true) -> a = b.
Proof. destruct a, b; intuition congruence. Qed.

(** ** Rounding *)

Lemma rint_inject_Z (q : Q) (z : Z) : q == inject_Z z -> rint q = z.
Proof.
  intros E. unfold rint.
  assert (Hf : Qfloor q = z) by (rewrite E; apply Qfloor_Z).
  rewrite Hf.
  replace (Qcompare (q - inject_Z z) (1 # 2)) with Lt; auto.
  symmetry. apply -> Qlt_alt. rewrite E. ring_simplify. reflexivity.
Qed.

Lemma round2_cents (q : Q) : cents q -> round2 q == q.
Proof.
  intros [z E]. unfold round2.
  rewrite (rint_inject_Z (q * 100) z).
  - rewrite E. unfold Qeq, Qdiv, Qmult, Qinv, inject_Z; simpl. lia.
  - rewrite E. unfold Qeq, Qmult, inject_Z; simpl. lia.
Qed.

Lemma cents_sum (l : list Q) : Forall cents l -> cents (sumQ l).
Proof.
  induction 1 as [|x t [z E] _ [zs Es]]; simpl.
  - exists 0%Z. reflexivity.
  - exists (z + zs)%Z. rewrite E, Es. unfold Qeq, Qplus; simpl. lia.
Qed.

Lemma cents_agg_sum (f : record -> Q) (g : list record) :
  Forall (fun r => cents (f r)) g -> cents (agg_sum f g).
Proof.
  intros Hg. apply cents_sum. now apply Forall_map.
Qed.

(** ** The brand share table *)

Module BrandShareFacts.
Import BrandShare.

Lemma apply_rows_Some {A B} (f : A -> option B) (g : A -> B) (rows : list A) :
  (forall x, In x rows -> f x = Some (g x)) ->
  apply_rows f rows = Some (map g rows).
Proof.
  induction rows as [|x t IH]; simpl; intros Hf; auto.
  rewrite (Hf x) by auto. simpl. rewrite IH by auto. reflexivity.
Qed.

Lemma assign_shares_map (g1 g2 : row -> fval) (rows : list row) :
  assign_shares rows (map g1 rows) (map g2 rows)
  = map (fun x => mkShare x (g1 x) (g2 x)) rows.
Proof.
  unfold assign_shares. induction rows as [|x t IH]; simpl; auto.
  now rewrite IH.
Qed.

(** Every row of [brand_stats] aggregates the records of its key, and some
    record has that key. *)
Lemma brand_stats_In (df : list record) (x : row) :
  In x (brand_stats df) ->
  (exists r, In r df /\ period r = r_period x /\ platform r = r_platform x
             /\ brand r = Some (r_brand x))
  /\ r_revenue x
     = agg_sum revenue
         (filter (has_key (fun r => option_map (fun b => (period r, platform r, b))
                                               (brand r))
                          (r_period x, r_platform x, r_brand x)) df).
Proof.
  unfold brand_stats. rewrite in_map_iff.
  intros [[[[p plat] b] g] [<- Hin]]. simpl.
  apply groupby_In in Hin as [Hk ->]. split; auto.
  apply group_keys_In in Hk as [r [Hr Hk]].
  exists r. destruct (brand r) as [b'|]; simpl in Hk; [|discriminate].
  injection Hk as -> -> ->. auto.
Qed.

Lemma all_platform_brand_stats_In (df : list record) (x : row) :
  In x (all_platform_brand_stats df) ->
  (exists r, In r df /\ period r = r_period x /\ brand r = Some (r_brand x))
  /\ r_revenue x
     = agg_sum revenue
         (filter (has_key (fun r => option_map (fun b => (period r, b)) (brand r))
                          (r_period x, r_brand x)) df).
Proof.
  unfold all_platform_brand_stats. rewrite in_map_iff.
  intros [[[p b] g] [<- Hin]]. simpl.
  apply groupby_In in Hin as [Hk ->]. split; auto.
  apply group_keys_In in Hk as [r [Hr Hk]].
  exists r. destruct (brand r) as [b'|]; simpl in Hk; [|discriminate].
  injection Hk as -> ->. auto.
Qed.

(** The lookups of the share lambdas find their key. *)
Lemma revenue_share_Some (df : list record) (x : row) :
  In x (brand_stats df) ->
  revenue_share (period_platform_totals df) x
  = Some (share (r_revenue x)
                (agg_sum revenue (stratum_records (r_period x) (r_platform x) df))).
Proof.
  intros Hx. apply brand_stats_In in Hx as [[r [Hr [Hp [Hpl _]]]] _].
  unfold revenue_share, period_platform_totals.
  rewrite (loc_groupby _ totals).
  - reflexivity.
  - apply group_keys_In. exists r. split; auto. congruence.
Qed.

Lemma volume_share_Some (df : list record) (x : row) :
  In x (brand_stats df) ->
  volume_share (period_platform_totals df) x
  = Some (share (r_volume x)
                (agg_sum volume (stratum_records (r_period x) (r_platform x) df))).
Proof.
  intros Hx. apply brand_stats_In in Hx as [[r [Hr [Hp [Hpl _]]]] _].
  unfold volume_share, period_platform_totals.
  rewrite (loc_groupby _ totals).
  - reflexivity.
  - apply group_keys_In. exists r. split; auto. congruence.
Qed.

Lemma all_revenue_share_Some (df : list record) (x : row) :
  In x (all_platform_brand_stats df) ->
  all_revenue_share (all_platform_totals df) x
  = Some (share (r_revenue x) (agg_sum revenue (period_records (r_period x) df))).
Proof.
  intros Hx. apply all_platform_brand_stats_In in Hx as [[r [Hr [Hp _]]] _].
  unfold all_revenue_share, all_platform_totals.
  rewrite (loc_groupby _ totals).
  - reflexivity.
  - apply group_keys_In. exists r. split; auto. congruence.
Qed.

Lemma all_volume_share_Some (df : list record) (x : row) :
  In x (all_platform_brand_stats df) ->
  all_volume_share (all_platform_totals df) x
  = Some (share (r_volume x) (agg_sum volume (period_records (r_period x) df))).
Proof.
  intros Hx. apply all_platform_brand_stats_In in Hx as [[r [Hr [Hp _]]] _].
  unfold all_volume_share, all_platform_totals.
  rewrite (loc_groupby _ totals).
  - reflexivity.
  - apply group_keys_In. exists r. split; auto. congruence.
Qed.

Lemma platform_shares_eq (df : list record) :
  platform_shares df = Some (map (platform_share_row df) (brand_stats df)).
Proof.
  unfold platform_shares.
  rewrite (apply_rows_Some _ _ _ (revenue_share_Some df)). simpl.
  rewrite (apply_rows_Some _ _ _ (volume_share_Some df)). simpl.
  now rewrite assign_shares_map.
Qed.

Lemma rollup_shares_eq (df : list record) :
  rollup_shares df = Some (map (rollup_share_row df) (all_platform_brand_stats df)).
Proof.
  unfold rollup_shares.
  rewrite (apply_rows_Some _ _ _ (all_revenue_share_Some df)). simpl.
  rewrite (apply_rows_Some _ _ _ (all_volume_share_Some df)). simpl.
  now rewrite assign_shares_map.
Qed.

Lemma platform_share_rows (df : list record) (rows : list row) :
  map s_row (map (platform_share_row df) rows) = rows.
Proof. rewrite map_map. apply map_id. Qed.

Lemma rollup_share_rows (df : list record) (rows : list row) :
  map s_row (map (rollup_share_row df) rows) = rows.
Proof. rewrite map_map. apply map_id. Qed.

(** [calculate_brand_share] raises nothing. *)
Lemma calculate_brand_share_eq (df : list record) :
  calculate_brand_share df
  = Some (map (platform_share_row df) (brand_stats df)
          ++ map (rollup_share_row df) (all_platform_brand_stats df))%list.
Proof.
  unfold calculate_brand_share.
  now rewrite platform_shares_eq, rollup_shares_eq.
Qed.

End BrandShareFacts.

Module BrandSums.
Import BrandShare.

(** The key of a record in [brand_stats] and in [all_platform_brand_stats]. *)
Local Abbreviation key3 := (fun r => option_map (fun b => (period r, platform r, b)) (brand r)).
Local Abbreviation key2 := (fun r => option_map (fun b => (period r, b)) (brand r)).

(** The revenue of the rows of [brand_stats] selected by a test on the key
    is the revenue of the records selected by the same test. *)
Lemma brand_stats_sum (P : string * string * string -> bool) (df : list record) :
  sumQ (map r_revenue
            (filter (fun x => P (r_period x, r_platform x, r_brand x))
                    (brand_stats df)))
  == sumQ (map revenue
               (filter (fun r => match key3 r with
                                 | Some k => P k
                                 | None => false
                                 end) df)).
Proof.
  rewrite <- (groupby_sum key3 revenue P df).
  unfold brand_stats. rewrite filter_map_comm, map_map.
  erewrite filter_ext.
  - erewrite map_ext; [reflexivity|].
    intros [[[p plat] b] g]. reflexivity.
  - intros [[[p plat] b] g]. reflexivity.
Qed.

Lemma keqb_pair {A B} `{KeyLaws A} `{KeyLaws B} (a a' : A) (b b' : B) :
  keqb (a, b) (a', b') = keqb a a' && keqb b b'.
Proof.
  apply bool_eq_iff. rewrite andb_true_iff, !keqb_eq.
  split; [intros [= -> ->]; auto | intros [-> ->]; auto].
Qed.

(** A rollup row carries the revenue of the per-platform rows of its
    (period, brand) stratum. *)
Lemma rollup_row_sum (df : list record) (x : row) :
  In x (all_platform_brand_stats df) ->
  r_revenue x
  == sumQ (map r_revenue (brand_rows (r_period x) (r_brand x) (brand_stats df))).
Proof.
  intros Hx. apply BrandShareFacts.all_platform_brand_stats_In in Hx as [_ ->].
  unfold brand_rows.
  rewrite (brand_stats_sum
             (fun k => keqb (fst (fst k)) (r_period x) && keqb (snd k) (r_brand x))).
  unfold agg_sum. erewrite filter_ext; [reflexivity|].
  intros r. unfold has_key. destruct (brand r) as [b|]; simpl; auto.
  rewrite keqb_pair. f_equal; apply bool_eq_iff; rewrite !keqb_eq; split; congruence.
Qed.

(** Every per-platform row has its rollup row. *)
Lemma rollup_row_exists (df : list record) (y : row) :
  In y (brand_stats df) ->
  exists x, In x (all_platform_brand_stats df)
            /\ r_period x = r_period y /\ r_brand x = r_brand y.
Proof.
  intros Hy. apply BrandShareFacts.brand_stats_In in Hy as [[r [Hr [Hp [_ Hb]]]] _].
  set (k := (r_period y, r_brand y)).
  assert (Hk : In k (group_keys key2 df)).
  { apply group_keys_In. exists r. split; auto. rewrite Hb. simpl. now rewrite Hp. }
  exists (mkRow (r_period y) ALL_PLATFORMS (r_brand y)
                (agg_sum revenue (filter (has_key key2 k) df))
                (agg_sum volume (filter (has_key key2 k) df))).
  split; auto. unfold all_platform_brand_stats. apply in_map_iff.
  exists (k, filter (has_key key2 k) df). split; auto.
  apply groupby_In. auto.
Qed.

End BrandSums.

(** ** The period statistics table *)

Module PeriodSums.
Import PeriodStats.

Lemma Forall_filter_sub {A} (P : A -> Prop) (f : A -> bool) (l : list A) :
  Forall P l -> Forall P (filter f l).
Proof.
  rewrite !Forall_forall. intros H x Hx. apply filter_In in Hx. now apply H.
Qed.

(** With revenues in whole cents the rounding of a group's sum changes
    nothing. *)
Lemma stats_sum_cents (p : string) (df : list record) :
  Forall (fun r => cents (revenue r)) df ->
  sumQ (map r_revenue (period_rows p (stats df)))
  == sumQ (map revenue (filter (fun r => keqb (period r) p) df)).
Proof.
  intros Hc.
  rewrite <- (groupby_sum (fun r => Some (period r, platform r)) revenue
                          (fun k => keqb (fst k) p) df).
  unfold period_rows, stats. rewrite filter_map_comm, map_map. simpl.
  apply sumQ_map_eq. intros [[p' plat] g] Hin. simpl.
  apply filter_In in Hin as [Hin _]. apply groupby_In in Hin as [_ ->].
  apply round2_cents, cents_agg_sum. now apply Forall_filter_sub.
Qed.

Lemma total_stats_In (df : list record) (x : row) :
  In x (total_stats df) ->
  r_revenue x
  = round2 (agg_sum revenue (filter (fun r => keqb (r_period x) (period r)) df)).
Proof.
  unfold total_stats. rewrite in_map_iff. intros [[p g] [<- Hin]]. simpl.
  apply groupby_In in Hin as [_ ->]. reflexivity.
Qed.

Lemma total_row_sum_cents (df : list record) (x : row) :
  Forall (fun r => cents (revenue r)) df ->
  In x (total_stats df) ->
  r_revenue x == sumQ (map r_revenue (period_rows (r_period x) (stats df))).
Proof.
  intros Hc Hx. rewrite (total_stats_In df x Hx), stats_sum_cents by auto.
  rewrite round2_cents by (apply cents_agg_sum; now apply Forall_filter_sub).
  unfold agg_sum. erewrite filter_ext; [reflexivity|].
  intros r. simpl. apply bool_eq_iff. rewrite !keqb_eq. split; congruence.
Qed.

End PeriodSums.

(** ** The rollup rows *)




(** ** Shares of a stratum *)

Module ShareFacts.
Import BrandShare.

Lemma Qis_zero_true (q : Q) : Qis_zero q = true <-> q == 0.
Proof. apply Qeq_bool_iff. Qed.

Lemma Qis_zero_false (q : Q) : Qis_zero q = false <-> ~ q == 0.
Proof.
  rewrite <- Qis_zero_true. destruct (Qis_zero q); split; congruence.
Qed.

(** A share over a total that is not zero is the finite quotient. *)
Lemma share_finite (v total : Q) :
  ~ total == 0 -> share v total = Fin (v / total * 100).
Proof.
  intros Hn. unfold share. simpl.
  now rewrite (proj2 (Qis_zero_false total) Hn).
Qed.

(** A share over a zero total is not a number: 0/0 is NaN, and anything
    else over 0 is an infinity. *)
Lemma share_zero_total (v total : Q) :
  total == 0 ->
  is_finite (share v total) = false /\ (v == 0 -> share v total = NaN).
Proof.
  intros Hz. unfold share. simpl.
  rewrite (proj2 (Qis_zero_true total) Hz). split.
  - destruct (Qis_zero v); simpl; auto. destruct (Qis_neg v); reflexivity.
  - intros Hv. now rewrite (proj2 (Qis_zero_true v) Hv).
Qed.

Lemma fsum_Fin (qs : list Q) : fsum (map Fin qs) = Fin (sumQ qs).
Proof.
  induction qs as [|q t IH]; [reflexivity|].
  change (fsum (map Fin (q :: t))) with (Fin q + fsum (map Fin t))%fl.
  now rewrite IH.
Qed.

Lemma scaled_sum (f : BrandShare.row -> Q) (total : Q) (rows : list BrandShare.row) :
  ~ total == 0 ->
  sumQ (map f rows) == total ->
  sumQ (map (fun x => f x / total * 100) rows) == 100.
Proof.
  intros Hn Hs.
  rewrite (sumQ_map_eq _ (fun x => f x * (/ total * 100))).
  - rewrite sumQ_map_scale, Hs. field. exact Hn.
  - intros x _. unfold Qdiv. ring.
Qed.

Import BrandSums.

Local Abbreviation key2 := (fun r => option_map (fun b => (period r, b)) (brand r)).

(** The revenue shares of one (period, platform) stratum. *)
Lemma platform_stratum_sum (df : list record) (p plat : string) :
  (forall r, In r df -> period r = p -> platform r = plat -> brand r <> None) ->
  ~ agg_sum revenue (stratum_records p plat df) == 0 ->
  feq (fsum (map s_revenue_share
                 (stratum p plat (map (platform_share_row df) (brand_stats df)))))
      (Fin 100).
Proof.
  intros Hb Hn. unfold stratum. rewrite filter_map_comm, map_map. simpl.
  set (rows := filter _ (brand_stats df)).
  set (T := agg_sum revenue (stratum_records p plat df)) in *.
  rewrite (map_ext_in _ (fun x => Fin (r_revenue x / T * 100))).
  - rewrite <- (map_map (fun x => r_revenue x / T * 100) Fin), fsum_Fin. simpl.
    apply scaled_sum; auto. unfold rows, T.
    rewrite (brand_stats_sum
               (fun k => keqb (fst (fst k)) p && keqb (snd (fst k)) plat) df).
    unfold agg_sum, stratum_records. erewrite filter_ext_in; [reflexivity|].
    intros r Hr. unfold has_key. rewrite keqb_pair.
    destruct (brand r) as [b|] eqn:Eb; simpl.
    + f_equal; apply keqb_sym.
    + symmetry. apply not_true_is_false. rewrite andb_true_iff, !keqb_eq.
      intros [E1 E2]. now apply (Hb r).
  - intros x Hx. apply filter_In in Hx as [_ Hx].
    apply andb_true_iff in Hx as [Hp Hpl]. apply keqb_eq in Hp, Hpl.
    simpl. rewrite Hp, Hpl. now apply share_finite.
Qed.

Lemma all_platform_brand_stats_sum (P : string * string -> bool) (df : list record) :
  sumQ (map r_revenue
            (filter (fun x => P (r_period x, r_brand x))
                    (all_platform_brand_stats df)))
  == sumQ (map revenue
               (filter (fun r => match key2 r with
                                 | Some k => P k
                                 | None => false
                                 end) df)).
Proof.
  rewrite <- (groupby_sum key2 revenue P df).
  unfold all_platform_brand_stats. rewrite filter_map_comm, map_map.
  erewrite filter_ext.
  - erewrite map_ext; [reflexivity|].
    intros [[p b] g]. reflexivity.
  - intros [[p b] g]. reflexivity.
Qed.

(** The revenue shares of one period of the rollup rows. *)
Lemma rollup_stratum_sum (df : list record) (p : string) :
  (forall r, In r df -> period r = p -> brand r <> None) ->
  ~ agg_sum revenue (period_records p df) == 0 ->
  feq (fsum (map s_revenue_share
                 (period_stratum p (map (rollup_share_row df)
                                        (all_platform_brand_stats df)))))
      (Fin 100).
Proof.
  intros Hb Hn. unfold period_stratum. rewrite filter_map_comm, map_map. simpl.
  set (rows := filter _ (all_platform_brand_stats df)).
  set (T := agg_sum revenue (period_records p df)) in *.
  rewrite (map_ext_in _ (fun x => Fin (r_revenue x / T * 100))).
  - rewrite <- (map_map (fun x => r_revenue x / T * 100) Fin), fsum_Fin. simpl.
    apply scaled_sum; auto. unfold rows, T.
    rewrite (all_platform_brand_stats_sum (fun k => keqb (fst k) p) df).
    unfold agg_sum, period_records. erewrite filter_ext_in; [reflexivity|].
    intros r Hr. unfold has_key.
    destruct (brand r) as [b|] eqn:Eb; simpl.
    + apply keqb_sym.
    + symmetry. apply not_true_is_false. rewrite keqb_eq.
      intros E. now apply (Hb r).
  - intros x Hx. apply filter_In in Hx as [_ Hx]. apply keqb_eq in Hx.
    simpl. rewrite Hx. now apply share_finite.
Qed.

End ShareFacts.




(** ** The price segment table *)

Module PriceSegmentFacts.
Import Segment PriceSegments.

Local Abbreviation seg_key3 :=
  (fun x : segmented =>
     option_map (fun s => (period (fst x), platform (fst x), s)) (snd x)).
Local Abbreviation seg_key2 :=
  (fun x : segmented => option_map (fun s => (period (fst x), s)) (snd x)).

Lemma segment_stats_In (sdf : list segmented) (x : row) :
  In x (segment_stats sdf) ->
  (exists r, In r sdf /\ period (fst r) = r_period x
             /\ platform (fst r) = r_platform x /\ snd r = Some (r_segment x))
  /\ r_revenue x
     = agg_sum revenue
         (records (filter (has_key seg_key3 (r_period x, r_platform x, r_segment x))
                          sdf)).
Proof.
  unfold segment_stats. rewrite in_map_iff.
  intros [[[[p plat] sg] g] [<- Hin]]. simpl.
  apply groupby_In in Hin as [Hk ->]. split; auto.
  apply group_keys_In in Hk as [r [Hr Hk]].
  exists r. destruct (snd r) as [sg'|]; simpl in Hk; [|discriminate].
  injection Hk as -> -> ->. auto.
Qed.

Lemma all_platform_segment_stats_In (sdf : list segmented) (x : row) :
  In x (all_platform_segment_stats sdf) ->
  (exists r, In r sdf /\ period (fst r) = r_period x /\ snd r = Some (r_segment x))
  /\ r_revenue x
     = agg_sum revenue
         (records (filter (has_key seg_key2 (r_period x, r_segment x)) sdf)).
Proof.
  unfold all_platform_segment_stats. rewrite in_map_iff.
  intros [[[p sg] g] [<- Hin]]. simpl.
  apply groupby_In in Hin as [Hk ->]. split; auto.
  apply group_keys_In in Hk as [r [Hr Hk]].
  exists r. destruct (snd r) as [sg'|]; simpl in Hk; [|discriminate].
  injection Hk as -> ->. auto.
Qed.

Lemma segment_revenue_share_Some (sdf : list segmented) (x : row) :
  In x (segment_stats sdf) ->
  revenue_share (period_platform_totals sdf) x
  = Some (s_revenue_share (platform_share_row sdf x)).
Proof.
  intros Hx. apply segment_stats_In in Hx as [[r [Hr [Hp [Hpl _]]]] _].
  unfold revenue_share, period_platform_totals.
  rewrite (loc_groupby _ totals).
  - reflexivity.
  - apply group_keys_In. exists r. split; auto. congruence.
Qed.

Lemma segment_volume_share_Some (sdf : list segmented) (x : row) :
  In x (segment_stats sdf) ->
  volume_share (period_platform_totals sdf) x
  = Some (s_volume_share (platform_share_row sdf x)).
Proof.
  intros Hx. apply segment_stats_In in Hx as [[r [Hr [Hp [Hpl _]]]] _].
  unfold volume_share, period_platform_totals.
  rewrite (loc_groupby _ totals).
  - reflexivity.
  - apply group_keys_In. exists r. split; auto. congruence.
Qed.

Lemma segment_rollup_revenue_share_Some (sdf : list segmented) (x : row) :
  In x (all_platform_segment_stats sdf) ->
  all_revenue_share (all_platform_totals sdf) x
  = Some (s_revenue_share (rollup_share_row sdf x)).
Proof.
  intros Hx. apply all_platform_segment_stats_In in Hx as [[r [Hr [Hp _]]] _].
  unfold all_revenue_share, all_platform_totals.
  rewrite (loc_groupby _ totals).
  - reflexivity.
  - apply group_keys_In. exists r. split; auto. congruence.
Qed.

Lemma segment_rollup_volume_share_Some (sdf : list segmented) (x : row) :
  In x (all_platform_segment_stats sdf) ->
  all_volume_share (all_platform_totals sdf) x
  = Some (s_volume_share (rollup_share_row sdf x)).
Proof.
  intros Hx. apply all_platform_segment_stats_In in Hx as [[r [Hr [Hp _]]] _].
  unfold all_volume_share, all_platform_totals.
  rewrite (loc_groupby _ totals).
  - reflexivity.
  - apply group_keys_In. exists r. split; auto. congruence.
Qed.

Lemma segment_assign_shares_map (g1 g2 : row -> fval) (rows : list row) :
  assign_shares rows (map g1 rows) (map g2 rows)
  = map (fun x => mkShare x (g1 x) (g2 x)) rows.
Proof.
  unfold assign_shares. induction rows as [|x t IH]; simpl; auto.
  now rewrite IH.
Qed.

Lemma segment_platform_shares_eq (sdf : list segmented) :
  platform_shares sdf = Some (map (platform_share_row sdf) (segment_stats sdf)).
Proof.
  unfold platform_shares.
  rewrite (BrandShareFacts.apply_rows_Some _ _ _ (segment_revenue_share_Some sdf)). simpl.
  rewrite (BrandShareFacts.apply_rows_Some _ _ _ (segment_volume_share_Some sdf)). simpl.
  now rewrite segment_assign_shares_map.
Qed.

Lemma segment_rollup_shares_eq (sdf : list segmented) :
  rollup_shares sdf
  = Some (map (rollup_share_row sdf) (all_platform_segment_stats sdf)).
Proof.
  unfold rollup_shares.
  rewrite (BrandShareFacts.apply_rows_Some _ _ _ (segment_rollup_revenue_share_Some sdf)). simpl.
  rewrite (BrandShareFacts.apply_rows_Some _ _ _ (segment_rollup_volume_share_Some sdf)). simpl.
  now rewrite segment_assign_shares_map.
Qed.

Lemma all_segment_stats_eq (sdf : list segmented) :
  all_segment_stats sdf
  = Some (map (platform_share_row sdf) (segment_stats sdf)
          ++ map (rollup_share_row sdf) (all_platform_segment_stats sdf))%list.
Proof.
  unfold all_segment_stats. now rewrite segment_platform_shares_eq, segment_rollup_shares_eq.
Qed.

End PriceSegmentFacts.

(** ** Rows without a key *)

Section DropMissing.
Context {R K : Type} `{KeyLaws K}.
Variable key : R -> option K.

Lemma present_keyed (rows : list R) :
  present (map key (filter (keyed key) rows)) = present (map key rows).
Proof.
  induction rows as [|r t IH]; simpl; auto.
  unfold keyed at 1. destruct (key r) as [k|] eqn:E; simpl; rewrite ?E, IH; auto.
Qed.

Lemma filter_has_key_keyed (k : K) (rows : list R) :
  filter (has_key key k) (filter (keyed key) rows) = filter (has_key key k) rows.
Proof.
  induction rows as [|r t IH]; simpl; auto.
  unfold keyed at 1, has_key at 2. destruct (key r) as [k'|] eqn:E; simpl.
  - unfold has_key at 1. rewrite E. destruct (keqb k k'); now rewrite IH.
  - exact IH.
Qed.

(** A [groupby] does not see the rows that miss a key value. *)
Lemma groupby_drop_missing (rows : list R) :
  groupby key (filter (keyed key) rows) = groupby key rows.
Proof.
  unfold groupby, group_keys. rewrite present_keyed.
  apply map_ext. intros k. now rewrite filter_has_key_keyed.
Qed.

End DropMissing.

(** ** Change columns *)

Section ChangeFacts.
Variable fill_pad : bool.

Lemma ffill_length (last : fval) (col : list fval) :
  length (ffill last col) = length col.
Proof.
  revert last. induction col as [|x t IH]; intros last; simpl; auto.
Qed.

Lemma pct_from_length (prev : fval) (col : list fval) :
  length (pct_from prev col) = length col.
Proof.
  revert prev. induction col as [|x t IH]; intros prev; simpl; auto.
Qed.

Lemma pct_change_100_length (col : list fval) :
  length (pct_change_100 fill_pad col) = length col.
Proof.
  unfold pct_change_100, pct_change. rewrite length_map, pct_from_length.
  destruct fill_pad; auto using ffill_length.
Qed.

(** Filling forward changes nothing in a column without missing cells. *)
Lemma ffill_no_nan (last : fval) (col : list fval) :
  forallb (fun x => negb (is_nan x)) col = true -> ffill last col = col.
Proof.
  revert last. induction col as [|x t IH]; intros last; simpl; auto.
  rewrite andb_true_iff, negb_true_iff. intros [Hx Ht].
  rewrite Hx. now rewrite IH.
Qed.

Lemma pct_change_no_nan (col : list fval) :
  forallb (fun x => negb (is_nan x)) col = true ->
  pct_change fill_pad col = pct_from NaN col.
Proof.
  intros Hc. unfold pct_change. destruct fill_pad; auto.
  now rewrite ffill_no_nan.
Qed.

End ChangeFacts.

Lemma combine_fst {A B} (l : list A) (l' : list B) :
  length l = length l' -> map fst (combine l l') = l.
Proof.
  revert l'. induction l as [|x t IH]; intros [|y t']; simpl; try discriminate; auto.
  intros [= Hl]. now rewrite IH.
Qed.

Module SegmentResult.
Import Segment PriceSegments.

Lemma with_changes_rows (fill_pad : bool) (data : list share_row) :
  map f_row (with_changes fill_pad data) = data.
Proof.
  unfold with_changes. rewrite map_map. simpl.
  rewrite <- (map_map fst fst), !combine_fst; auto.
  - now rewrite pct_change_100_length, length_map.
  - rewrite length_combine, !pct_change_100_length, !length_map. lia.
Qed.

(** The frames of [result_dfs] hold the rows of the table, each once more
    with its change columns. *)
Lemma result_dfs_rows (fill_pad : bool) (all : list share_row) (x : share_row) :
  In x (map f_row (concat (result_dfs fill_pad all))) <-> In x all.
Proof.
  unfold result_dfs. rewrite concat_map, in_concat. split.
  - intros [l [Hl Hx]]. apply in_map_iff in Hl as [fl [<- Hfl]].
    apply in_flat_map in Hfl as [plat [_ Hfl]].
    apply in_map_iff in Hfl as [sg [<- _]].
    rewrite with_changes_rows in Hx. unfold segment_data in Hx.
    apply sort_by_In, filter_In in Hx as [Hx _].
    now apply filter_In in Hx.
  - intros Hx.
    set (plat := r_platform (s_row x)). set (sg := r_segment (s_row x)).
    set (pd := filter (fun y => keqb (r_platform (s_row y)) plat) all).
    assert (Hpd : In x pd) by (apply filter_In; split; auto; apply keqb_refl).
    exists (segment_data pd sg). split.
    + apply in_map_iff. exists (with_changes fill_pad (segment_data pd sg)).
      split; [apply with_changes_rows|].
      apply in_flat_map. exists plat. split.
      * apply unique_In, in_map_iff. exists x. auto.
      * apply in_map_iff. exists sg. split; auto.
        apply unique_In, in_map_iff. exists x. auto.
    + unfold segment_data. apply sort_by_In, filter_In. split; auto.
      apply keqb_refl.
Qed.

(** [analyze_price_segments] raises nothing on valid boundaries, and its
    rows are the rows of [all_segment_stats]. *)
Lemma analyze_price_segments_rows (fill_pad : bool) (df : list record)
    (bins : list Q) :
  bins_valid bins = true ->
  let sdf := map (fun r => (r, cut bins (price r))) df in
  exists t,
    analyze_price_segments fill_pad df bins = Some t
    /\ forall x, In x (map f_row t) <->
                 In x (map (platform_share_row sdf) (segment_stats sdf)
                       ++ map (rollup_share_row sdf) (all_platform_segment_stats sdf)).
Proof.
  intros Hv sdf. unfold analyze_price_segments, with_segments. rewrite Hv. simpl.
  fold sdf. rewrite PriceSegmentFacts.all_segment_stats_eq. simpl.
  set (all := (_ ++ _)%list).
  destruct (empty (result_dfs fill_pad all)) eqn:E.
  - eexists. split; [reflexivity|]. intros x.
    rewrite map_map. simpl. now rewrite map_id.
  - eexists. split; [reflexivity|]. intros x. apply result_dfs_rows.
Qed.

End SegmentResult.

Module SegmentShares.
Import Segment PriceSegments.

Section Binned.
Variable c : record -> option nat.

(** The segmented frame: every record with its category code. *)
Let binned (df : list record) : list segmented := map (fun r => (r, c r)) df.

Lemma records_filter (f : segmented -> bool) (df : list record) :
  records (filter f (binned df)) = filter (fun r => f (r, c r)) df.
Proof.
  unfold records, binned. rewrite filter_map_comm, map_map. simpl. apply map_id.
Qed.

Lemma stratum_records_eq (p plat : string) (df : list record) :
  stratum_records p plat (binned df)
  = filter (fun r => keqb (period r) p && keqb (platform r) plat) df.
Proof.
  unfold stratum_records. rewrite records_filter. apply filter_ext.
  intros r. unfold has_key. simpl. rewrite BrandSums.keqb_pair.
  f_equal; apply keqb_sym.
Qed.

Lemma period_records_eq (p : string) (df : list record) :
  period_records p (binned df) = filter (fun r => keqb (period r) p) df.
Proof.
  unfold period_records. rewrite records_filter. apply filter_ext.
  intros r. unfold has_key. simpl. apply keqb_sym.
Qed.

Lemma segment_row_revenue (df : list record) (x : row) :
  In x (segment_stats (binned df)) ->
  r_revenue x
  = agg_sum revenue (filter (in_row c (r_period x) (r_platform x) (r_segment x)) df).
Proof.
  intros Hx. apply PriceSegmentFacts.segment_stats_In in Hx as [_ ->].
  rewrite records_filter. f_equal. apply filter_ext.
  intros r. unfold has_key, in_row. simpl. destruct (c r) as [s|]; simpl.
  - rewrite !BrandSums.keqb_pair. f_equal; [f_equal|]; apply keqb_sym.
  - now rewrite andb_false_r.
Qed.

Lemma rollup_row_revenue (df : list record) (x : row) :
  In x (all_platform_segment_stats (binned df)) ->
  r_revenue x
  = agg_sum revenue (filter (in_rollup_row c (r_period x) (r_segment x)) df).
Proof.
  intros Hx. apply PriceSegmentFacts.all_platform_segment_stats_In in Hx as [_ ->].
  rewrite records_filter. f_equal. apply filter_ext.
  intros r. unfold has_key, in_rollup_row. simpl. destruct (c r) as [s|]; simpl.
  - rewrite !BrandSums.keqb_pair. f_equal; apply keqb_sym.
  - now rewrite andb_false_r.
Qed.

End Binned.

End SegmentShares.

(** ** The denominators of the segment shares *)




(** ** Shares over a zero total *)

Module ZeroTotal.

Lemma agg_sum_nonneg (f : record -> Q) (g : list record) :
  Forall (fun r => 0 <= f r) g -> 0 <= agg_sum f g.
Proof.
  intros Hg. apply sumQ_nonneg. now apply Forall_map.
Qed.

(** A sum of amounts that are not negative grows with the selection. *)
Lemma agg_sum_sub (f : record -> Q) (s1 s2 : record -> bool) (df : list record) :
  (forall r, s1 r = true -> s2 r = true) ->
  Forall (fun r => 0 <= f r) df ->
  agg_sum f (filter s1 df) <= agg_sum f (filter s2 df).
Proof.
  intros Hs. unfold agg_sum. induction 1 as [|r t Hr _ IH]; simpl.
  - apply Qle_refl.
  - destruct (s1 r) eqn:E1.
    + rewrite (Hs r E1). simpl. apply Qplus_le_compat; [apply Qle_refl | exact IH].
    + destruct (s2 r); simpl; auto.
      rewrite <- (Qplus_0_l (sumQ (map f (filter s1 t)))).
      apply Qplus_le_compat; auto.
Qed.

(** The part of a zero total is zero. *)
Lemma part_of_zero (f : record -> Q) (s1 s2 : record -> bool) (df : list record) :
  (forall r, s1 r = true -> s2 r = true) ->
  Forall (fun r => 0 <= f r) df ->
  agg_sum f (filter s2 df) == 0 ->
  agg_sum f (filter s1 df) == 0.
Proof.
  intros Hs Hf Hz. apply Qle_antisym.
  - rewrite <- Hz. now apply agg_sum_sub.
  - apply agg_sum_nonneg. now apply PeriodSums.Forall_filter_sub.
Qed.

Lemma brand_row_of_zero (df : list record) (x : BrandShare.row) :
  Forall (fun r => 0 <= revenue r) df ->
  In x (BrandShare.brand_stats df) ->
  agg_sum revenue
    (BrandShare.stratum_records (BrandShare.r_period x) (BrandShare.r_platform x) df)
  == 0 ->
  BrandShare.r_revenue x == 0.
Proof.
  intros Hf Hx Hz. apply BrandShareFacts.brand_stats_In in Hx as [_ ->].
  eapply part_of_zero; [|exact Hf|exact Hz].
  intros r. unfold has_key. destruct (brand r) as [b|]; simpl; [|discriminate].
  rewrite !BrandSums.keqb_pair. intros H.
  apply andb_true_iff in H as [H _]. exact H.
Qed.

Lemma segment_row_of_zero (bins : list Q) (df : list record) (x : PriceSegments.row) :
  let sdf := map (fun r => (r, Segment.cut bins (price r))) df in
  Forall (fun r => 0 <= revenue r) df ->
  In x (PriceSegments.segment_stats sdf) ->
  agg_sum revenue
    (PriceSegments.stratum_records (PriceSegments.r_period x)
                                   (PriceSegments.r_platform x) sdf)
  == 0 ->
  PriceSegments.r_revenue x == 0.
Proof.
  intros sdf Hf Hx Hz.
  rewrite (SegmentShares.segment_row_revenue _ df x Hx).
  unfold sdf in Hz. rewrite SegmentShares.stratum_records_eq in Hz.
  eapply part_of_zero; [|exact Hf|exact Hz].
  intros r. unfold PriceSegments.in_row. intros H.
  apply andb_true_iff in H as [H _]. exact H.
Qed.

End ZeroTotal.




(** ** Period changes *)

Module PeriodChanges.
Import PeriodStats.

Lemma Sorted_map {A B} (R : B -> B -> Prop) (f : A -> B) (l : list A) :
  Sorted (fun a b => R (f a) (f b)) l -> Sorted R (map f l).
Proof.
  induction 1 as [|x t _ IH Hd]; simpl; constructor; auto.
  destruct Hd; simpl; constructor; auto.
Qed.

(** The three assigned columns, row by row. *)
Lemma zip_changes (prev : option row) (data : list row) :
  let start f := match prev with None => NaN | Some r => Fin (f r) end in
  let col f := map (fun d => (d * Fin 100)%fl)
                   (pct_from (start f) (map (fun r => Fin (f r)) data)) in
  map (fun x => match x with (r, d1, d2, d3) => mkFinal r d1 d2 d3 end)
      (zip3 data (col r_revenue) (col r_volume) (col r_price))
  = changes_after prev data.
Proof.
  revert prev. induction data as [|r t IH]; intros prev; simpl; auto.
  f_equal.
  - destruct prev; reflexivity.
  - apply (IH (Some r)).
Qed.

Lemma finite_column (f : row -> Q) (data : list row) :
  forallb (fun x => negb (is_nan x)) (map (fun r => Fin (f r)) data) = true.
Proof. induction data; simpl; auto. Qed.

Lemma with_changes_eq (fill_pad : bool) (data : list row) :
  with_changes fill_pad data = changes_after None data.
Proof.
  unfold with_changes, pct_change_100.
  rewrite !pct_change_no_nan by apply finite_column.
  apply (zip_changes None).
Qed.

Lemma changes_after_rows (prev : option row) (data : list row) :
  map f_row (changes_after prev data) = data.
Proof.
  revert prev. induction data as [|r t IH]; intros prev; simpl; auto.
  now rewrite IH.
Qed.

(** The first row of a key has no change. *)
Lemma changes_after_first (data : list row) (x : final_row) :
  nth_error (changes_after None data) 0 = Some x ->
  f_revenue_change x = NaN /\ f_volume_change x = NaN /\ f_price_change x = NaN.
Proof.
  destruct data as [|r t]; simpl; [discriminate|].
  intros [= <-]. auto.
Qed.

(** Every other row has the change against the row before. *)
Lemma changes_after_next (prev : option row) (data : list row) (i : nat)
    (x y : final_row) :
  nth_error (changes_after prev data) i = Some x ->
  nth_error (changes_after prev data) (S i) = Some y ->
  f_revenue_change y
  = change_of (Some (r_revenue (f_row x))) (r_revenue (f_row y))
  /\ f_volume_change y
     = change_of (Some (r_volume (f_row x))) (r_volume (f_row y))
  /\ f_price_change y
     = change_of (Some (r_price (f_row x))) (r_price (f_row y)).
Proof.
  revert prev i. induction data as [|r t IH]; intros prev i; simpl.
  - destruct i; discriminate.
  - destruct i as [|i]; simpl.
    + intros [= <-]. destruct t as [|r' t']; simpl; [discriminate|].
      intros [= <-]. auto.
    + apply IH.
Qed.

Lemma filter_all {A} (f : A -> bool) (l : list A) :
  (forall x, In x l -> f x = true) -> filter f l = l.
Proof.
  induction l as [|x t IH]; simpl; intros H; auto.
  rewrite (H x) by auto. now rewrite IH by auto.
Qed.

Lemma filter_none {A} (f : A -> bool) (l : list A) :
  (forall x, In x l -> f x = false) -> filter f l = [].
Proof.
  induction l as [|x t IH]; simpl; intros H; auto.
  rewrite (H x) by auto. now rewrite IH by auto.
Qed.

Lemma block_platform (fill_pad : bool) (all : list row) (plat : string)
    (x : final_row) :
  In x (with_changes fill_pad (platform_data all plat)) ->
  r_platform (f_row x) = plat.
Proof.
  intros Hx. apply (in_map f_row) in Hx.
  rewrite with_changes_eq, changes_after_rows in Hx.
  unfold platform_data in Hx. apply sort_by_In, filter_In in Hx as [_ Hx].
  now apply keqb_eq.
Qed.

Lemma blocks_of_platform (fill_pad : bool) (all : list row) (plat : string)
    (plats : list string) :
  NoDup plats -> In plat plats ->
  platform_rows plat
    (flat_map (fun pl => with_changes fill_pad (platform_data all pl)) plats)
  = with_changes fill_pad (platform_data all plat).
Proof.
  unfold platform_rows.
  induction 1 as [|pl t Hnin Hnd IH]; simpl; [tauto|].
  rewrite filter_app. intros [->|Hin].
  - rewrite filter_all, filter_none, app_nil_r; auto.
    + intros x Hx. apply in_flat_map in Hx as [pl [Hpl Hx]].
      apply block_platform in Hx. apply keqb_neq. congruence.
    + intros x Hx. apply block_platform in Hx. now apply keqb_eq.
  - rewrite filter_none, IH; auto.
    intros x Hx. apply block_platform in Hx. apply keqb_neq. congruence.
Qed.

(** The rows of one platform in the result: its rows of [all_stats] in the
    order of [sort_values], with their change columns. *)
Lemma platform_rows_eq (fill_pad : bool) (df : list record) (plat : string) :
  platform_rows plat (calculate_period_stats fill_pad df)
  = changes_after None (platform_data (all_stats df) plat).
Proof.
  unfold calculate_period_stats.
  destruct (in_dec string_dec plat (unique keqb (map r_platform (all_stats df))))
    as [Hin|Hnin].
  - rewrite blocks_of_platform;
      [apply with_changes_eq | apply unique_NoDup | exact Hin].
  - replace (platform_data (all_stats df) plat) with (@nil row).
    + apply filter_none. intros x Hx. apply in_flat_map in Hx as [pl [Hpl Hx]].
      apply block_platform in Hx. apply keqb_neq. congruence.
    + symmetry. unfold platform_data.
      rewrite filter_none; auto. intros r Hr. apply keqb_neq. intros E.
      apply Hnin, unique_In, in_map_iff. eauto.
Qed.

Lemma platform_data_sorted (all : list row) (plat : string) :
  Sorted (fun a b => kleb a b = true) (map r_period (platform_data all plat)).
Proof.
  apply Sorted_map. unfold platform_data. apply sort_by_sorted.
  intros a b. apply kleb_total.
Qed.

End PeriodChanges.

(** ** The period delta engine *)

(** C1, as the claim has it, fails: [calculate_period_stats] takes no order
    of the periods and sorts the rows of a key by the period label.  With the
    labels 时间段 9 and 时间段 10, supplied in that order, the label 时间段 10
    sorts first, and the delta is taken from 150 down to 100 instead of from
    100 up to 150. *)
Lemma label_order_counterexample :
  let df := [ mkRecord "lamp" "u1" 100 1 10 (Some "x") "A" "时间段 9";
              mkRecord "lamp" "u1" 150 1 10 (Some "x") "A" "时间段 10" ] in
  let rows := PeriodStats.platform_rows "A" (PeriodStats.calculate_period_stats true df) in
  let claimed := deltas_in_order ["时间段 9"; "时间段 10"]
                                 [("时间段 9", 100); ("时间段 10", 150)] in
  map (fun x => PeriodStats.r_period (PeriodStats.f_row x)) rows
  = ["时间段 10"; "时间段 9"]
  /\ Forall2 feq (map PeriodStats.f_revenue_change rows) [NaN; Fin (- (100 # 3))]
  /\ map (fun a => fst (fst a)) claimed = ["时间段 9"; "时间段 10"]
  /\ Forall2 feq (map snd claimed) [NaN; Fin 50]
  /\ map (fun x => PeriodStats.r_period (PeriodStats.f_row x)) rows
     <> map (fun a => fst (fst a)) claimed.
Proof.
  repeat split; try reflexivity.
  - vm_compute. repeat constructor.
  - vm_compute. repeat constructor.
  - discriminate.
Qed.

(** C1, amended: for every table and every key (platform, the rollup
    included), the rows of the key are in the order of their period labels as
    strings; the delta of the first row is undefined, and the delta of every
    other row is [(value[i] / value[i-1] - 1) * 100], the division being that
    of floating-point numbers, for the revenue, the volume and the mean
    price. *)
Theorem period_deltas_in_label_order (fill_pad : bool) (df : list record)
    (plat : string) :
  let rows := PeriodStats.platform_rows plat
                (PeriodStats.calculate_period_stats fill_pad df) in
  Sorted (fun a b => kleb a b = true)
         (map (fun x => PeriodStats.r_period (PeriodStats.f_row x)) rows)
  /\ (forall x, nth_error rows 0 = Some x ->
        PeriodStats.f_revenue_change x = NaN
        /\ PeriodStats.f_volume_change x = NaN
        /\ PeriodStats.f_price_change x = NaN)
  /\ (forall i x y,
        nth_error rows i = Some x -> nth_error rows (S i) = Some y ->
        PeriodStats.f_revenue_change y
        = (((Fin (PeriodStats.r_revenue (PeriodStats.f_row y))
             / Fin (PeriodStats.r_revenue (PeriodStats.f_row x))) - Fin 1)
           * Fin 100)%fl
        /\ PeriodStats.f_volume_change y
           = (((Fin (PeriodStats.r_volume (PeriodStats.f_row y))
                / Fin (PeriodStats.r_volume (PeriodStats.f_row x))) - Fin 1)
              * Fin 100)%fl
        /\ PeriodStats.f_price_change y
           = (((Fin (PeriodStats.r_price (PeriodStats.f_row y))
                / Fin (PeriodStats.r_price (PeriodStats.f_row x))) - Fin 1)
              * Fin 100)%fl).
Proof.
  intros rows. unfold rows. rewrite PeriodChanges.platform_rows_eq.
  split; [|split].
  - rewrite <- (map_map PeriodStats.f_row PeriodStats.r_period).
    rewrite PeriodChanges.changes_after_rows.
    apply PeriodChanges.platform_data_sorted.
  - apply PeriodChanges.changes_after_first.
  - intros i x y Hx Hy.
    apply (PeriodChanges.changes_after_next None _ i x y Hx Hy).
Qed.

(** The theorem on a key with the values 100, 150 and 90 in three periods
    whose labels are in string order: the deltas are undefined, 50 and -40. *)
Lemma period_deltas_in_label_order_witness :
  let df := [ mkRecord "lamp" "u1" 100 1 10 (Some "x") "A" "时间段 1";
              mkRecord "lamp" "u1" 150 1 10 (Some "x") "A" "时间段 2";
              mkRecord "lamp" "u1" 90 1 10 (Some "x") "A" "时间段 3" ] in
  let rows := PeriodStats.platform_rows "A" (PeriodStats.calculate_period_stats true df) in
  exists x y z,
    rows = [x; y; z]
    /\ PeriodStats.f_revenue_change x = NaN
    /\ PeriodStats.f_revenue_change y
       = (((Fin (PeriodStats.r_revenue (PeriodStats.f_row y))
            / Fin (PeriodStats.r_revenue (PeriodStats.f_row x))) - Fin 1) * Fin 100)%fl
    /\ feq (PeriodStats.f_revenue_change y) (Fin 50)
    /\ feq (PeriodStats.f_revenue_change z) (Fin (-40)).
Proof.
  intros df rows.
  destruct (period_deltas_in_label_order true df "A") as [_ [H0 Hn]].
  fold rows in H0, Hn.
  do 3 eexists. split; [reflexivity|].
  split; [apply (H0 _ eq_refl)|].
  split; [apply (Hn 0%nat _ _ eq_refl eq_refl)|].
  split; reflexivity.
Defined.

(** C5 at its failing input: one platform with the revenue 0 in the first
    period and 50 in the second.  The first delta is undefined, and the second
    is the infinity that the division by zero gives, not an undefined value;
    the [fillna(0)] of the report sink leaves it in place.  The change loop of
    the product comparison sheet, which computes the same change, writes
    nothing after a zero. *)
Lemma delta_after_zero_is_infinite :
  let df := [ mkRecord "lamp" "u1" 0 1 10 (Some "x") "A" "P1";
              mkRecord "lamp" "u1" 50 1 10 (Some "x") "A" "P2" ] in
  map PeriodStats.f_revenue_change
      (PeriodStats.platform_rows "A" (PeriodStats.calculate_period_stats true df))
  = [NaN; PInf]
  /\ map PeriodStats.f_revenue_change
         (PeriodStats.platform_rows "A" (PeriodStats.calculate_period_stats false df))
     = [NaN; PInf]
  /\ fillna0 PInf = PInf
  /\ (forall d prev_period period,
        fst (ProductComparison.add_change "零售额" "零售额变化"
               (d, Some (Fin 0, prev_period)) period) = d).
Proof.
  repeat split.
  intros d prev_period period. unfold ProductComparison.add_change. simpl.
  now destruct (Dict.get d _) as [[v|]|].
Qed.

(** ** The top-N selector *)

Module TopFacts.
Import Segment TopBrands.

Lemma by_revenue_desc_total (a b : share_row) :
  by_revenue_desc a b = false -> by_revenue_desc b a = true.
Proof.
  unfold by_revenue_desc. intros E. apply Qle_bool_iff.
  destruct (Qlt_le_dec (r_revenue (s_row a)) (r_revenue (s_row b))) as [Hlt|Hle].
  - now apply Qlt_le_weak.
  - apply Qle_bool_iff in Hle. congruence.
Qed.

Lemma by_revenue_desc_trans (a b c : share_row) :
  by_revenue_desc a b = true -> by_revenue_desc b c = true ->
  by_revenue_desc a c = true.
Proof.
  unfold by_revenue_desc. rewrite !Qle_bool_iff. intros H1 H2.
  now apply Qle_trans with (r_revenue (s_row b)).
Qed.

Lemma sort_falling (l : list share_row) : falling (sort_by by_revenue_desc l).
Proof.
  unfold falling.
  assert (Hs : StronglySorted (fun a b => by_revenue_desc a b = true)
                              (sort_by by_revenue_desc l)).
  { apply Sorted_StronglySorted.
    - intros a b c. apply by_revenue_desc_trans.
    - apply sort_by_sorted. apply by_revenue_desc_total. }
  induction Hs as [|x t _ IH Hx]; constructor; auto.
  eapply Forall_impl; [|exact Hx].
  intros y Hy. now apply Qle_bool_iff.
Qed.

Lemma falling_app (l1 l2 : list share_row) :
  falling (l1 ++ l2) ->
  falling l1
  /\ forall x y, In x l1 -> In y l2 -> r_revenue (s_row y) <= r_revenue (s_row x).
Proof.
  unfold falling. induction l1 as [|a t IH]; simpl; intros H.
  - split; [constructor | intros x y []].
  - inversion H as [|? ? Hs Hf]; subst. destruct (IH Hs) as [IH1 IH2]. split.
    + constructor; auto. rewrite Forall_forall in *.
      intros y Hy. apply Hf, in_or_app. auto.
    + intros x y [<-|Hx] Hy; auto.
      rewrite Forall_forall in Hf. apply Hf, in_or_app. auto.
Qed.

(** What the selector keeps of one stratum. *)
Lemma top_n_spec (n : nat) (c : list share_row) :
  length (top_n n c) = Nat.min n (length c)
  /\ falling (top_n n c)
  /\ exists rest,
       Permutation (top_n n c ++ rest) c
       /\ forall x y, In x (top_n n c) -> In y rest ->
                      r_revenue (s_row y) <= r_revenue (s_row x).
Proof.
  unfold top_n, head.
  assert (Hf := sort_falling c).
  rewrite <- (firstn_skipn n (sort_by by_revenue_desc c)) in Hf.
  apply falling_app in Hf as [Hf1 Hf2].
  split; [|split; auto].
  - now rewrite length_firstn, sort_by_length.
  - exists (skipn n (sort_by by_revenue_desc c)). split; auto.
    rewrite firstn_skipn. apply sort_by_perm.
Qed.

Lemma concat_nil {A} (ls : list (list A)) :
  concat ls = [] <-> forall l, In l ls -> l = [].
Proof.
  induction ls as [|l t IH]; simpl.
  - split; auto. intros _ l [].
  - split.
    + intros E. apply app_eq_nil in E as [-> E].
      intros l' [<-|Hin]; auto. now apply IH.
    + intros H. rewrite (H l) by auto. simpl. apply IH. auto.
Qed.

(** The four branches of the return statement give the same table. *)
Lemma get_top_brands_by_segment_eq (df : list record) (bins : list Q) (n : nat) :
  bins_valid bins = true ->
  let sdf := map (fun r => (r, cut bins (price r))) df in
  get_top_brands_by_segment df bins n
  = Some (concat (result_dfs n (platform_table sdf))
          ++ concat (all_platform_result_dfs n (rollup_table sdf)))%list.
Proof.
  intros Hv sdf. unfold get_top_brands_by_segment, with_segments.
  rewrite Hv. simpl. fold sdf.
  destruct (result_dfs n (platform_table sdf)) as [|d ds];
    destruct (all_platform_result_dfs n (rollup_table sdf)) as [|a al]; simpl;
    rewrite ?app_nil_r; try reflexivity.
  rewrite concat_app. simpl. now rewrite app_assoc.
Qed.

(** The frame of every stratum that has a candidate is among those appended. *)
Lemma stratum_appended (n : nat) (t : list share_row) (p plat : string) (seg : nat) :
  candidates t p plat seg <> [] ->
  In (top_n n (candidates t p plat seg)) (result_dfs n t).
Proof.
  intros Hc. destruct (candidates t p plat seg) as [|x c] eqn:E; [congruence|].
  assert (Hx : In x (candidates t p plat seg)) by (rewrite E; now left).
  rewrite <- E. unfold candidates in Hx. apply filter_In in Hx as [Hin Hx].
  apply andb_true_iff in Hx as [Hx Hs]. apply andb_true_iff in Hx as [Hp Hpl].
  apply keqb_eq in Hp, Hpl, Hs.
  unfold result_dfs. apply in_flat_map. exists p. split.
  - apply unique_In, in_map_iff. eauto.
  - apply in_flat_map. exists plat. split.
    + apply unique_In, in_map_iff. eauto.
    + apply in_map_iff. exists seg. split; auto.
      apply unique_In, in_map_iff. eauto.
Qed.

Lemma rollup_stratum_appended (n : nat) (t : list share_row) (p : string) (seg : nat) :
  all_platform_candidates t p seg <> [] ->
  In (top_n n (all_platform_candidates t p seg)) (all_platform_result_dfs n t).
Proof.
  intros Hc. destruct (all_platform_candidates t p seg) as [|x c] eqn:E; [congruence|].
  assert (Hx : In x (all_platform_candidates t p seg)) by (rewrite E; now left).
  rewrite <- E. unfold all_platform_candidates in Hx.
  apply filter_In in Hx as [Hin Hx].
  apply andb_true_iff in Hx as [Hp Hs]. apply keqb_eq in Hp, Hs.
  unfold all_platform_result_dfs. apply in_flat_map. exists p. split.
  - apply unique_In, in_map_iff. eauto.
  - apply in_map_iff. exists seg. split; auto.
    apply unique_In, in_map_iff. eauto.
Qed.

(** The notice stands for the table exactly when the table has no row. *)
Lemma top_brands_sheet_notice (out : list share_row) :
  (exists column text, top_brands_sheet out = Notice column text) <-> out = [].
Proof.
  unfold top_brands_sheet. destruct out as [|x t]; simpl.
  - split; auto. intros _. eauto.
  - split; [|discriminate]. intros [column [text E]]. discriminate.
Qed.

Lemma top_brands_sheet_table (out : list share_row) :
  out <> [] -> top_brands_sheet out = Table (map fill_row out).
Proof.
  unfold top_brands_sheet. destruct out; [congruence | reflexivity].
Qed.

End TopFacts.

Module TopStrata.
Import Segment TopBrands.

Lemma top_n_empty (n : nat) : top_n n [] = [].
Proof. unfold top_n, head. simpl. apply firstn_nil. Qed.

Lemma block_form (n : nat) (t : list share_row) (block : list share_row) :
  In block (result_dfs n t) ->
  exists p plat seg, block = top_n n (candidates t p plat seg).
Proof.
  unfold result_dfs. intros H.
  apply in_flat_map in H as [p [_ H]]. apply in_flat_map in H as [plat [_ H]].
  apply in_map_iff in H as [seg [<- _]]. eauto.
Qed.

Lemma rollup_block_form (n : nat) (t : list share_row) (block : list share_row) :
  In block (all_platform_result_dfs n t) ->
  exists p seg, block = top_n n (all_platform_candidates t p seg).
Proof.
  unfold all_platform_result_dfs. intros H.
  apply in_flat_map in H as [p [_ H]].
  apply in_map_iff in H as [seg [<- _]]. eauto.
Qed.

Lemma top_n_nil (n : nat) (c : list share_row) :
  (0 < n)%nat -> top_n n c = [] -> c = [].
Proof.
  intros Hn E. destruct (TopFacts.top_n_spec n c) as [Hl _].
  rewrite E in Hl. simpl in Hl. destruct c; auto. simpl in Hl. lia.
Qed.

(** With [n] at least 1 the result has no row exactly when no stratum has a
    candidate. *)
Lemma no_rows_iff (n : nat) (t r : list share_row) :
  (0 < n)%nat ->
  (concat (result_dfs n t) ++ concat (all_platform_result_dfs n r))%list = []
  <-> (forall p plat seg, candidates t p plat seg = [])
      /\ (forall p seg, all_platform_candidates r p seg = []).
Proof.
  intros Hn. split.
  - intros E. apply app_eq_nil in E as [E1 E2].
    rewrite TopFacts.concat_nil in E1, E2. split.
    + intros p plat seg.
      destruct (candidates t p plat seg) as [|x c] eqn:Ec; auto.
      apply (top_n_nil n); auto. rewrite <- Ec. apply E1.
      apply TopFacts.stratum_appended. rewrite Ec. discriminate.
    + intros p seg.
      destruct (all_platform_candidates r p seg) as [|x c] eqn:Ec; auto.
      apply (top_n_nil n); auto. rewrite <- Ec. apply E2.
      apply TopFacts.rollup_stratum_appended. rewrite Ec. discriminate.
  - intros [H1 H2].
    assert (E1 : concat (result_dfs n t) = []).
    { apply TopFacts.concat_nil. intros block Hb.
      apply block_form in Hb as [p [plat [seg ->]]].
      rewrite H1. apply top_n_empty. }
    assert (E2 : concat (all_platform_result_dfs n r) = []).
    { apply TopFacts.concat_nil. intros block Hb.
      apply rollup_block_form in Hb as [p [seg ->]].
      rewrite H2. apply top_n_empty. }
    now rewrite E1, E2.
Qed.

End TopStrata.

(** ** Frames of a table split by key *)

Section Blocks.
Context {A K : Type} `{KeyLaws K}.
Variable key : A -> K.
Variable f : K -> list A.
Hypothesis f_key : forall k x, In x (f k) -> key x = k.

(** Of frames that each hold the rows of one key, the rows of a key are the
    frame of the key. *)
Lemma filter_blocks (ks : list K) (k0 : K) :
  NoDup ks ->
  filter (fun x => keqb (key x) k0) (flat_map f ks)
  = if existsb (keqb k0) ks then f k0 else [].
Proof.
  induction 1 as [|k t Hnin Hnd IH]; simpl; auto.
  rewrite filter_app, IH. destruct (keqb k0 k) eqn:E; simpl.
  - apply keqb_eq in E. subst k.
    replace (existsb (keqb k0) t) with false.
    + rewrite app_nil_r. apply PeriodChanges.filter_all.
      intros x Hx. apply keqb_eq. now apply f_key.
    + symmetry. apply not_true_is_false. intros Hex.
      apply existsb_exists in Hex as [k [Hk E]]. apply keqb_eq in E. now subst.
  - rewrite PeriodChanges.filter_none; auto.
    intros x Hx. apply keqb_neq. apply keqb_neq in E.
    rewrite (f_key k x Hx). congruence.
Qed.

End Blocks.

Lemma NoDup_flat_map {A B} (f : A -> list B) (l : list A) :
  NoDup l ->
  (forall a, In a l -> NoDup (f a)) ->
  (forall a b x, In a l -> In b l -> In x (f a) -> In x (f b) -> a = b) ->
  NoDup (flat_map f l).
Proof.
  induction 1 as [|a t Hnin Hnd IH]; simpl; intros Hf Hdis; [constructor|].
  apply NoDup_app.
  - apply Hf. now left.
  - apply IH; auto. intros b c x Hb Hc. apply Hdis; now right.
  - intros x Hx Hx'. apply in_flat_map in Hx' as [b [Hb Hx']].
    apply Hnin. rewrite (Hdis a b x); simpl; auto.
Qed.

Lemma NoDup_map_inj {A B} (f : A -> B) (l : list A) :
  (forall a b, f a = f b -> a = b) -> NoDup l -> NoDup (map f l).
Proof.
  intros Hinj. induction 1 as [|a t Hnin Hnd IH]; simpl; constructor; auto.
  intros Hin. apply in_map_iff in Hin as [b [E Hb]].
  apply Hinj in E. now subst.
Qed.

Module TopTable.
Import Segment TopBrands.

Lemma strata_In (t : list share_row) (p plat : string) (seg : nat) :
  In (p, plat, seg) (strata t)
  <-> In p (periods_of t) /\ In plat (platforms_of t) /\ In seg (segments_of t).
Proof.
  unfold strata. rewrite in_flat_map. split.
  - intros [p' [Hp H]]. apply in_flat_map in H as [plat' [Hpl H]].
    apply in_map_iff in H as [seg' [[= -> -> ->] Hs]]. auto.
  - intros [Hp [Hpl Hs]]. exists p. split; auto.
    apply in_flat_map. exists plat. split; auto.
    apply in_map_iff. exists seg. auto.
Qed.

Lemma strata_NoDup (t : list share_row) : NoDup (strata t).
Proof.
  unfold strata. apply NoDup_flat_map.
  - apply unique_NoDup.
  - intros p _. apply NoDup_flat_map.
    + apply unique_NoDup.
    + intros plat _. apply NoDup_map_inj; [|apply unique_NoDup].
      intros a b [= ->]. reflexivity.
    + intros a b x _ _ Ha Hb.
      apply in_map_iff in Ha as [sa [<- _]].
      apply in_map_iff in Hb as [sb [[= -> _] _]]. reflexivity.
  - intros a b x _ _ Ha Hb.
    apply in_flat_map in Ha as [pa [_ Ha]]. apply in_map_iff in Ha as [sa [<- _]].
    apply in_flat_map in Hb as [pb [_ Hb]].
    apply in_map_iff in Hb as [sb [[= -> _ _] _]]. reflexivity.
Qed.

Lemma rollup_strata_In (t : list share_row) (p : string) (seg : nat) :
  In (p, seg) (rollup_strata t) <-> In p (periods_of t) /\ In seg (segments_of t).
Proof.
  unfold rollup_strata. rewrite in_flat_map. split.
  - intros [p' [Hp H]]. apply in_map_iff in H as [seg' [[= -> ->] Hs]]. auto.
  - intros [Hp Hs]. exists p. split; auto. apply in_map_iff. exists seg. auto.
Qed.

Lemma rollup_strata_NoDup (t : list share_row) : NoDup (rollup_strata t).
Proof.
  unfold rollup_strata. apply NoDup_flat_map.
  - apply unique_NoDup.
  - intros p _. apply NoDup_map_inj; [|apply unique_NoDup].
    intros a b [= ->]. reflexivity.
  - intros a b x _ _ Ha Hb.
    apply in_map_iff in Ha as [sa [<- _]].
    apply in_map_iff in Hb as [sb [[= -> _] _]]. reflexivity.
Qed.

Lemma map_over_flat_map {A B C} (g : B -> C) (h : A -> list B) (l : list A) :
  map g (flat_map h l) = flat_map (fun a => map g (h a)) l.
Proof.
  induction l as [|a t IH]; simpl; auto. now rewrite map_app, IH.
Qed.

(** The frames of the loops, stratum by stratum. *)
Lemma result_dfs_strata (n : nat) (t : list share_row) :
  concat (result_dfs n t)
  = flat_map (fun k => top_n n (candidates t (fst (fst k)) (snd (fst k)) (snd k)))
             (strata t).
Proof.
  rewrite flat_map_concat_map. f_equal.
  unfold result_dfs, strata. rewrite map_over_flat_map.
  apply flat_map_ext. intros p. rewrite map_over_flat_map.
  apply flat_map_ext. intros plat. now rewrite map_map.
Qed.

Lemma rollup_result_dfs_strata (n : nat) (t : list share_row) :
  concat (all_platform_result_dfs n t)
  = flat_map (fun k => top_n n (all_platform_candidates t (fst k) (snd k)))
             (rollup_strata t).
Proof.
  rewrite flat_map_concat_map. f_equal.
  unfold all_platform_result_dfs, rollup_strata. rewrite map_over_flat_map.
  apply flat_map_ext. intros p. now rewrite map_map.
Qed.

Lemma candidates_key (t : list share_row) (p plat : string) (seg : nat) :
  candidates t p plat seg = filter (fun x => keqb (stratum_key x) (p, plat, seg)) t.
Proof.
  unfold candidates. apply filter_ext. intros x. unfold stratum_key.
  now rewrite !BrandSums.keqb_pair.
Qed.

Lemma rollup_candidates_key (t : list share_row) (p : string) (seg : nat) :
  all_platform_candidates t p seg
  = filter (fun x => keqb (rollup_stratum_key x) (p, seg)) t.
Proof.
  unfold all_platform_candidates. apply filter_ext. intros x.
  unfold rollup_stratum_key. now rewrite BrandSums.keqb_pair.
Qed.

Lemma top_n_sub (n : nat) (c : list share_row) (x : share_row) :
  In x (top_n n c) -> In x c.
Proof.
  unfold top_n, head. intros Hx.
  apply (sort_by_In by_revenue_desc).
  rewrite <- (firstn_skipn n (sort_by by_revenue_desc c)).
  apply in_or_app. now left.
Qed.

(** The rows of a stratum in the result are the rows kept of the stratum. *)
Lemma stratum_of_result (n : nat) (t : list share_row) (p plat : string) (seg : nat) :
  candidates (concat (result_dfs n t)) p plat seg
  = top_n n (candidates t p plat seg).
Proof.
  rewrite (candidates_key (concat _)), result_dfs_strata.
  rewrite (filter_blocks stratum_key
             (fun k => top_n n (candidates t (fst (fst k)) (snd (fst k)) (snd k)))).
  - simpl. destruct (existsb (keqb (p, plat, seg)) (strata t)) eqn:E; auto.
    destruct (candidates t p plat seg) as [|x c] eqn:Ec;
      [symmetry; apply TopStrata.top_n_empty|].
    exfalso. assert (Hx : In x (candidates t p plat seg)) by (rewrite Ec; now left).
    unfold candidates in Hx. apply filter_In in Hx as [Hin Hx].
    rewrite !andb_true_iff, !keqb_eq in Hx. destruct Hx as [[Hp Hpl] Hs].
    assert (Hk : In (p, plat, seg) (strata t)).
    { apply strata_In. subst. repeat split; apply unique_In, in_map_iff; eauto. }
    assert (Ht : existsb (keqb (p, plat, seg)) (strata t) = true).
    { apply existsb_exists. exists (p, plat, seg). split; auto. apply keqb_refl. }
    congruence.
  - intros [[p' plat'] seg'] x Hx. simpl in Hx. apply top_n_sub in Hx.
    unfold candidates in Hx. apply filter_In in Hx as [_ Hx].
    rewrite !andb_true_iff, !keqb_eq in Hx. destruct Hx as [[Hp Hpl] Hs].
    unfold stratum_key. congruence.
  - apply strata_NoDup.
Qed.

Lemma rollup_stratum_of_result (n : nat) (t : list share_row) (p : string)
    (seg : nat) :
  all_platform_candidates (concat (all_platform_result_dfs n t)) p seg
  = top_n n (all_platform_candidates t p seg).
Proof.
  rewrite (rollup_candidates_key (concat _)), rollup_result_dfs_strata.
  rewrite (filter_blocks rollup_stratum_key
             (fun k => top_n n (all_platform_candidates t (fst k) (snd k)))).
  - simpl. destruct (existsb (keqb (p, seg)) (rollup_strata t)) eqn:E; auto.
    destruct (all_platform_candidates t p seg) as [|x c] eqn:Ec;
      [symmetry; apply TopStrata.top_n_empty|].
    exfalso.
    assert (Hx : In x (all_platform_candidates t p seg)) by (rewrite Ec; now left).
    unfold all_platform_candidates in Hx. apply filter_In in Hx as [Hin Hx].
    rewrite !andb_true_iff, !keqb_eq in Hx. destruct Hx as [Hp Hs].
    assert (Hk : In (p, seg) (rollup_strata t)).
    { apply rollup_strata_In. subst. split; apply unique_In, in_map_iff; eauto. }
    assert (Ht : existsb (keqb (p, seg)) (rollup_strata t) = true).
    { apply existsb_exists. exists (p, seg). split; auto. apply keqb_refl. }
    congruence.
  - intros [p' seg'] x Hx. simpl in Hx. apply top_n_sub in Hx.
    unfold all_platform_candidates in Hx. apply filter_In in Hx as [_ Hx].
    rewrite !andb_true_iff, !keqb_eq in Hx. destruct Hx as [Hp Hs].
    unfold rollup_stratum_key. congruence.
  - apply rollup_strata_NoDup.
Qed.

End TopTable.

(** C8: on valid boundaries the selector returns, for every (period,
    platform, segment) stratum and for every (period, segment) stratum of the
    rollup, a frame of [min(N, c)] rows, [c] being the number of rows of the
    stratum, in the order of falling revenue; the rows left out have no more
    revenue than any row kept.  The result is made of these frames: its rows
    of a stratum are the frame of the stratum.  A stratum without rows gives
    an empty frame.  For [N] at least 1 the sheet of the result is the notice
    exactly when no stratum has a row, and the table otherwise. *)
Theorem top_n_per_stratum (df : list record) (bins : list Q) (n : nat) :
  Segment.bins_valid bins = true ->
  let sdf := map (fun r => (r, Segment.cut bins (price r))) df in
  let t := TopBrands.platform_table sdf in
  let r := TopBrands.rollup_table sdf in
  let kept c :=
    length (TopBrands.top_n n c) = Nat.min n (length c)
    /\ TopBrands.falling (TopBrands.top_n n c)
    /\ (exists rest,
          Permutation (TopBrands.top_n n c ++ rest) c
          /\ forall x y, In x (TopBrands.top_n n c) -> In y rest ->
               TopBrands.r_revenue (TopBrands.s_row y)
               <= TopBrands.r_revenue (TopBrands.s_row x))
    /\ (c = [] -> TopBrands.top_n n c = []) in
  exists out,
    TopBrands.get_top_brands_by_segment df bins n = Some out
    /\ out = (concat (TopBrands.result_dfs n t)
              ++ concat (TopBrands.all_platform_result_dfs n r))%list
    /\ (forall p plat seg,
          kept (TopBrands.candidates t p plat seg)
          /\ TopBrands.candidates (concat (TopBrands.result_dfs n t)) p plat seg
             = TopBrands.top_n n (TopBrands.candidates t p plat seg)
          /\ (TopBrands.candidates t p plat seg <> [] ->
              In (TopBrands.top_n n (TopBrands.candidates t p plat seg))
                 (TopBrands.result_dfs n t)))
    /\ (forall p seg,
          kept (TopBrands.all_platform_candidates r p seg)
          /\ TopBrands.all_platform_candidates
               (concat (TopBrands.all_platform_result_dfs n r)) p seg
             = TopBrands.top_n n (TopBrands.all_platform_candidates r p seg)
          /\ (TopBrands.all_platform_candidates r p seg <> [] ->
              In (TopBrands.top_n n (TopBrands.all_platform_candidates r p seg))
                 (TopBrands.all_platform_result_dfs n r)))
    /\ (forall block, In block (TopBrands.result_dfs n t) ->
          exists p plat seg,
            block = TopBrands.top_n n (TopBrands.candidates t p plat seg))
    /\ (forall block, In block (TopBrands.all_platform_result_dfs n r) ->
          exists p seg,
            block = TopBrands.top_n n (TopBrands.all_platform_candidates r p seg))
    /\ ((0 < n)%nat ->
        ((exists column text, TopBrands.top_brands_sheet out
                              = TopBrands.Notice column text)
         <-> (forall p plat seg, TopBrands.candidates t p plat seg = [])
             /\ (forall p seg, TopBrands.all_platform_candidates r p seg = []))
        /\ (out <> [] ->
            TopBrands.top_brands_sheet out
            = TopBrands.Table (map TopBrands.fill_row out))).
Proof.
  intros Hv sdf t r kept.
  assert (Hkept : forall c, kept c).
  { intros c. unfold kept.
    destruct (TopFacts.top_n_spec n c) as [H1 [H2 H3]].
    repeat split; auto. intros ->. apply TopStrata.top_n_empty. }
  eexists. split; [now apply TopFacts.get_top_brands_by_segment_eq|].
  split; [reflexivity|].
  split; [intros p plat seg; split;
          [apply Hkept
          | split; [apply TopTable.stratum_of_result
                   | apply TopFacts.stratum_appended]]|].
  split; [intros p seg; split;
          [apply Hkept
          | split; [apply TopTable.rollup_stratum_of_result
                   | apply TopFacts.rollup_stratum_appended]]|].
  split; [apply TopStrata.block_form|].
  split; [apply TopStrata.rollup_block_form|].
  intros Hn. split.
  - rewrite TopFacts.top_brands_sheet_notice. now apply TopStrata.no_rows_iff.
  - apply TopFacts.top_brands_sheet_table.
Qed.

(** The theorem with [N = 5] on a stratum of twelve brands and a stratum of
    three: five rows and three rows are kept. *)
Lemma top_n_per_stratum_witness :
  let sdf := map (fun r => (r, Segment.cut [0; 100; 300] (price r))) sample_brands in
  let t := TopBrands.platform_table sdf in
  Segment.bins_valid [0; 100; 300] = true
  /\ (0 < 5)%nat
  /\ length (TopBrands.candidates t "P1" "A" 0) = 12%nat
  /\ length (TopBrands.top_n 5 (TopBrands.candidates t "P1" "A" 0)) = 5%nat
  /\ length (TopBrands.candidates t "P1" "B" 0) = 3%nat
  /\ length (TopBrands.top_n 5 (TopBrands.candidates t "P1" "B" 0)) = 3%nat
  /\ exists out,
       TopBrands.get_top_brands_by_segment sample_brands [0; 100; 300] 5 = Some out
       /\ TopBrands.top_brands_sheet out = TopBrands.Table (map TopBrands.fill_row out).
Proof.
  intros sdf t.
  destruct (top_n_per_stratum sample_brands [0; 100; 300] 5 eq_refl)
    as [out [Hout [Heq [Hs [_ [_ [_ Hsheet]]]]]]].
  split; [reflexivity|]. split; [lia|].
  split; [reflexivity|].
  split; [unfold t, sdf; rewrite (proj1 (proj1 (Hs "P1" "A" 0%nat))); reflexivity|].
  split; [reflexivity|].
  split; [unfold t, sdf; rewrite (proj1 (proj1 (Hs "P1" "B" 0%nat))); reflexivity|].
  exists out. split; [exact Hout|].
  apply (proj2 (Hsheet ltac:(lia))). rewrite Heq. vm_compute. discriminate.
Defined.

(** The five rows kept of the twelve, in the order of falling revenue. *)
Example top_five_of_twelve :
  let sdf := map (fun r => (r, Segment.cut [0; 100; 300] (price r))) sample_brands in
  map (fun x => TopBrands.r_brand (TopBrands.s_row x))
      (TopBrands.top_n 5 (TopBrands.candidates (TopBrands.platform_table sdf) "P1" "A" 0))
  = ["b02"; "b11"; "b10"; "b09"; "b08"].
Proof. reflexivity. Qed.

(** ** The share functions of the top-N selector *)

(** C10: the four share functions return a value on every row.  The value
    is 0 whenever the lookup of the stratum total fails, that is when the key
    of the row is not in the index of the totals or the segment of the row is
    missing: the exception of the lookup is caught by the [except] clause.
    When the lookup succeeds the value is the share of the row in the total
    found. *)
Theorem share_functions_total
    (tot : list (string * string * nat * (Q * Q)))
    (rollup_tot : list (string * nat * (Q * Q)))
    (x : TopBrands.cells) :
  (match TopBrands.c_segment x with
   | Some s => loc tot (TopBrands.c_period x, TopBrands.c_platform x, s) = None
   | None => True
   end ->
   TopBrands.calculate_share tot x = Fin 0
   /\ TopBrands.calculate_volume_share tot x = Fin 0)
  /\ (match TopBrands.c_segment x with
      | Some s => loc rollup_tot (TopBrands.c_period x, s) = None
      | None => True
      end ->
      TopBrands.calculate_all_platform_share rollup_tot x = Fin 0
      /\ TopBrands.calculate_all_platform_volume_share rollup_tot x = Fin 0)
  /\ (forall s t,
        TopBrands.c_segment x = Some s ->
        loc tot (TopBrands.c_period x, TopBrands.c_platform x, s) = Some t ->
        TopBrands.calculate_share tot x
        = BrandShare.share (TopBrands.c_revenue x) (fst t)
        /\ TopBrands.calculate_volume_share tot x
           = BrandShare.share (TopBrands.c_volume x) (snd t))
  /\ (forall s t,
        TopBrands.c_segment x = Some s ->
        loc rollup_tot (TopBrands.c_period x, s) = Some t ->
        TopBrands.calculate_all_platform_share rollup_tot x
        = BrandShare.share (TopBrands.c_revenue x) (fst t)
        /\ TopBrands.calculate_all_platform_volume_share rollup_tot x
           = BrandShare.share (TopBrands.c_volume x) (snd t)).
Proof.
  split; [|split; [|split]].
  - unfold TopBrands.calculate_share, TopBrands.calculate_volume_share.
    destruct (TopBrands.c_segment x) as [s|]; [|auto].
    intros ->. auto.
  - unfold TopBrands.calculate_all_platform_share,
      TopBrands.calculate_all_platform_volume_share.
    destruct (TopBrands.c_segment x) as [s|]; [|auto].
    intros ->. auto.
  - intros s t Hs Ht.
    unfold TopBrands.calculate_share, TopBrands.calculate_volume_share.
    rewrite Hs, Ht. auto.
  - intros s t Hs Ht.
    unfold TopBrands.calculate_all_platform_share,
      TopBrands.calculate_all_platform_volume_share.
    rewrite Hs, Ht. auto.
Qed.

(** The theorem on a row whose stratum is not in the index, and on a row
    without a segment. *)
Lemma share_functions_total_witness :
  let tot := [("P1", "A", 0%nat, (100, 10))] in
  let rollup_tot := [("P1", 0%nat, (100, 10))] in
  let missing_key := TopBrands.mkCells "P2" "A" (Some 0%nat) 40 4 in
  let missing_segment := TopBrands.mkCells "P1" "A" None 40 4 in
  loc tot ("P2", "A", 0%nat) = None
  /\ loc rollup_tot ("P2", 0%nat) = None
  /\ TopBrands.calculate_share tot missing_key = Fin 0
  /\ TopBrands.calculate_all_platform_volume_share rollup_tot missing_key = Fin 0
  /\ TopBrands.calculate_volume_share tot missing_segment = Fin 0
  /\ TopBrands.calculate_all_platform_share rollup_tot missing_segment = Fin 0.
Proof.
  intros tot rollup_tot missing_key missing_segment.
  destruct (share_functions_total tot rollup_tot missing_key) as [H1 [H2 _]].
  destruct (share_functions_total tot rollup_tot missing_segment) as [H3 [H4 _]].
  split; [reflexivity|]. split; [reflexivity|].
  split; [exact (proj1 (H1 eq_refl))|].
  split; [exact (proj2 (H2 eq_refl))|].
  split; [exact (proj2 (H3 I))|exact (proj1 (H4 I))].
Defined.

(** ** The comparison sheets *)

Lemma filter_filter {A} (f g : A -> bool) (l : list A) :
  filter f (filter g l) = filter (fun x => g x && f x) l.
Proof.
  induction l as [|x t IH]; simpl; auto.
  destruct (g x); simpl; [destruct (f x)|]; now rewrite IH.
Qed.

Lemma unique_NoDup_id {K} `{KeyLaws K} (l : list K) : NoDup l -> unique keqb l = l.
Proof.
  induction 1 as [|x t Hnin _ IH]; simpl; auto.
  rewrite IH. f_equal. apply PeriodChanges.filter_all.
  intros y Hy. apply negb_true_iff, keqb_neq. congruence.
Qed.

Lemma unique_length_incl {K} `{KeyLaws K} (l1 l2 : list K) :
  incl l1 l2 -> (length (unique keqb l1) <= length (unique keqb l2))%nat.
Proof.
  intros Hi. apply NoDup_incl_length; [apply unique_NoDup|].
  intros x Hx. apply (proj2 (unique_In x l2)), Hi.
  exact (proj1 (unique_In x l1) Hx).
Qed.

Module BrandSheet.
Import BrandShare BrandComparison.

(** The lines of the sheet: the brands with more than one row on their
    platform. *)
Lemma brand_line_In (t : list share_row) (w : wide_row) :
  In w (comparison_data t) ->
  (1 < length (entity_rows t (w_platform w) (w_brand w)))%nat.
Proof.
  unfold comparison_data. intros H.
  apply in_flat_map in H as [platform [_ H]].
  apply in_flat_map in H as [brand [_ H]].
  rewrite filter_filter in H.
  match type of H with In _ (if ?c then _ else _) => destruct c eqn:E end;
    [|destruct H].
  destruct H as [<-|[]]. simpl. apply Nat.ltb_lt in E. exact E.
Qed.

Lemma brand_line_has (t : list share_row) (platform brand : string) :
  (1 < length (entity_rows t platform brand))%nat ->
  exists w, In w (comparison_data t) /\ w_platform w = platform /\ w_brand w = brand.
Proof.
  intros Hl.
  destruct (entity_rows t platform brand) as [|x rest] eqn:E; [simpl in Hl; lia|].
  assert (Hx : In x (entity_rows t platform brand)) by (rewrite E; now left).
  unfold entity_rows in Hx. apply filter_In in Hx as [Hin Hx].
  apply andb_true_iff in Hx as [Hp Hb]. apply keqb_eq in Hp, Hb.
  set (pd := filter (fun y => keqb (r_platform (s_row y)) platform) t).
  exists (brand_row platform brand
            (unique keqb (map (fun y => r_period (s_row y)) pd))
            (filter (fun y => keqb (r_brand (s_row y)) brand) pd)).
  split; [|split; reflexivity].
  unfold comparison_data. apply in_flat_map. exists platform. split.
  - apply unique_In, in_map_iff. eauto.
  - apply in_flat_map. exists brand. split.
    + apply unique_In, in_map_iff. exists x. split; auto.
      apply filter_In. split; auto. now apply keqb_eq.
    + unfold pd. rewrite filter_filter. fold (entity_rows t platform brand).
      rewrite E, (proj2 (Nat.ltb_lt _ _) Hl). left. reflexivity.
Qed.

(** In a table with one row per (period, platform, brand) the rows of a
    brand on a platform are in different periods. *)
Lemma entity_periods_NoDup (t : list share_row) (platform brand : string) :
  NoDup (map table_key t) ->
  NoDup (map (fun x => r_period (s_row x)) (entity_rows t platform brand)).
Proof.
  unfold entity_rows. induction t as [|x t IH]; simpl; intros Hnd; [constructor|].
  inversion Hnd as [|? ? Hnin Hnd']; subst.
  destruct (keqb (r_platform (s_row x)) platform && keqb (r_brand (s_row x)) brand)
    eqn:E; simpl; auto.
  constructor; auto. intros Hin. apply Hnin.
  apply in_map_iff in Hin as [y [Hp Hy]]. apply filter_In in Hy as [Hy Hf].
  apply in_map_iff. exists y. split; auto.
  apply andb_true_iff in E as [E1 E2]. apply andb_true_iff in Hf as [F1 F2].
  apply keqb_eq in E1, E2, F1, F2. unfold table_key. congruence.
Qed.

Lemma entity_rows_periods (t : list share_row) (platform brand : string) :
  NoDup (map table_key t) ->
  length (entity_rows t platform brand) = length (entity_periods t platform brand).
Proof.
  intros Hnd. unfold entity_periods.
  rewrite unique_NoDup_id by now apply entity_periods_NoDup.
  now rewrite length_map.
Qed.

(** The brands of the sheet are those in more than one period. *)
Lemma brand_sheet_iff (t : list share_row) (platform brand : string) :
  NoDup (map table_key t) ->
  in_sheet (create_brand_comparison_sheet t) platform brand
  <-> (1 < length (entity_periods t platform brand))%nat.
Proof.
  intros Hnd. rewrite <- entity_rows_periods by auto.
  unfold in_sheet, create_brand_comparison_sheet. split.
  - intros [rows [w [Hs [Hw [<- <-]]]]].
    destruct (empty t || _); [discriminate|].
    destruct (negb (empty (comparison_data t))); [|discriminate].
    injection Hs as <-. now apply brand_line_In.
  - intros Hl.
    destruct (brand_line_has t platform brand Hl) as [w [Hw [Hp Hb]]].
    assert (Hperiods : (1 < length (unique keqb (map (fun x => r_period (s_row x)) t)))%nat).
    { rewrite (entity_rows_periods t platform brand Hnd) in Hl.
      eapply Nat.lt_le_trans; [exact Hl|]. apply unique_length_incl.
      intros p Hp'. apply in_map_iff in Hp' as [x [<- Hx]].
      apply (in_map (fun y => r_period (s_row y))).
      unfold entity_rows in Hx. now apply filter_In in Hx. }
    replace (empty t) with false
      by (destruct t; [simpl in Hperiods; lia | reflexivity]).
    rewrite (proj2 (Nat.leb_gt _ _) Hperiods). simpl.
    destruct (comparison_data t) as [|w0 ws] eqn:E; [destruct Hw|]. simpl.
    exists (w0 :: ws), w. auto.
Qed.

End BrandSheet.

Module ProductSheet.
Import ProductComparison.

Lemma set_add_In (s : list string) (p q : string) :
  In q (set_add s p) <-> In q s \/ q = p.
Proof.
  unfold set_add. destruct (existsb (String.eqb p) s) eqn:E.
  - split; auto. intros [H| ->]; auto.
    apply existsb_exists in E as [y [Hy E]]. apply String.eqb_eq in E. now subst.
  - rewrite in_app_iff. simpl. intuition.
Qed.

Lemma set_add_NoDup (s : list string) (p : string) :
  NoDup s -> NoDup (set_add s p).
Proof.
  intros Hs. unfold set_add. destruct (existsb (String.eqb p) s) eqn:E; auto.
  apply NoDup_app; [exact Hs | constructor; [intros [] | constructor] |].
  intros x Hx [Hp|[]]. subst x.
  assert (Ht : existsb (String.eqb p) s = true).
  { apply existsb_exists. exists p. split; auto. apply String.eqb_refl. }
  congruence.
Qed.

(** Reading the dict after one [add]. *)
Lemma count_get_add (d : counts) (k k' : string * string * string) (p : string) :
  count_get (count_add d k p) k'
  = if keqb k' k then set_add (count_get d k) p else count_get d k'.
Proof.
  induction d as [|[k0 s] t IH]; simpl.
  - destruct (keqb k' k); reflexivity.
  - destruct (keqb k k0) eqn:E; simpl.
    + apply keqb_eq in E. subst k0.
      destruct (keqb k' k); reflexivity.
    + rewrite IH. destruct (keqb k' k0) eqn:E0.
      * apply keqb_eq in E0. subst k0. rewrite (keqb_sym k' k), E. reflexivity.
      * reflexivity.
Qed.

Lemma count_all_spec (kps : list (string * string * string * string)) (d : counts)
    (k : string * string * string) :
  (NoDup (count_get d k) -> NoDup (count_get (count_all kps d) k))
  /\ (forall p, In p (count_get (count_all kps d) k)
                <-> In p (count_get d k) \/ In (k, p) kps).
Proof.
  unfold count_all. revert d. induction kps as [|[k0 p0] t IH]; intros d; simpl.
  - split; auto. intros p. tauto.
  - destruct (IH (count_add d k0 p0)) as [IH1 IH2]. split.
    + intros Hnd. apply IH1. rewrite count_get_add.
      destruct (keqb k k0) eqn:E; auto.
      apply keqb_eq in E. subst k0. now apply set_add_NoDup.
    + intros p. rewrite IH2, count_get_add.
      destruct (keqb k k0) eqn:E.
      * apply keqb_eq in E. subst k0. rewrite set_add_In.
        split; [intros [[H|H]|H] | intros [H|[H|H]]]; auto.
        -- subst. auto.
        -- injection H as <-. auto.
      * apply keqb_neq in E.
        split; [intros [H|H] | intros [H|[H|H]]]; auto. congruence.
Qed.

Lemma fold_left_flat_map {A B C} (f : A -> C -> A) (h : A -> B -> A)
    (g : B -> list C) (l : list B) (d : A) :
  (forall a b, h a b = fold_left f (g b) a) ->
  fold_left h l d = fold_left f (flat_map g l) d.
Proof.
  intros Hh. revert d. induction l as [|b t IH]; intros d; simpl; auto.
  now rewrite fold_left_app, <- Hh, IH.
Qed.

Lemma fold_left_map_pairs {A B C} (f : A -> C -> A) (g : B -> C) (l : list B) (d : A) :
  fold_left (fun a b => f a (g b)) l d = fold_left f (map g l) d.
Proof.
  revert d. induction l as [|b t IH]; intros d; simpl; auto.
Qed.

(** The counting loops add every visited pair to the dict. *)
Lemma product_period_count_eq (t : list row) :
  product_period_count t = count_all (visited t) [].
Proof.
  unfold product_period_count, count_all, visited.
  apply fold_left_flat_map. intros d platform.
  apply fold_left_flat_map. intros d' segment.
  apply (fold_left_map_pairs
           (fun d kp => count_add d (fst kp) (snd kp))
           (fun x => ((platform, segment, r_name x), r_period x))).
Qed.

(** The loops visit every row of the table. *)
Lemma visited_In (t : list row) (k : string * string * string) (p : string) :
  In (k, p) (visited t) <->
  exists x, In x t /\ (r_platform x, r_segment x, r_name x) = k /\ r_period x = p.
Proof.
  unfold visited. split.
  - intros H. apply in_flat_map in H as [platform [_ H]].
    apply in_flat_map in H as [segment [_ H]].
    apply in_map_iff in H as [x [[= <- <-] Hx]].
    unfold segment_data, platform_data in Hx.
    apply filter_In in Hx as [Hx Hs]. apply filter_In in Hx as [Hx Hp].
    apply keqb_eq in Hs, Hp. exists x. subst. auto.
  - intros [x [Hx [<- <-]]].
    assert (Hpd : In x (platform_data t (r_platform x)))
      by (apply filter_In; split; auto; apply keqb_refl).
    apply in_flat_map. exists (r_platform x). split.
    + apply unique_In, in_map_iff. eauto.
    + apply in_flat_map. exists (r_segment x). split.
      * apply unique_In, in_map_iff. eauto.
      * apply in_map_iff. exists x. split; auto.
        apply filter_In. split; auto. apply keqb_refl.
Qed.

(** The count of a product is the number of periods it is in. *)
Lemma count_is_periods (t : list row) (platform segment product_name : string) :
  length (count_get (product_period_count t) (platform, segment, product_name))
  = length (entity_periods t platform segment product_name).
Proof.
  rewrite product_period_count_eq.
  destruct (count_all_spec (visited t) [] (platform, segment, product_name))
    as [Hnd Hin].
  apply Permutation_length, NoDup_Permutation.
  - apply Hnd. constructor.
  - apply unique_NoDup.
  - intros p. rewrite Hin, visited_In. unfold entity_periods, entity_rows.
    rewrite (unique_In p), in_map_iff. simpl. split.
    + intros [[]|[x [Hx [[= Hp Hs Hn] Hper]]]].
      exists x. split; auto. apply filter_In. split; auto.
      rewrite !andb_true_iff, !keqb_eq. auto.
    + intros [x [Hper Hx]]. right. apply filter_In in Hx as [Hx Hf].
      rewrite !andb_true_iff, !keqb_eq in Hf. destruct Hf as [[Hp Hs] Hn].
      exists x. subst. auto.
Qed.

End ProductSheet.

Module ProductLines.
Import ProductComparison.

(** The lines of the sheet: the products counted in more than one period. *)
Lemma product_line_In (t : list row) (w : wide_row) :
  In w (comparison_data t) ->
  (1 < length (entity_periods t (w_platform w) (w_segment w) (w_name w)))%nat.
Proof.
  unfold comparison_data. intros H.
  apply in_flat_map in H as [platform [_ H]].
  apply in_flat_map in H as [segment [_ H]].
  apply in_flat_map in H as [[product_name count] [Hs H]].
  apply sort_by_In, in_map_iff in Hs as [nm [[= -> <-] _]].
  simpl in H.
  match type of H with In _ (if ?c then _ else _) => destruct c eqn:E end;
    [|destruct H].
  destruct H as [<-|[]]. simpl.
  apply Nat.ltb_lt in E. now rewrite ProductSheet.count_is_periods in E.
Qed.

Lemma product_line_has (t : list row) (platform segment product_name : string) :
  (1 < length (entity_periods t platform segment product_name))%nat ->
  exists w, In w (comparison_data t)
            /\ w_platform w = platform /\ w_segment w = segment
            /\ w_name w = product_name.
Proof.
  intros Hl.
  assert (Hx : exists x, In x (entity_rows t platform segment product_name)).
  { unfold entity_periods in Hl.
    destruct (entity_rows t platform segment product_name) as [|x rest];
      [simpl in Hl; lia|]. exists x. now left. }
  destruct Hx as [x Hx]. unfold entity_rows in Hx.
  apply filter_In in Hx as [Hin Hx].
  rewrite !andb_true_iff, !keqb_eq in Hx. destruct Hx as [[Hp Hs] Hn].
  set (pdata := platform_data t platform).
  set (sdata := segment_data pdata segment).
  assert (Hpd : In x pdata) by (apply filter_In; split; auto; now apply keqb_eq).
  assert (Hsd : In x sdata) by (apply filter_In; split; auto; now apply keqb_eq).
  exists (product_row platform segment product_name
            (unique keqb (map r_period sdata))
            (filter (fun y => keqb (r_name y) product_name) sdata)).
  split; [|repeat split].
  unfold comparison_data. apply in_flat_map. exists platform. split.
  - apply unique_In, in_map_iff. eauto.
  - apply in_flat_map. exists segment. split.
    + apply unique_In, in_map_iff. eauto.
    + apply in_flat_map.
      exists (product_name,
              length (count_get (product_period_count t)
                                (platform, segment, product_name))).
      split.
      * apply sort_by_In, in_map_iff. exists product_name. split; auto.
        apply unique_In, in_map_iff. eauto.
      * simpl. rewrite ProductSheet.count_is_periods.
        rewrite (proj2 (Nat.ltb_lt _ _) Hl). now left.
Qed.

Lemma ordered_In (t : list row) (data : list wide_row) (w : wide_row) :
  In w (ordered t data) <-> In w data.
Proof.
  unfold ordered.
  destruct (rev (sort_by kleb (unique keqb (map r_period t)))) as [|last_period ?];
    [tauto|].
  destruct (negb (String.eqb last_period "") && _); [apply sort_by_In | tauto].
Qed.

(** The products of the sheet are those in more than one period. *)
Lemma product_sheet_iff (t : list row) (platform segment product_name : string) :
  in_sheet (create_top_products_comparison_sheet t) platform segment product_name
  <-> (1 < length (entity_periods t platform segment product_name))%nat.
Proof.
  unfold in_sheet, create_top_products_comparison_sheet. split.
  - intros [rows [w [Hs [Hw [<- [<- <-]]]]]].
    destruct (empty t || _); [discriminate|].
    destruct (negb (empty (comparison_data t))); [|discriminate].
    injection Hs as <-. apply ordered_In in Hw. now apply product_line_In.
  - intros Hl.
    destruct (product_line_has t platform segment product_name Hl)
      as [w [Hw [Hp [Hs Hn]]]].
    assert (Hperiods : (1 < length (unique keqb (map r_period t)))%nat).
    { eapply Nat.lt_le_trans; [exact Hl|]. apply unique_length_incl.
      intros p Hp'. apply in_map_iff in Hp' as [x [<- Hx]].
      apply in_map. unfold entity_rows in Hx. now apply filter_In in Hx. }
    replace (empty t) with false
      by (destruct t; [simpl in Hperiods; lia | reflexivity]).
    rewrite (proj2 (Nat.leb_gt _ _) Hperiods). simpl.
    destruct (comparison_data t) as [|w0 ws] eqn:E; [destruct Hw|]. simpl.
    exists (ordered t (w0 :: ws)), w. split; auto. split; auto.
    now apply ordered_In.
Qed.

End ProductLines.

(** ** Column names *)

Module Columns.

Lemma length_app (s t : string) :
  String.length (s ++ t) = (String.length s + String.length t)%nat.
Proof. induction s as [|c s IH]; simpl; auto. Qed.

Lemma app_assoc (s t u : string) : ((s ++ t) ++ u = s ++ (t ++ u))%string.
Proof. induction s as [|c s IH]; simpl; auto. now rewrite IH. Qed.

(** Two names that end in different endings of one length are different,
    and two names with the same ending have it after the same beginning. *)
Lemma same_ending (s t a b : string) :
  String.length a = String.length b ->
  (s ++ a = t ++ b)%string -> s = t /\ a = b.
Proof.
  intros Hl. revert t. induction s as [|c s IH]; intros [|c' t] E; simpl in E.
  - auto.
  - exfalso. apply (f_equal String.length) in E. simpl in E.
    rewrite length_app in E. lia.
  - exfalso. apply (f_equal String.length) in E. simpl in E.
    rewrite length_app in E. lia.
  - injection E as -> E. destruct (IH t E) as [-> ->]. auto.
Qed.

Lemma other_ending (s t a b : string) :
  String.length a = String.length b -> a <> b -> (s ++ a)%string <> (t ++ b)%string.
Proof.
  intros Hl Hne E. now apply same_ending in E.
Qed.

Lemma get_set_same (d : Dict.dict) (k : string) (v : option fval) :
  Dict.get (Dict.set d k v) k = Some v.
Proof.
  induction d as [|[k' v'] t IH]; simpl.
  - now rewrite String.eqb_refl.
  - destruct (String.eqb k k') eqn:E; simpl; rewrite ?String.eqb_refl, ?E; auto.
Qed.

Lemma get_set_other (d : Dict.dict) (k k' : string) (v : option fval) :
  k <> k' -> Dict.get (Dict.set d k v) k' = Dict.get d k'.
Proof.
  intros Hne. induction d as [|[k0 v0] t IH]; simpl.
  - now rewrite (proj2 (String.eqb_neq k' k)) by congruence.
  - destruct (String.eqb k k0) eqn:E; simpl.
    + apply String.eqb_eq in E. subst k0.
      now rewrite (proj2 (String.eqb_neq k' k)) by congruence.
    + destruct (String.eqb k' k0); auto.
Qed.

End Columns.

Module ProductColumns.
Import ProductComparison Columns.

Local Open Scope string_scope.

Lemma revenue_key_split (p : string) :
  value_key "零售额" p = (p ++ " 零售") ++ "额".
Proof. unfold value_key. now rewrite app_assoc. Qed.

Lemma volume_key_split (p : string) :
  value_key "零售量" p = (p ++ " 零售") ++ "量".
Proof. unfold value_key. now rewrite app_assoc. Qed.

Lemma price_key_split (p : string) :
  value_key "成交均价" p = (p ++ " 成交均") ++ "价".
Proof. unfold value_key. now rewrite app_assoc. Qed.

Lemma change_key_split (label p pp : string) :
  change_key label p pp = (p ++ " vs " ++ pp ++ " " ++ label) ++ "(%)".
Proof. unfold change_key. now rewrite !app_assoc. Qed.

Lemma revenue_change_key_split (p pp : string) :
  change_key "零售额变化" p pp = (p ++ " vs " ++ pp ++ " 零售") ++ "额变化(%)".
Proof. unfold change_key. now rewrite !app_assoc. Qed.

Lemma volume_change_key_split (p pp : string) :
  change_key "零售量变化" p pp = (p ++ " vs " ++ pp ++ " 零售") ++ "量变化(%)".
Proof. unfold change_key. now rewrite !app_assoc. Qed.

Lemma price_change_key_split (p pp : string) :
  change_key "均价变化" p pp = (p ++ " vs " ++ pp ++ " 均") ++ "价变化(%)".
Proof. unfold change_key. now rewrite !app_assoc. Qed.

Lemma revenue_key_inj (p q : string) :
  value_key "零售额" p = value_key "零售额" q -> p = q.
Proof.
  unfold value_key. intros E. now apply same_ending in E.
Qed.

Lemma revenue_key_not_volume (p q : string) :
  value_key "零售量" q <> value_key "零售额" p.
Proof.
  rewrite revenue_key_split, volume_key_split.
  apply other_ending; [reflexivity | discriminate].
Qed.

Lemma revenue_key_not_price (p q : string) :
  value_key "成交均价" q <> value_key "零售额" p.
Proof.
  rewrite revenue_key_split, price_key_split.
  apply other_ending; [reflexivity | discriminate].
Qed.

Lemma change_key_not_revenue (label p pp q : string) :
  change_key label p pp <> value_key "零售额" q.
Proof.
  rewrite revenue_key_split, change_key_split.
  apply other_ending; [reflexivity | discriminate].
Qed.

Lemma volume_change_not_revenue_change (p pp q qq : string) :
  change_key "零售量变化" q qq <> change_key "零售额变化" p pp.
Proof.
  rewrite revenue_change_key_split, volume_change_key_split.
  apply other_ending; [reflexivity | discriminate].
Qed.

Lemma price_change_not_revenue_change (p pp q qq : string) :
  change_key "均价变化" q qq <> change_key "零售额变化" p pp.
Proof.
  rewrite revenue_change_key_split, price_change_key_split.
  apply other_ending; [reflexivity | discriminate].
Qed.

End ProductColumns.

Module ProductChanges.
Import ProductComparison Columns ProductColumns.

Local Abbreviation rk := (value_key "零售额").

(** The revenue cell written for a period. *)
Lemma add_period_same (pd : list row) (d : Dict.dict) (p : string) :
  Dict.get (add_period pd d p) (rk p) = Some (revenue_cell pd p).
Proof.
  unfold add_period, revenue_cell.
  destruct (filter (fun x => keqb (r_period x) p) pd) as [|x rest];
    rewrite get_set_other by apply revenue_key_not_price;
    rewrite get_set_other by apply revenue_key_not_volume;
    apply get_set_same.
Qed.

Lemma add_period_other (pd : list row) (d : Dict.dict) (p q : string) :
  q <> p -> Dict.get (add_period pd d p) (rk q) = Dict.get d (rk q).
Proof.
  intros Hne. unfold add_period.
  assert (Hk : rk p <> rk q) by (intros E; apply revenue_key_inj in E; congruence).
  destruct (filter (fun x => keqb (r_period x) p) pd) as [|x rest];
    rewrite get_set_other by apply revenue_key_not_price;
    rewrite get_set_other by apply revenue_key_not_volume;
    now rewrite get_set_other by exact Hk.
Qed.

(** After the loop over the periods the dict holds the revenue cell of each. *)
Lemma add_periods_get (pd : list row) (periods : list string) (d : Dict.dict)
    (p : string) :
  NoDup periods ->
  (In p periods ->
   Dict.get (fold_left (add_period pd) periods d) (rk p) = Some (revenue_cell pd p))
  /\ (~ In p periods ->
      Dict.get (fold_left (add_period pd) periods d) (rk p) = Dict.get d (rk p)).
Proof.
  intros Hnd. revert d. induction Hnd as [|q t Hnin Hnd IH]; intros d; simpl.
  - split; tauto.
  - destruct (IH (add_period pd d q)) as [IH1 IH2]. split.
    + intros [->|Hin]; auto.
      rewrite IH2 by auto. apply add_period_same.
    + intros Hn. rewrite IH2 by tauto. apply add_period_other.
      intros E. apply Hn. left. congruence.
Qed.

(** A change loop writes change columns of its own label only. *)
Lemma add_change_keeps (metric label : string)
    (st : Dict.dict * option (fval * string)) (period k : string) :
  (forall p pp, change_key label p pp <> k) ->
  Dict.get (fst (add_change metric label st period)) k = Dict.get (fst st) k.
Proof.
  intros Hk. unfold add_change.
  destruct (Dict.get (fst st) (value_key metric period)) as [[v|]|]; auto.
  simpl. destruct (snd st) as [[pv pp]|]; auto.
  destruct (nonzero pv); auto. now apply get_set_other.
Qed.

Lemma add_changes_keeps (metric label : string) (periods : list string)
    (d : Dict.dict) (k : string) :
  (forall p pp, change_key label p pp <> k) ->
  Dict.get (add_changes metric label periods d) k = Dict.get d k.
Proof.
  intros Hk. unfold add_changes.
  assert (H : forall st,
             Dict.get (fst (fold_left (add_change metric label) periods st)) k
             = Dict.get (fst st) k).
  { induction periods as [|p t IH]; intros st; simpl; auto.
    rewrite IH. now apply add_change_keeps. }
  apply (H (d, None)).
Qed.

(** The revenue loop, read on the periods in which the product has a
    revenue. *)
Lemma revenue_loop (pd : list row) (periods : list string)
    (st : Dict.dict * option (fval * string)) :
  (forall p, In p periods -> Dict.get (fst st) (rk p) = Some (revenue_cell pd p)) ->
  fold_left (add_change "零售额" "零售额变化") periods st
  = fold_left (change_step "零售额变化") (present_revenues pd periods) st.
Proof.
  revert st. induction periods as [|p t IH]; intros st Hinv; simpl; auto.
  unfold present_revenues in *. simpl. rewrite fold_left_app.
  assert (Hp := Hinv p (or_introl eq_refl)).
  unfold add_change at 2. rewrite Hp.
  destruct (revenue_cell pd p) as [v|]; simpl.
  - apply IH. intros q Hq. simpl.
    assert (Hq' := Hinv q (or_intror Hq)).
    destruct (snd st) as [[pv pp]|]; auto.
    destruct (nonzero pv); auto.
    now rewrite get_set_other by apply change_key_not_revenue.
  - apply IH. intros q Hq. apply Hinv. now right.
Qed.

(** A product with a revenue in two periods of the sheet, [p1] sorting
    before [p2]: the line of the product holds the change from the one to the
    other. *)
Lemma product_row_change (platform segment product_name : string)
    (periods : list string) (pd : list row) (p1 p2 : string) (v1 v2 : Q) :
  NoDup periods ->
  present_revenues pd (sort_by kleb periods) = [(p1, Fin v1); (p2, Fin v2)] ->
  ~ v1 == 0 ->
  Dict.get (w_cells (product_row platform segment product_name periods pd))
           (change_key "零售额变化" p2 p1)
  = Some (Some (((Fin v2 / Fin v1) - Fin 1) * Fin 100)%fl).
Proof.
  intros Hnd Hpres Hv. unfold product_row. simpl.
  rewrite !add_changes_keeps
    by auto using price_change_not_revenue_change, volume_change_not_revenue_change.
  unfold add_changes. rewrite (revenue_loop pd).
  - rewrite Hpres. simpl.
    rewrite (proj2 (ShareFacts.Qis_zero_false v1) Hv). simpl.
    apply get_set_same.
  - intros p Hp. simpl. apply add_periods_get; auto.
    now apply sort_by_In in Hp.
Qed.

End ProductChanges.

Module ProductSheetRows.
Import ProductComparison.

(** The line of a product that is in more than one period, as the sheet
    holds it. *)
Lemma sheet_row (t : list row) (platform segment product_name : string) :
  (1 < length (entity_periods t platform segment product_name))%nat ->
  let sdata := segment_data (platform_data t platform) segment in
  exists rows,
    create_top_products_comparison_sheet t = Some rows
    /\ In (product_row platform segment product_name
             (unique keqb (map r_period sdata))
             (filter (fun y => keqb (r_name y) product_name) sdata))
          rows.
Proof.
  intros Hl sdata.
  assert (Hx : exists x, In x (entity_rows t platform segment product_name)).
  { unfold entity_periods in Hl.
    destruct (entity_rows t platform segment product_name) as [|x rest];
      [simpl in Hl; lia|]. exists x. now left. }
  destruct Hx as [x Hx]. unfold entity_rows in Hx.
  apply filter_In in Hx as [Hin Hx].
  rewrite !andb_true_iff, !keqb_eq in Hx. destruct Hx as [[Hp Hs] Hn].
  set (pdata := platform_data t platform) in *.
  assert (Hpd : In x pdata) by (apply filter_In; split; auto; now apply keqb_eq).
  assert (Hsd : In x sdata) by (apply filter_In; split; auto; now apply keqb_eq).
  set (w := product_row platform segment product_name
              (unique keqb (map r_period sdata))
              (filter (fun y => keqb (r_name y) product_name) sdata)).
  assert (Hw : In w (comparison_data t)).
  { unfold comparison_data. apply in_flat_map. exists platform. split.
    - apply unique_In, in_map_iff. eauto.
    - apply in_flat_map. exists segment. split.
      + apply unique_In, in_map_iff. eauto.
      + apply in_flat_map.
        exists (product_name,
                length (count_get (product_period_count t)
                                  (platform, segment, product_name))).
        split.
        * apply sort_by_In, in_map_iff. exists product_name. split; auto.
          apply unique_In, in_map_iff. eauto.
        * simpl. rewrite ProductSheet.count_is_periods.
          rewrite (proj2 (Nat.ltb_lt _ _) Hl). now left. }
  assert (Hperiods : (1 < length (unique keqb (map r_period t)))%nat).
  { eapply Nat.lt_le_trans; [exact Hl|]. apply unique_length_incl.
    intros p Hp'. apply in_map_iff in Hp' as [y [<- Hy]].
    apply in_map. unfold entity_rows in Hy. now apply filter_In in Hy. }
  unfold create_top_products_comparison_sheet.
  replace (empty t) with false
    by (destruct t; [simpl in Hperiods; lia | reflexivity]).
  rewrite (proj2 (Nat.leb_gt _ _) Hperiods). simpl.
  destruct (comparison_data t) as [|w0 ws] eqn:E; [destruct Hw|]. simpl.
  eexists. split; [reflexivity|]. now apply ProductLines.ordered_In.
Qed.

Lemma present_revenues_In (pd : list row) (periods : list string) (p : string)
    (v : fval) :
  In (p, v) (present_revenues pd periods)
  <-> In p periods /\ revenue_cell pd p = Some v.
Proof.
  unfold present_revenues. rewrite in_flat_map. split.
  - intros [q [Hq H]]. destruct (revenue_cell pd q) as [u|] eqn:E; [|destruct H].
    destruct H as [[= -> ->]|[]]. auto.
  - intros [Hp E]. exists p. split; auto. rewrite E. now left.
Qed.

Lemma present_revenues_NoDup (pd : list row) (periods : list string) :
  NoDup periods -> NoDup (map fst (present_revenues pd periods)).
Proof.
  unfold present_revenues. induction 1 as [|p t Hnin Hnd IH]; simpl; [constructor|].
  rewrite map_app. destruct (revenue_cell pd p) as [v|]; simpl; auto.
  constructor; auto. intros Hin. apply Hnin.
  apply in_map_iff in Hin as [[q u] [<- Hq]].
  now apply present_revenues_In in Hq.
Qed.

Lemma revenue_cell_period (pd : list row) (p : string) (v : fval) :
  revenue_cell pd p = Some v -> In p (map r_period pd).
Proof.
  unfold revenue_cell.
  destruct (filter (fun x => keqb (r_period x) p) pd) as [|x rest] eqn:E;
    [discriminate|].
  intros _. assert (Hx : In x (filter (fun x => keqb (r_period x) p) pd))
    by (rewrite E; now left).
  apply filter_In in Hx as [Hx Hp]. apply keqb_eq in Hp. subst p.
  now apply in_map.
Qed.

(** The rows of a product, as the loops filter them. *)
Lemma product_data_eq (t : list row) (platform segment product_name : string) :
  filter (fun y => keqb (r_name y) product_name)
         (segment_data (platform_data t platform) segment)
  = entity_rows t platform segment product_name.
Proof.
  unfold segment_data, platform_data, entity_rows. rewrite !filter_filter.
  apply filter_ext. intros x. apply andb_assoc.
Qed.

(** A product with a revenue in two periods is in more than one period. *)
Lemma two_revenues_two_periods (t : list row) (platform segment product_name : string)
    (periods : list string) (p1 p2 : string) (v1 v2 : fval) :
  NoDup periods ->
  present_revenues (entity_rows t platform segment product_name) periods
  = [(p1, v1); (p2, v2)] ->
  (1 < length (entity_periods t platform segment product_name))%nat.
Proof.
  intros Hnd E.
  assert (Hd := present_revenues_NoDup
                  (entity_rows t platform segment product_name) periods Hnd).
  rewrite E in Hd. simpl in Hd.
  assert (Hin : forall p v, In (p, v) [(p1, v1); (p2, v2)] ->
                            In p (entity_periods t platform segment product_name)).
  { intros p v Hp. rewrite <- E in Hp. apply present_revenues_In in Hp as [_ Hp].
    apply unique_In. now apply revenue_cell_period in Hp. }
  assert (Hle : (length [p1; p2]
                 <= length (entity_periods t platform segment product_name))%nat).
  { apply NoDup_incl_length; auto.
    intros p [Hp|[Hp|[]]]; subst p;
      [apply (Hin p1 v1) | apply (Hin p2 v2)]; simpl; auto. }
  simpl in Hle. lia.
Qed.

End ProductSheetRows.

(** ** The comparison reshaper *)

(** C9, as the claim has it, fails in its last part: the periods of a line
    are compared in the order of their labels as strings.  A lamp with the
    revenue 200 in 时间段 9 and 250 in 时间段 10 gets no column for the change
    from the ninth to the tenth period; its one change column compares the
    ninth period against the tenth and holds -20. *)
Lemma late_period_counterexample :
  exists w,
    ProductComparison.create_top_products_comparison_sheet late_products = Some [w]
    /\ ProductComparison.w_name w = "lamp"
    /\ Dict.get (ProductComparison.w_cells w)
                (ProductComparison.change_key "零售额变化" "时间段 10" "时间段 9")
       = None
    /\ exists v,
         Dict.get (ProductComparison.w_cells w)
                  (ProductComparison.change_key "零售额变化" "时间段 9" "时间段 10")
         = Some (Some v)
         /\ feq v (Fin (-20)) /\ ~ feq v (Fin 25).
Proof.
  eexists. split; [vm_compute; reflexivity|].
  split; [reflexivity|]. split; [vm_compute; reflexivity|].
  eexists. split; [vm_compute; reflexivity|].
  split; [reflexivity | discriminate].
Qed.

(** C9, amended: of a brand table with one row per (period, platform, brand)
    the brand comparison sheet holds a line for a brand on a platform exactly
    when the brand has rows in more than one period there; the product
    comparison sheet holds a line for a product of a segment on a platform
    exactly when the product has rows in more than one period.  An entity of a
    single period has no line; the long table, an argument of the function, is
    not changed.  For a product with a revenue in two periods, [v1] in the
    period whose label sorts first and [v2] in the other, [v1] not zero, the
    column of the revenue change holds [(v2 / v1 - 1) * 100]: 25 for 200 and
    250. *)
Theorem comparison_sheet_entities :
  (forall t platform brand,
     NoDup (map BrandComparison.table_key t) ->
     BrandComparison.in_sheet (BrandComparison.create_brand_comparison_sheet t)
                              platform brand
     <-> (1 < length (BrandComparison.entity_periods t platform brand))%nat)
  /\ (forall t platform segment product_name,
        ProductComparison.in_sheet
          (ProductComparison.create_top_products_comparison_sheet t)
          platform segment product_name
        <-> (1 < length (ProductComparison.entity_periods t platform segment
                                                          product_name))%nat)
  /\ (forall t platform segment product_name p1 p2 v1 v2,
        let sdata := ProductComparison.segment_data
                       (ProductComparison.platform_data t platform) segment in
        let periods := unique keqb (map ProductComparison.r_period sdata) in
        ProductComparison.present_revenues
          (ProductComparison.entity_rows t platform segment product_name)
          (sort_by kleb periods)
        = [(p1, Fin v1); (p2, Fin v2)] ->
        ~ v1 == 0 ->
        exists rows w,
          ProductComparison.create_top_products_comparison_sheet t = Some rows
          /\ In w rows
          /\ ProductComparison.w_platform w = platform
          /\ ProductComparison.w_segment w = segment
          /\ ProductComparison.w_name w = product_name
          /\ Dict.get (ProductComparison.w_cells w)
                      (ProductComparison.change_key "零售额变化" p2 p1)
             = Some (Some (Fin ((v2 / v1 - 1) * 100)))).
Proof.
  split; [|split].
  - intros t platform brand. apply BrandSheet.brand_sheet_iff.
  - intros t platform segment product_name. apply ProductLines.product_sheet_iff.
  - intros t platform segment product_name p1 p2 v1 v2 sdata periods Hpres Hv.
    assert (Hnd : NoDup periods) by apply unique_NoDup.
    assert (Hl : (1 < length (ProductComparison.entity_periods t platform segment
                                                               product_name))%nat).
    { eapply ProductSheetRows.two_revenues_two_periods; [|exact Hpres].
      eapply Permutation_NoDup; [symmetry; apply sort_by_perm | exact Hnd]. }
    destruct (ProductSheetRows.sheet_row t platform segment product_name Hl)
      as [rows [Hs Hw]].
    eexists. eexists. split; [exact Hs|]. split; [exact Hw|].
    repeat split.
    subst periods sdata.
    rewrite ProductSheetRows.product_data_eq.
    rewrite (ProductChanges.product_row_change platform segment product_name
               _ _ p1 p2 v1 v2 Hnd Hpres Hv).
    simpl. now rewrite (proj2 (ShareFacts.Qis_zero_false v1) Hv).
Qed.

(** The theorem on the lamp sold for 200 in 时间段 1 and for 250 in 时间段 2
    and the desk sold in 时间段 1 only: the lamp has a line, whose change
    column holds 25, and the desk has none. *)
Lemma comparison_sheet_entities_witness :
  (1 < length (ProductComparison.entity_periods sample_products "A" "0-100" "lamp"))%nat
  /\ ~ (1 < length (ProductComparison.entity_periods sample_products "A" "0-100"
                                                     "desk"))%nat
  /\ ~ 200 == 0
  /\ ProductComparison.in_sheet
       (ProductComparison.create_top_products_comparison_sheet sample_products)
       "A" "0-100" "lamp"
  /\ ~ ProductComparison.in_sheet
         (ProductComparison.create_top_products_comparison_sheet sample_products)
         "A" "0-100" "desk"
  /\ In (sample_product "desk" "时间段 1" 10) sample_products
  /\ exists rows w,
       ProductComparison.create_top_products_comparison_sheet sample_products
       = Some rows
       /\ In w rows
       /\ ProductComparison.w_name w = "lamp"
       /\ Dict.get (ProductComparison.w_cells w)
                   (ProductComparison.change_key "零售额变化" "时间段 2" "时间段 1")
          = Some (Some (Fin ((250 / 200 - 1) * 100)))
       /\ (250 / 200 - 1) * 100 == 25.
Proof.
  destruct comparison_sheet_entities as [_ [Hiff Hchange]].
  assert (Hlamp : (1 < length (ProductComparison.entity_periods
                                 sample_products "A" "0-100" "lamp"))%nat)
    by (vm_compute; lia).
  assert (Hdesk : ~ (1 < length (ProductComparison.entity_periods
                                   sample_products "A" "0-100" "desk"))%nat)
    by (vm_compute; lia).
  assert (Hv : ~ 200 == 0) by discriminate.
  split; [exact Hlamp|]. split; [exact Hdesk|]. split; [exact Hv|].
  split; [apply Hiff; exact Hlamp|].
  split; [intros H; apply Hdesk, Hiff; exact H|].
  split; [right; right; left; reflexivity|].
  destruct (Hchange sample_products "A" "0-100" "lamp" "时间段 1" "时间段 2" 200 250
                    eq_refl Hv)
    as [rows [w [Hs [Hw [_ [_ [Hn Hc]]]]]]].
  exists rows, w. repeat split; auto.
Defined.

(** * The rest of the pipeline *)

Module UploadFacts.
Import Upload.

Lemma load_data_Some (file : workbook) (df : list record) :
  load_data file = Some df <->
  exists columns, file = Frame columns df /\ incl required_columns columns.
Proof.
  destruct file as [|columns rows]; cbn [load_data].
  - split; [discriminate | intros [c [Hc _]]; discriminate].
  - destruct (forallb (fun col => existsb (String.eqb col) columns) required_columns)
      eqn:E.
    + split.
      * intros H. injection H as H. subst df. exists columns. split; auto.
        intros col Hcol. rewrite forallb_forall in E.
        specialize (E col Hcol). apply existsb_exists in E as [c [Hc E]].
        apply String.eqb_eq in E. now subst.
      * intros [c [H _]]. injection H as H1 H2. now subst df.
    + split; [discriminate|]. intros [c [H Hincl]]. injection H as H1 H2. subst c df.
      exfalso. enough (forallb (fun col => existsb (String.eqb col) columns)
                               required_columns = true) by congruence.
      apply forallb_forall. intros col Hcol. apply existsb_exists.
      exists col. split; [now apply Hincl | apply String.eqb_refl].
Qed.

Lemma all_data_In (files : list workbook) (ps ts : list string) (r : record) :
  In r (concat (all_data files ps ts)) <->
  exists file platform period df r0,
    In (file, platform, period) (zipped files ps ts)
    /\ load_data file = Some df /\ In r0 df /\ r = tag platform period r0.
Proof.
  unfold all_data. rewrite in_concat. split.
  - intros [block [Hb Hr]]. apply in_flat_map in Hb as [[[file platform] period] [Hz Hb]].
    destruct (load_data file) as [df|] eqn:E; [|destruct Hb].
    destruct Hb as [<-|[]]. apply in_map_iff in Hr as [r0 [<- Hr0]].
    now exists file, platform, period, df, r0.
  - intros [file [platform [period [df [r0 [Hz [Hl [Hr0 ->]]]]]]]].
    exists (map (tag platform period) df). split; [|now apply in_map].
    apply in_flat_map. exists (file, platform, period). split; auto.
    rewrite Hl. now left.
Qed.

Lemma all_data_nil (files : list workbook) (ps ts : list string) :
  all_data files ps ts = [] <->
  forall file platform period,
    In (file, platform, period) (zipped files ps ts) -> load_data file = None.
Proof.
  unfold all_data. generalize (zipped files ps ts) as z.
  induction z as [|[[file platform] period] z IH]; simpl.
  - split; auto. intros _ f p t [].
  - destruct (load_data file) as [df|] eqn:E; simpl.
    + split; [discriminate|]. intros H.
      specialize (H file platform period (or_introl eq_refl)). congruence.
    + rewrite IH. split.
      * intros H f p t [[= <- <- <-]|Hin]; eauto.
      * intros H f p t Hin. eapply H. right. exact Hin.
Qed.

End UploadFacts.

(** X1: [combine_platform_data] returns [None] exactly when no file of the
    upload loads.  Otherwise the records of the combined frame are exactly
    the rows of the files that can be read and have the six required
    columns, each with the platform and the period of its file. *)
Theorem combined_records_carry_their_tags (files : list Upload.workbook)
    (platform_names period_names : list string) :
  (Upload.combine_platform_data files platform_names period_names = None <->
   forall file platform period,
     In (file, platform, period) (Upload.zipped files platform_names period_names) ->
     Upload.load_data file = None)
  /\ (forall df,
        Upload.combine_platform_data files platform_names period_names = Some df ->
        forall r,
          In r df <->
          exists file platform period columns rows r0,
            In (file, platform, period)
               (Upload.zipped files platform_names period_names)
            /\ file = Upload.Frame columns rows
            /\ incl Upload.required_columns columns
            /\ In r0 rows
            /\ r = Upload.tag platform period r0).
Proof.
  unfold Upload.combine_platform_data. split.
  - rewrite <- UploadFacts.all_data_nil.
    destruct (Upload.all_data files platform_names period_names); simpl.
    + split; auto.
    + split; discriminate.
  - intros df H r.
    destruct (0 <? _)%nat; [|discriminate]. injection H as <-.
    rewrite UploadFacts.all_data_In. split.
    + intros [file [platform [period [rows [r0 [Hz [Hl [Hr0 ->]]]]]]]].
      apply UploadFacts.load_data_Some in Hl as [columns [-> Hincl]].
      now exists (Upload.Frame columns rows), platform, period, columns, rows, r0.
    + intros [file [platform [period [columns [rows [r0 [Hz [-> [Hincl [Hr0 ->]]]]]]]]]].
      exists (Upload.Frame columns rows), platform, period, rows, r0.
      repeat split; auto. apply UploadFacts.load_data_Some. now exists columns.
Qed.

Module RangeFacts.
Import Segment PriceRanges.

Lemma column_min_spec (col : list Q) (m : Q) :
  column_min col = Some m -> In m col /\ forall x, In x col -> m <= x.
Proof.
  revert m. induction col as [|x t IH]; intros m; simpl; [discriminate|].
  destruct (column_min t) as [m'|] eqn:E.
  - destruct (IH m' eq_refl) as [Hin Hle].
    destruct (Qle_bool x m') eqn:C; intros [= <-].
    + apply Qle_bool_iff in C. split; auto.
      intros y [<-|Hy]; [apply Qle_refl|]. apply Qle_trans with m'; auto.
    + split; auto. intros y [<-|Hy]; auto.
      apply Qlt_le_weak, SegmentFacts.below_iff. now rewrite C.
  - intros [= <-]. destruct t; [|simpl in E; destruct (column_min t); discriminate].
    split; auto. intros y [<-|[]]. apply Qle_refl.
Qed.

Lemma column_max_spec (col : list Q) (m : Q) :
  column_max col = Some m -> In m col /\ forall x, In x col -> x <= m.
Proof.
  revert m. induction col as [|x t IH]; intros m; simpl; [discriminate|].
  destruct (column_max t) as [m'|] eqn:E.
  - destruct (IH m' eq_refl) as [Hin Hle].
    destruct (Qle_bool m' x) eqn:C; intros [= <-].
    + apply Qle_bool_iff in C. split; auto.
      intros y [<-|Hy]; [apply Qle_refl|]. apply Qle_trans with m'; auto.
    + split; auto. intros y [<-|Hy]; auto.
      apply Qlt_le_weak, SegmentFacts.below_iff. now rewrite C.
  - intros [= <-]. destruct t; [|simpl in E; destruct (column_max t); discriminate].
    split; auto. intros y [<-|[]]. apply Qle_refl.
Qed.

(** Strictly increasing edges, from the positions. *)
Lemma increasing_by_nth (bins : list Q) :
  (forall i, (i + 1 < length bins)%nat -> nth i bins 0 < nth (i + 1) bins 0) ->
  increasing bins = true.
Proof.
  induction bins as [|a [|b t] IH]; intros H; auto.
  change (negb (Qle_bool b a) && increasing (b :: t) = true).
  apply andb_true_iff. split.
  - apply SegmentFacts.below_iff. apply (H 0%nat). simpl. lia.
  - apply IH. intros i Hi. apply (H (S i)). simpl in *. lia.
Qed.

Lemma auto_ranges_length (lo hi : Q) (uppers : list Q) :
  length (auto_ranges lo hi uppers) = (length uppers + 2)%nat.
Proof. unfold auto_ranges. simpl. rewrite length_app. simpl. lia. Qed.

Lemma auto_ranges_last (lo hi : Q) (uppers : list Q) :
  nth (length uppers + 1) (auto_ranges lo hi uppers) 0 = hi.
Proof.
  unfold auto_ranges. replace (length uppers + 1)%nat with (S (length uppers)) by lia.
  simpl. rewrite app_nth2 by lia. now rewrite Nat.sub_diag.
Qed.

Lemma default_uppers_length (lo hi : Q) (n : nat) :
  length (default_uppers lo hi n) = (n - 1)%nat.
Proof. unfold default_uppers. now rewrite length_map, length_seq. Qed.

Lemma of_nat_nonzero (n : nat) : (0 < n)%nat -> ~ inject_Z (Z.of_nat n) == 0.
Proof.
  intros Hn H. unfold Qeq in H. simpl in H. lia.
Qed.

Lemma default_edge (lo hi : Q) (n k : nat) :
  (0 < n)%nat -> (k <= n)%nat ->
  nth k (auto_ranges lo hi (default_uppers lo hi n)) 0 == edge lo hi n k.
Proof.
  intros Hn Hk. assert (Hz := of_nat_nonzero n Hn). unfold auto_ranges, edge.
  destruct k as [|i]; simpl nth.
  - simpl. field. exact Hz.
  - destruct (Nat.eq_dec (S i) n) as [E|E].
    + rewrite app_nth2 by (rewrite default_uppers_length; lia).
      rewrite default_uppers_length. replace (i - (n - 1))%nat with 0%nat by lia.
      simpl nth. rewrite E. field. exact Hz.
    + rewrite app_nth1 by (rewrite default_uppers_length; lia).
      unfold default_uppers.
      rewrite (nth_indep _ 0 (default_upper lo hi n 0))
        by (rewrite length_map, length_seq; lia).
      rewrite map_nth, seq_nth by lia. unfold default_upper.
      replace (0 + i + 1)%nat with (S i) by lia. reflexivity.
Qed.

Lemma edge_step (lo hi : Q) (n k : nat) :
  (0 < n)%nat -> lo < hi -> edge lo hi n k < edge lo hi n (k + 1).
Proof.
  intros Hn Hlt. unfold edge.
  assert (Hp : 0 < inject_Z (Z.of_nat n)).
  { unfold Qlt. simpl. lia. }
  assert (E : inject_Z (Z.of_nat (k + 1)) == inject_Z (Z.of_nat k) + 1).
  { rewrite Nat2Z.inj_add, inject_Z_plus. reflexivity. }
  rewrite E.
  apply Qplus_lt_r. apply Qmult_lt_compat_r; [now apply Qinv_lt_0_compat|].
  apply Qmult_lt_l; [lra|]. lra.
Qed.

Lemma default_increasing (lo hi : Q) (n : nat) :
  (0 < n)%nat -> lo < hi ->
  increasing (auto_ranges lo hi (default_uppers lo hi n)) = true.
Proof.
  intros Hn Hlt. apply increasing_by_nth. intros i Hi.
  rewrite auto_ranges_length, default_uppers_length in Hi.
  rewrite !default_edge by lia. now apply edge_step.
Qed.

Lemma sorted_non_decreasing (l : list Q) :
  Sorted (fun a b => Qle_bool a b = true) l -> non_decreasing l = true.
Proof.
  induction 1 as [|a l Hs IH Hd]; auto.
  destruct l as [|b t]; auto.
  change (Qle_bool a b && non_decreasing (b :: t) = true).
  rewrite IH, andb_true_r. now inversion Hd.
Qed.

Lemma Qle_bool_total (a b : Q) : Qle_bool a b = false -> Qle_bool b a = true.
Proof.
  intros H. apply Qle_bool_iff, Qlt_le_weak, SegmentFacts.below_iff. now rewrite H.
Qed.

End RangeFacts.



(** X4: when every record has the same price the boundaries [main] proposes
    are all equal, so [pd.cut] raises: neither the price segment table nor
    the top brands table is made, whatever the data. *)
Theorem equal_prices_rejected (lo hi : Q) (n : nat) :
  lo == hi ->
  (2 <= n)%nat ->
  let bins := PriceRanges.auto_ranges lo hi (PriceRanges.default_uppers lo hi n) in
  Segment.bins_valid bins = false
  /\ forall df fill_pad k,
       PriceSegments.analyze_price_segments fill_pad df bins = None
       /\ TopBrands.get_top_brands_by_segment df bins k = None.
Proof.
  intros He Hn bins.
  assert (Hv : Segment.bins_valid bins = false).
  { unfold Segment.bins_valid.
    replace (Nat.eqb (length bins) 2) with false.
    2:{ symmetry. apply Nat.eqb_neq. unfold bins.
        rewrite RangeFacts.auto_ranges_length, RangeFacts.default_uppers_length. lia. }
    replace (Segment.increasing bins) with false; [now rewrite andb_false_r|].
    symmetry. unfold bins, PriceRanges.auto_ranges, PriceRanges.default_uppers.
    destruct n as [|[|m]]; [lia | lia |].
    replace (S (S m) - 1)%nat with (S m) by lia.
    cbn [seq map app Segment.increasing].
    apply andb_false_iff. left. apply negb_false_iff, Qle_bool_iff.
    unfold PriceRanges.default_upper. rewrite He.
    setoid_replace (hi - hi) with 0 by ring.
    unfold Qdiv. rewrite !Qmult_0_l, Qplus_0_r. apply Qle_refl. }
  split; auto. intros df fill_pad k.
  unfold PriceSegments.analyze_price_segments, TopBrands.get_top_brands_by_segment,
    Segment.with_segments.
  now rewrite Hv.
Qed.

Lemma equal_prices_rejected_witness :
  PriceSegments.analyze_price_segments true
    [ mkRecord "lamp" "u1" 100 1 50 (Some "x") "A" "P1" ]
    (PriceRanges.auto_ranges 50 50 (PriceRanges.default_uppers 50 50 5)) = None.
Proof.
  refine (proj1 (proj2 (equal_prices_rejected 50 50 5 _ _) _ true 5%nat));
    [reflexivity | lia].
Defined.

(** X5: with boundaries that run from the least to the greatest price of the
    data, as [main] builds them, the records without a segment are exactly
    those at the least price; a record at the greatest price is in the last
    segment. *)
Theorem cheapest_records_have_no_segment (df : list record) (lo hi : Q)
    (uppers : list Q) :
  PriceRanges.column_min (map price df) = Some lo ->
  PriceRanges.column_max (map price df) = Some hi ->
  Segment.increasing (PriceRanges.auto_ranges lo hi uppers) = true ->
  exists sdf,
    Segment.with_segments df (PriceRanges.auto_ranges lo hi uppers) = Some sdf
    /\ map fst sdf = df
    /\ forall r c, In (r, c) sdf ->
         (c = None <-> price r == lo)
         /\ (price r == hi -> c = Some (length uppers)).
Proof.
  intros Hlo Hhi Hinc.
  destruct (RangeFacts.column_min_spec _ _ Hlo) as [_ Hmin].
  destruct (RangeFacts.column_max_spec _ _ Hhi) as [_ Hmax].
  set (bins := PriceRanges.auto_ranges lo hi uppers) in *.
  assert (Hlen : length bins = (length uppers + 2)%nat)
    by apply RangeFacts.auto_ranges_length.
  assert (Hlast : nth (length uppers + 1) bins 0 = hi)
    by apply RangeFacts.auto_ranges_last.
  unfold Segment.with_segments. rewrite (SegmentFacts.increasing_valid _ Hinc).
  eexists. split; [reflexivity|]. split.
  - rewrite map_map. simpl. apply map_id.
  - intros r c Hin. apply in_map_iff in Hin as [r' [[= <- <-] Hr]].
    assert (H1 : lo <= price r') by (apply Hmin; now apply in_map).
    assert (H2 : price r' <= hi) by (apply Hmax; now apply in_map).
    split.
    + rewrite SegmentFacts.cut_None by (auto; lia).
      rewrite Hlen. replace (length uppers + 2 - 1)%nat with (length uppers + 1)%nat by lia.
      rewrite Hlast. change (nth 0 bins 0) with lo. split.
      * intros [H|H]; [now apply Qle_antisym|].
        exfalso. now apply (Qlt_not_le hi (price r')).
      * intros ->. left. apply Qle_refl.
    + intros He. apply SegmentFacts.cut_Some; auto.
      split; [lia|]. rewrite Hlast. split; [|now rewrite He; apply Qle_refl].
      rewrite He, <- Hlast. apply SegmentFacts.increasing_nth; auto; lia.
Qed.

Lemma cheapest_records_have_no_segment_witness :
  let df := [ mkRecord "lamp" "u1" 100 1 20 (Some "x") "A" "P1";
              mkRecord "desk" "u2" 300 2 120 (Some "y") "A" "P1" ] in
  exists sdf,
    Segment.with_segments df (PriceRanges.auto_ranges 20 120 [70]) = Some sdf
    /\ map fst sdf = df
    /\ forall r c, In (r, c) sdf ->
         (c = None <-> price r == 20) /\ (price r == 120 -> c = Some 1%nat).
Proof.
  intros df.
  refine (cheapest_records_have_no_segment df 20 120 [70] _ _ _); reflexivity.
Defined.

(** X6: the custom boundaries are in ascending order and at least two.  They
    are the numbers typed, reordered, when two or more were typed, and the
    least and the greatest price otherwise. *)
Theorem custom_ranges_ascending (parsed : option (list Q)) (col : list Q)
    (lo hi : Q) :
  PriceRanges.column_min col = Some lo ->
  PriceRanges.column_max col = Some hi ->
  let price_ranges := PriceRanges.custom_ranges parsed lo hi in
  Segment.non_decreasing price_ranges = true
  /\ (2 <= length price_ranges)%nat
  /\ (forall l, parsed = Some l -> (2 <= length l)%nat -> Permutation price_ranges l)
  /\ ((forall l, parsed = Some l -> (length l < 2)%nat) -> price_ranges = [lo; hi]).
Proof.
  intros Hlo Hhi price_ranges.
  destruct (RangeFacts.column_min_spec _ _ Hlo) as [Hin Hmin].
  assert (Hle : lo <= hi).
  { destruct (RangeFacts.column_max_spec _ _ Hhi) as [_ Hmax]. now apply Hmax. }
  assert (Hdef : Segment.non_decreasing [lo; hi] = true).
  { simpl. rewrite andb_true_r. now apply Qle_bool_iff. }
  unfold price_ranges, PriceRanges.custom_ranges.
  destruct parsed as [l|].
  - rewrite sort_by_length.
    destruct (length l <? 2)%nat eqn:E.
    + apply Nat.ltb_lt in E. repeat split; auto.
      intros l' [= <-] Hl. lia.
    + apply Nat.ltb_ge in E. split; [|split; [|split]].
      * apply RangeFacts.sorted_non_decreasing, sort_by_sorted.
        apply RangeFacts.Qle_bool_total.
      * now rewrite sort_by_length.
      * intros l' [= <-] _. apply sort_by_perm.
      * intros H. specialize (H l eq_refl). lia.
  - repeat split; auto. intros l [=].
Qed.

Lemma custom_ranges_ascending_witness :
  Segment.non_decreasing (PriceRanges.custom_ranges (Some [300; 0; 100]) 20 120) = true.
Proof.
  refine (proj1 (custom_ranges_ascending (Some [300; 0; 100]) [20; 120] 20 120 _ _));
    reflexivity.
Defined.

Module GridFacts.
Import Upload UploadGrid.

Lemma zipped_unzip {A B C} (cs : list (A * B * C)) :
  zipped (map (fun x => fst (fst x)) cs) (map (fun x => snd (fst x)) cs)
         (map (fun x => snd x) cs) = cs.
Proof.
  unfold zipped. induction cs as [|[[a b] c] t IH]; simpl; auto. now rewrite IH.
Qed.

Lemma labels_fold (f : nat -> string) (js : list nat) (acc : list string) :
  fold_left (fun labels i => labels ++ [f i])%list js acc = (acc ++ map f js)%list.
Proof.
  revert acc. induction js as [|j t IH]; intros acc; simpl.
  - now rewrite app_nil_r.
  - rewrite IH, <- app_assoc. reflexivity.
Qed.

Section Cells.
Variables num_platforms num_periods : nat.
Variable period_label : nat -> string.
Variable platform_name : nat -> string.
Variable file_uploader : nat -> nat -> option workbook.

Local Abbreviation cell :=
  (fun i j : nat => (file_uploader i j, platform_name i, period_label j)).

Local Abbreviation unzip :=
  (fun cs : list (option workbook * string * string) =>
     mkLists (map (fun x => fst (fst x)) cs) (map (fun x => snd (fst x)) cs)
             (map (fun x => snd x) cs)).

Lemma label_nth (j : nat) :
  (j < num_periods)%nat ->
  nth j (period_labels num_periods period_label) "" = period_label j.
Proof.
  intros Hj. unfold period_labels. rewrite labels_fold. simpl.
  rewrite (nth_indep _ "" (period_label 0%nat)) by now rewrite length_map, length_seq.
  rewrite map_nth, seq_nth; auto.
Qed.

Lemma inner_loop (i : nat) (js : list nat) cs :
  (forall j, In j js -> (j < num_periods)%nat) ->
  fold_left (upload num_periods period_label platform_name file_uploader i) js
            (unzip cs)
  = unzip (cs ++ map (cell i) js)%list.
Proof.
  revert cs. induction js as [|j t IH]; intros cs Hjs; simpl.
  - now rewrite app_nil_r.
  - assert (E : upload num_periods period_label platform_name file_uploader i
                      (unzip cs) j
               = unzip (cs ++ [cell i j])%list).
    { unfold upload. cbn [uploaded_files platform_names period_names].
      rewrite label_nth by (apply Hjs; now left). now rewrite !map_app. }
    rewrite E, IH by (intros; apply Hjs; now right).
    rewrite <- app_assoc. reflexivity.
Qed.

Lemma outer_loop (is_ : list nat) cs :
  fold_left (fun st i =>
               fold_left (upload num_periods period_label platform_name file_uploader i)
                         (seq 0 num_periods) st)
            is_ (unzip cs)
  = unzip (cs ++ flat_map (fun i => map (cell i) (seq 0 num_periods)) is_)%list.
Proof.
  revert cs. induction is_ as [|i t IH]; intros cs; simpl.
  - now rewrite app_nil_r.
  - rewrite inner_loop by (intros j Hj; now apply in_seq in Hj).
    rewrite IH, <- app_assoc. reflexivity.
Qed.

Lemma valid_files_In (f : workbook) (p t : string) :
  In (f, p, t)
     (valid_files num_platforms num_periods period_label platform_name file_uploader)
  <-> exists i j,
        (i < num_platforms)%nat /\ (j < num_periods)%nat
        /\ file_uploader i j = Some f /\ p = platform_name i /\ t = period_label j.
Proof.
  unfold valid_files, uploads.
  assert (Eo := outer_loop (seq 0 num_platforms) []).
  cbv beta in Eo. cbn [map app] in Eo. rewrite Eo.
  cbn [uploaded_files platform_names period_names].
  rewrite zipped_unzip. simpl. rewrite in_flat_map. split.
  - intros [[[o p'] t'] [Hc Hx]].
    apply in_flat_map in Hc as [i [Hi Hc]]. apply in_map_iff in Hc as [j [Hc Hj]].
    apply in_seq in Hi, Hj. injection Hc as <- <- <-.
    destruct (file_uploader i j) as [f'|] eqn:E; [|destruct Hx].
    destruct Hx as [Hx|[]]. injection Hx as -> <- <-.
    exists i, j. repeat split; auto; lia.
  - intros [i [j [Hi [Hj [Hf [-> ->]]]]]].
    exists (cell i j). split.
    + apply in_flat_map. exists i. split; [apply in_seq; lia|].
      apply in_map_iff. exists j. split; [reflexivity | apply in_seq; lia].
    + cbv beta. rewrite Hf. now left.
Qed.

End Cells.
End GridFacts.

(** X2: the frame [main] analyses is made of the files of the upload grid:
    there is none exactly when no uploader holds a file that loads, and
    otherwise its records are the rows of the loadable files, each tagged
    with the name of the platform and the label of the period of the
    uploader its file was put in. *)
Theorem uploads_keep_their_cell (num_platforms num_periods : nat)
    (period_label platform_name : nat -> string)
    (file_uploader : nat -> nat -> option Upload.workbook) :
  let df :=
    UploadGrid.df num_platforms num_periods period_label platform_name file_uploader in
  (df = None <->
   forall i j file,
     (i < num_platforms)%nat -> (j < num_periods)%nat ->
     file_uploader i j = Some file -> Upload.load_data file = None)
  /\ forall d,
       df = Some d ->
       forall r,
         In r d <->
         exists i j file rows r0,
           (i < num_platforms)%nat /\ (j < num_periods)%nat
           /\ file_uploader i j = Some file
           /\ Upload.load_data file = Some rows
           /\ In r0 rows
           /\ r = Upload.tag (platform_name i) (period_label j) r0.
Proof.
  intros df. unfold df, UploadGrid.df, Upload.combine_platform_data.
  set (v := UploadGrid.valid_files _ _ _ _ _).
  assert (Hv : forall f p t,
             In (f, p, t) v <->
             exists i j, (i < num_platforms)%nat /\ (j < num_periods)%nat
                         /\ file_uploader i j = Some f
                         /\ p = platform_name i /\ t = period_label j)
    by apply GridFacts.valid_files_In.
  cbv zeta. split.
  - destruct (0 <? length v)%nat eqn:El.
    + destruct (Upload.all_data _ _ _) as [|b bs] eqn:Ea; simpl.
      * pose proof (proj1 (UploadFacts.all_data_nil _ _ _) Ea) as Hn.
        rewrite GridFacts.zipped_unzip in Hn. clear Ea. rename Hn into Ea.
        split; auto. intros _ i j file Hi Hj Hf.
        apply (Ea file (platform_name i) (period_label j)), Hv. now exists i, j.
      * split; [discriminate|]. intros H. exfalso.
        assert (Hn : Upload.all_data (map (fun f => fst (fst f)) v)
                                     (map (fun f => snd (fst f)) v)
                                     (map (fun f => snd f) v) = [])
          by (apply UploadFacts.all_data_nil; rewrite GridFacts.zipped_unzip;
              intros f p t Hin; apply Hv in Hin as [i [j [Hi [Hj [Hf _]]]]]; eauto).
        congruence.
    + split; auto. intros _ i j file Hi Hj Hf. exfalso.
      assert (Hin : In (file, platform_name i, period_label j) v)
        by (apply Hv; now exists i, j).
      destruct v; [destruct Hin | discriminate].
  - intros d Hd r.
    destruct (0 <? length v)%nat; [|discriminate].
    destruct (0 <? length (Upload.all_data _ _ _))%nat; [|discriminate].
    injection Hd as <-.
    rewrite UploadFacts.all_data_In, GridFacts.zipped_unzip. split.
    + intros [file [p [t [rows [r0 [Hin [Hl [Hr0 ->]]]]]]]].
      apply Hv in Hin as [i [j [Hi [Hj [Hf [-> ->]]]]]].
      now exists i, j, file, rows, r0.
    + intros [i [j [file [rows [r0 [Hi [Hj [Hf [Hl [Hr0 ->]]]]]]]]]].
      exists file, (platform_name i), (period_label j), rows, r0.
      repeat split; auto. apply Hv. now exists i, j.
Qed.

(** ** Splitting a table by a column *)

Lemma filter_or_perm {A} (f g : A -> bool) (l : list A) :
  (forall x, f x = true -> g x = true -> False) ->
  Permutation (filter (fun x => f x || g x) l) (filter f l ++ filter g l).
Proof.
  intros Hd. induction l as [|x t IH]; simpl; auto.
  destruct (f x) eqn:Ef; simpl.
  - destruct (g x) eqn:Eg; [exfalso; eauto|]. now apply perm_skip.
  - destruct (g x) eqn:Eg; auto.
    now apply Permutation_cons_app.
Qed.

Lemma Permutation_flat_map {A B} (f g : A -> list B) (l : list A) :
  (forall a, In a l -> Permutation (f a) (g a)) ->
  Permutation (flat_map f l) (flat_map g l).
Proof.
  induction l as [|a t IH]; simpl; intros H; auto.
  apply Permutation_app; auto.
Qed.

Section Partition.
Context {A K : Type} `{KeyLaws K}.
Variable key : A -> K.

(** The blocks of distinct values of a column hold the rows that have one
    of the values, each once. *)
Lemma blocks_perm (ks : list K) (l : list A) :
  NoDup ks ->
  Permutation (flat_map (fun k => filter (fun x => keqb (key x) k) l) ks)
              (filter (fun x => existsb (keqb (key x)) ks) l).
Proof.
  induction 1 as [|k ks Hk Hnd IH]; simpl.
  - induction l; simpl; auto.
  - rewrite (filter_or_perm (fun x => keqb (key x) k)
                            (fun x => existsb (keqb (key x)) ks)).
    + now apply Permutation_app_head.
    + intros x E1 E2. apply keqb_eq in E1. apply existsb_exists in E2 as [k' [Hk' E2]].
      apply keqb_eq in E2. apply Hk. congruence.
Qed.

(** A loop over the distinct values of a column visits every row once. *)
Lemma partition_perm (l : list A) :
  Permutation
    (flat_map (fun k => filter (fun x => keqb (key x) k) l) (unique keqb (map key l)))
    l.
Proof.
  rewrite blocks_perm by apply unique_NoDup.
  rewrite PeriodChanges.filter_all; auto.
  intros x Hx. apply existsb_exists. exists (key x). split; [|apply keqb_refl].
  apply unique_In. now apply in_map.
Qed.

End Partition.

Module PeriodRows.
Import PeriodStats PeriodTable.

Lemma stats_keys (df : list record) :
  map row_key (stats df) = group_keys (fun r => Some (period r, platform r)) df.
Proof.
  unfold stats, groupby. rewrite !map_map. simpl.
  erewrite map_ext; [apply map_id|]. now intros [p plat].
Qed.

Lemma total_stats_keys (df : list record) :
  map row_key (total_stats df)
  = map (fun p => (p, ALL_PLATFORMS)) (group_keys (fun r => Some (period r)) df).
Proof.
  unfold total_stats, groupby. rewrite !map_map. reflexivity.
Qed.

Lemma rows_perm (fill_pad : bool) (df : list record) :
  Permutation (map f_row (calculate_period_stats fill_pad df)) (all_stats df).
Proof.
  unfold calculate_period_stats. rewrite TopTable.map_over_flat_map.
  eapply Permutation_trans; [|apply (partition_perm r_platform (all_stats df))].
  apply Permutation_flat_map. intros plat _.
  rewrite PeriodChanges.with_changes_eq, PeriodChanges.changes_after_rows.
  unfold platform_data. apply sort_by_perm.
Qed.

Lemma all_stats_keys_NoDup (df : list record) :
  (forall r, In r df -> platform r <> ALL_PLATFORMS) ->
  NoDup (map row_key (all_stats df)).
Proof.
  intros Hp. unfold all_stats. rewrite map_app, stats_keys, total_stats_keys.
  apply NoDup_app.
  - apply group_keys_NoDup.
  - apply NoDup_map_inj; [|apply group_keys_NoDup]. now intros a b [= ->].
  - intros [p plat] H1 H2. apply in_map_iff in H2 as [p' [[= <- <-] _]].
    apply group_keys_In in H1 as [r [Hr [= _ E]]]. now apply (Hp r).
Qed.

End PeriodRows.



Module ShareBounds.

Lemma share_bounds (v total : Q) :
  0 <= v -> v <= total ->
  BrandShare.share v total = NaN \/ percentage (BrandShare.share v total).
Proof.
  intros H0 Hle. destruct (Qeq_dec total 0) as [Hz|Hn].
  - left. apply ShareFacts.share_zero_total; auto.
    apply Qle_antisym; auto. now rewrite <- Hz.
  - right. rewrite ShareFacts.share_finite by auto.
    assert (Hp : 0 < total).
    { destruct (Qlt_le_dec 0 total) as [H|H]; auto.
      exfalso. apply Hn. apply Qle_antisym; auto. now apply Qle_trans with v. }
    exists (v / total * 100). split; auto.
    assert (H1 : 0 <= v / total) by (apply Qle_shift_div_l; auto; lra).
    assert (H2 : v / total <= 1) by (apply Qle_shift_div_r; auto; lra).
    split; lra.
Qed.

(** The share of a part of the records selected for the total. *)
Lemma part_share_bounds (f : record -> Q) (s1 s2 : record -> bool) (df : list record) :
  (forall r, s1 r = true -> s2 r = true) ->
  Forall (fun r => 0 <= f r) df ->
  let v := BrandShare.share (agg_sum f (filter s1 df)) (agg_sum f (filter s2 df)) in
  v = NaN \/ percentage v.
Proof.
  intros Hs Hf. apply share_bounds.
  - apply ZeroTotal.agg_sum_nonneg. now apply PeriodSums.Forall_filter_sub.
  - now apply ZeroTotal.agg_sum_sub.
Qed.

Import BrandShare.

Lemma brand_row_parts (df : list record) (x : row) :
  In x (brand_stats df) ->
  exists s1,
    (forall r, s1 r = true ->
       has_key (fun r => Some (period r, platform r)) (r_period x, r_platform x) r = true)
    /\ r_revenue x = agg_sum revenue (filter s1 df)
    /\ r_volume x = agg_sum volume (filter s1 df).
Proof.
  unfold brand_stats. rewrite in_map_iff.
  intros [[[[p plat] b] g] [<- Hin]]. simpl.
  apply groupby_In in Hin as [_ ->].
  eexists. split; [|split; reflexivity].
  intros r. unfold has_key. destruct (brand r) as [b'|]; simpl; [|discriminate].
  rewrite !BrandSums.keqb_pair. intros H.
  apply andb_true_iff in H as [H _]. exact H.
Qed.

Lemma rollup_row_parts (df : list record) (x : row) :
  In x (all_platform_brand_stats df) ->
  exists s1,
    (forall r, s1 r = true -> has_key (fun r => Some (period r)) (r_period x) r = true)
    /\ r_revenue x = agg_sum revenue (filter s1 df)
    /\ r_volume x = agg_sum volume (filter s1 df).
Proof.
  unfold all_platform_brand_stats. rewrite in_map_iff.
  intros [[[p b] g] [<- Hin]]. simpl.
  apply groupby_In in Hin as [_ ->].
  eexists. split; [|split; reflexivity].
  intros r. unfold has_key. destruct (brand r) as [b'|]; simpl; [|discriminate].
  rewrite !BrandSums.keqb_pair. intros H.
  apply andb_true_iff in H as [H _]. exact H.
Qed.

End ShareBounds.



Lemma concat_flat_map {A B} (f : A -> list (list B)) (l : list A) :
  concat (flat_map f l) = flat_map (fun a => concat (f a)) l.
Proof.
  induction l as [|a t IH]; simpl; auto.
  now rewrite concat_app, IH.
Qed.

Module SegmentRows.
Import Segment PriceSegments.

Section Binned.
Variable c : record -> option nat.

Local Abbreviation binned := (fun df : list record => map (fun r => (r, c r)) df).

Lemma segment_row_parts (df : list record) (x : row) :
  In x (segment_stats (binned df)) ->
  exists s1,
    (forall r, s1 r = true ->
       keqb (period r) (r_period x) && keqb (platform r) (r_platform x) = true)
    /\ r_revenue x = agg_sum revenue (filter s1 df)
    /\ r_volume x = agg_sum volume (filter s1 df).
Proof.
  unfold segment_stats. rewrite in_map_iff.
  intros [[[[p plat] sg] g] [<- Hin]]. simpl.
  apply groupby_In in Hin as [_ ->].
  rewrite (SegmentShares.records_filter c).
  eexists. split; [|split; reflexivity].
  intros r. unfold has_key. simpl. destruct (c r) as [s|]; simpl; [|discriminate].
  rewrite !BrandSums.keqb_pair. intros H.
  apply andb_true_iff in H as [H _]. apply andb_true_iff in H as [H1 H2].
  rewrite (keqb_sym (period r)), (keqb_sym (platform r)), H1, H2. reflexivity.
Qed.

Lemma segment_rollup_row_parts (df : list record) (x : row) :
  In x (all_platform_segment_stats (binned df)) ->
  exists s1,
    (forall r, s1 r = true -> keqb (period r) (r_period x) = true)
    /\ r_revenue x = agg_sum revenue (filter s1 df)
    /\ r_volume x = agg_sum volume (filter s1 df).
Proof.
  unfold all_platform_segment_stats. rewrite in_map_iff.
  intros [[[p sg] g] [<- Hin]]. simpl.
  apply groupby_In in Hin as [_ ->].
  rewrite (SegmentShares.records_filter c).
  eexists. split; [|split; reflexivity].
  intros r. unfold has_key. simpl. destruct (c r) as [s|]; simpl; [|discriminate].
  rewrite !BrandSums.keqb_pair. intros H.
  apply andb_true_iff in H as [H _]. now rewrite keqb_sym.
Qed.

End Binned.

(** The frames of [result_dfs] hold every row of the table once. *)
Lemma result_dfs_perm (fill_pad : bool) (all : list share_row) :
  Permutation (map f_row (concat (result_dfs fill_pad all))) all.
Proof.
  unfold result_dfs. rewrite concat_flat_map, TopTable.map_over_flat_map.
  eapply Permutation_trans;
    [|apply (partition_perm (fun x => r_platform (s_row x)) all)].
  apply Permutation_flat_map. intros plat _.
  set (pd := filter _ all).
  rewrite <- flat_map_concat_map, TopTable.map_over_flat_map.
  eapply Permutation_trans;
    [|apply (partition_perm (fun x => r_segment (s_row x)) pd)].
  apply Permutation_flat_map. intros sg _.
  rewrite SegmentResult.with_changes_rows. unfold segment_data. apply sort_by_perm.
Qed.

Lemma analyze_price_segments_perm (fill_pad : bool) (df : list record)
    (bins : list Q) :
  bins_valid bins = true ->
  let sdf := map (fun r => (r, cut bins (price r))) df in
  exists t,
    analyze_price_segments fill_pad df bins = Some t
    /\ Permutation (map f_row t)
         (map (platform_share_row sdf) (segment_stats sdf)
          ++ map (rollup_share_row sdf) (all_platform_segment_stats sdf)).
Proof.
  intros Hv sdf. unfold analyze_price_segments, with_segments. rewrite Hv. simpl.
  fold sdf. rewrite PriceSegmentFacts.all_segment_stats_eq. simpl.
  set (all := (_ ++ _)%list).
  destruct (empty (result_dfs fill_pad all)) eqn:E.
  - eexists. split; [reflexivity|].
    rewrite map_map. simpl. now rewrite map_id.
  - eexists. split; [reflexivity|]. apply result_dfs_perm.
Qed.

Local Abbreviation row_key :=
  (fun x : share_row => (r_period (s_row x), r_platform (s_row x), r_segment (s_row x))).

Lemma table_keys_NoDup (sdf : list segmented) :
  (forall x, In x sdf -> platform (fst x) <> ALL_PLATFORMS) ->
  NoDup (map row_key
             (map (platform_share_row sdf) (segment_stats sdf)
              ++ map (rollup_share_row sdf) (all_platform_segment_stats sdf))).
Proof.
  intros Hp. rewrite map_app, !map_map. simpl.
  unfold segment_stats, all_platform_segment_stats, groupby. rewrite !map_map. simpl.
  apply NoDup_app.
  - erewrite map_ext; [rewrite map_id; apply group_keys_NoDup|]. now intros [[p plat] s].
  - apply NoDup_map_inj; [|apply group_keys_NoDup].
    intros [p s] [p' s']. simpl. now intros [= -> ->].
  - intros k H1 H2.
    apply in_map_iff in H1 as [[[p plat] s] [<- H1]].
    apply in_map_iff in H2 as [[p' s'] [E _]]. simpl in E. injection E as _ E _.
    apply group_keys_In in H1 as [x [Hx Hk]].
    destruct (snd x); simpl in Hk; [|discriminate]. injection Hk as _ Hk _.
    apply (Hp x Hx). congruence.
Qed.

End SegmentRows.





Module SegmentSums.
Import Segment PriceSegments.

Local Abbreviation seg_key3 :=
  (fun x : segmented =>
     option_map (fun s => (period (fst x), platform (fst x), s)) (snd x)).

Lemma segment_stats_sum (P : string * string * nat -> bool) (sdf : list segmented) :
  sumQ (map r_revenue
            (filter (fun x => P (r_period x, r_platform x, r_segment x))
                    (segment_stats sdf)))
  == sumQ (map (fun x => revenue (fst x))
               (filter (fun x => match seg_key3 x with
                                 | Some k => P k
                                 | None => false
                                 end) sdf)).
Proof.
  rewrite <- (groupby_sum seg_key3 (fun x => revenue (fst x)) P sdf).
  unfold segment_stats. rewrite filter_map_comm, map_map.
  erewrite filter_ext.
  - erewrite map_ext; [reflexivity|].
    intros [[[p plat] s] g]. simpl. unfold agg_sum, records. now rewrite map_map.
  - intros [[[p plat] s] g]. reflexivity.
Qed.

End SegmentSums.


(** ** Ranking the rows of a stratum *)

Section Ranked.
Context {R : Type}.
Variable rev : R -> Q.

Local Abbreviation leb := (fun a b : R => Qle_bool (rev b) (rev a)).

Lemma leb_total (a b : R) : leb a b = false -> leb b a = true.
Proof.
  intros E. apply Qle_bool_iff.
  destruct (Qlt_le_dec (rev a) (rev b)) as [Hlt|Hle].
  - now apply Qlt_le_weak.
  - apply Qle_bool_iff in Hle. simpl in E. congruence.
Qed.

Lemma sort_desc (l : list R) :
  StronglySorted (fun a b => rev b <= rev a) (sort_by leb l).
Proof.
  assert (Hs : StronglySorted (fun a b => leb a b = true) (sort_by leb l)).
  { apply Sorted_StronglySorted.
    - intros a b c. simpl. rewrite !Qle_bool_iff. intros H1 H2.
      now apply Qle_trans with (rev b).
    - apply sort_by_sorted. apply leb_total. }
  induction Hs as [|x t _ IH Hx]; constructor; auto.
  eapply Forall_impl; [|exact Hx].
  intros y Hy. now apply Qle_bool_iff.
Qed.

Lemma desc_app (l1 l2 : list R) :
  StronglySorted (fun a b => rev b <= rev a) (l1 ++ l2) ->
  StronglySorted (fun a b => rev b <= rev a) l1
  /\ forall x y, In x l1 -> In y l2 -> rev y <= rev x.
Proof.
  induction l1 as [|a t IH]; simpl; intros H.
  - split; [constructor | intros x y []].
  - inversion H as [|? ? Hs Hf]; subst. destruct (IH Hs) as [IH1 IH2]. split.
    + constructor; auto. rewrite Forall_forall in *.
      intros y Hy. apply Hf, in_or_app. auto.
    + intros x y [<-|Hx] Hy; auto.
      rewrite Forall_forall in Hf. apply Hf, in_or_app. auto.
Qed.

(** What [sort_values(ascending=False).head(n)] keeps of a frame. *)
Lemma ranked_spec (n : nat) (c : list R) :
  let top := firstn n (sort_by leb c) in
  length top = Nat.min n (length c)
  /\ StronglySorted (fun a b => rev b <= rev a) top
  /\ exists rest,
       Permutation (top ++ rest) c
       /\ forall x y, In x top -> In y rest -> rev y <= rev x.
Proof.
  intros top. unfold top.
  assert (Hf := sort_desc c).
  rewrite <- (firstn_skipn n (sort_by leb c)) in Hf.
  apply desc_app in Hf as [Hf1 Hf2].
  split; [|split; auto].
  - now rewrite length_firstn, sort_by_length.
  - exists (skipn n (sort_by leb c)). split; auto.
    rewrite firstn_skipn. apply sort_by_perm.
Qed.

Lemma ranked_sub (n : nat) (c : list R) (x : R) :
  In x (firstn n (sort_by leb c)) -> In x c.
Proof.
  intros Hx. apply (sort_by_In leb).
  rewrite <- (firstn_skipn n (sort_by leb c)).
  apply in_or_app. now left.
Qed.

End Ranked.

(** ** Loops over the values of two and of three columns *)

Section Loops2.
Context {R K1 K2 : Type} `{KeyLaws K1} `{KeyLaws K2}.
Variables (k1 : R -> K1) (k2 : R -> K2).
Variable F : list R -> list R.
Hypothesis F_sub : forall l x, In x (F l) -> In x l.

Local Abbreviation stratum2 :=
  (fun (t : list R) (a : K1) (b : K2) =>
     filter (fun x => keqb (k1 x) a && keqb (k2 x) b) t).

Local Abbreviation frames2 :=
  (fun t : list R =>
     flat_map (fun a => map (fun b => F (stratum2 t a b)) (unique keqb (map k2 t)))
              (unique keqb (map k1 t))).

Lemma F_nil : F [] = [].
Proof.
  destruct (F []) as [|x l] eqn:E; auto.
  exfalso. apply (F_sub [] x). rewrite E. now left.
Qed.

(** The rows of a stratum in the frames of the loops are the frame of the
    stratum. *)
Lemma loops2_stratum (t : list R) (a : K1) (b : K2) :
  stratum2 (concat (frames2 t)) a b = F (stratum2 t a b).
Proof.
  set (strata := flat_map (fun a => map (fun b => (a, b)) (unique keqb (map k2 t)))
                          (unique keqb (map k1 t))).
  assert (Hc : flat_map (fun k => F (stratum2 t (fst k) (snd k))) strata
               = concat (frames2 t)).
  { rewrite flat_map_concat_map. f_equal. unfold strata.
    rewrite TopTable.map_over_flat_map. apply flat_map_ext. intros p.
    now rewrite map_map. }
  assert (Hnd : NoDup strata).
  { unfold strata. apply NoDup_flat_map.
    - apply unique_NoDup.
    - intros p _. apply NoDup_map_inj; [|apply unique_NoDup].
      now intros x y [= ->].
    - intros x y k _ _ Hx Hy.
      apply in_map_iff in Hx as [sa [<- _]].
      apply in_map_iff in Hy as [sb [[= -> _] _]]. reflexivity. }
  cbv beta in *. rewrite <- Hc.
  rewrite (filter_ext _ (fun x => keqb (k1 x, k2 x) (a, b)))
    by (intros x; now rewrite BrandSums.keqb_pair).
  rewrite (filter_blocks (fun x => (k1 x, k2 x))
             (fun k => F (stratum2 t (fst k) (snd k)))); auto.
  - simpl. destruct (existsb (keqb (a, b)) strata) eqn:E; auto.
    destruct (filter (fun x => keqb (k1 x) a && keqb (k2 x) b) t) as [|x c] eqn:Ec;
      [symmetry; apply F_nil|].
    exfalso.
    assert (Hx : In x (filter (fun x => keqb (k1 x) a && keqb (k2 x) b) t))
      by (rewrite Ec; now left).
    apply filter_In in Hx as [Hin Hx].
    rewrite !andb_true_iff, !keqb_eq in Hx. destruct Hx as [Ha Hb].
    assert (Hk : In (a, b) strata).
    { unfold strata. apply in_flat_map. exists a. split.
      - apply unique_In, in_map_iff. eauto.
      - apply in_map_iff. exists b. split; auto.
        apply unique_In, in_map_iff. eauto. }
    assert (Ht : existsb (keqb (a, b)) strata = true).
    { apply existsb_exists. exists (a, b). split; auto. apply keqb_refl. }
    congruence.
  - intros [a' b'] x Hx. simpl in Hx. apply F_sub in Hx.
    apply filter_In in Hx as [_ Hx].
    rewrite !andb_true_iff, !keqb_eq in Hx. destruct Hx as [Ha Hb]. congruence.
Qed.

End Loops2.

Lemma flat_map_sub_perm {A B} (f g : A -> list B) (l : list A) :
  (forall a, exists rest, Permutation (f a ++ rest) (g a)) ->
  exists rest, Permutation (flat_map f l ++ rest) (flat_map g l).
Proof.
  intros Hf. induction l as [|a t [rest IH]]; simpl.
  - exists []. constructor.
  - destruct (Hf a) as [r Hr]. exists (r ++ rest)%list.
    rewrite <- Hr, <- IH. rewrite <- !app_assoc. apply Permutation_app_head.
    rewrite !app_assoc. apply Permutation_app_tail. apply Permutation_app_comm.
Qed.

Lemma NoDup_sub_perm {A B} (key : A -> B) (out rest t : list A) :
  Permutation (out ++ rest) t -> NoDup (map key t) -> NoDup (map key out).
Proof.
  intros Hp Hnd.
  assert (H : NoDup (map key (out ++ rest))).
  { eapply Permutation_NoDup; [apply Permutation_map; symmetry; exact Hp | exact Hnd]. }
  rewrite map_app in H. now apply NoDup_app_remove_r in H.
Qed.

Section Loops2Perm.
Context {R K1 K2 : Type} `{KeyLaws K1} `{KeyLaws K2}.
Variables (k1 : R -> K1) (k2 : R -> K2).
Variable F : list R -> list R.
Hypothesis F_perm : forall l, exists rest, Permutation (F l ++ rest) l.

(** The frames of the loops hold rows of the table, none twice. *)
Lemma loops2_sub_perm (ks1 : list K1) (ks2 : list K2) (t : list R) :
  NoDup ks1 -> NoDup ks2 ->
  (forall x, In x t -> In (k1 x) ks1) ->
  (forall x, In x t -> In (k2 x) ks2) ->
  exists rest,
    Permutation
      (concat
         (flat_map
            (fun a => map (fun b => F (filter (fun x => keqb (k1 x) a && keqb (k2 x) b) t))
                          ks2)
            ks1)
       ++ rest)
      t.
Proof.
  intros Hn1 Hn2 Hc1 Hc2. rewrite concat_flat_map.
  destruct (flat_map_sub_perm
              (fun a => concat (map (fun b => F (filter (fun x => keqb (k1 x) a
                                                                && keqb (k2 x) b) t))
                                    ks2))
              (fun a => filter (fun x => keqb (k1 x) a) t)
              ks1) as [rest Hrest].
  - intros a. rewrite <- flat_map_concat_map.
    destruct (flat_map_sub_perm
                (fun b => F (filter (fun x => keqb (k1 x) a && keqb (k2 x) b) t))
                (fun b => filter (fun x => keqb (k2 x) b)
                                 (filter (fun x => keqb (k1 x) a) t))
                ks2) as [rest Hrest].
    + intros b. rewrite filter_filter. apply F_perm.
    + exists rest. rewrite Hrest.
      rewrite blocks_perm by assumption.
      rewrite PeriodChanges.filter_all; auto.
      intros x Hx. apply filter_In in Hx as [Hx _].
      apply existsb_exists. exists (k2 x). split; [|apply keqb_refl]. auto.
  - exists rest. rewrite Hrest.
    rewrite blocks_perm by assumption.
    rewrite PeriodChanges.filter_all; auto.
    intros x Hx. apply existsb_exists. exists (k1 x). split; [|apply keqb_refl]. auto.
Qed.

End Loops2Perm.

Section Loops3.
Context {R K1 K2 K3 : Type} `{KeyLaws K1} `{KeyLaws K2} `{KeyLaws K3}.
Variables (k1 : R -> K1) (k2 : R -> K2) (k3 : R -> K3).
Variable F : list R -> list R.
Hypothesis F_sub : forall l x, In x (F l) -> In x l.

Lemma loops3_stratum (t : list R) (a : K1) (b : K2) (c : K3) :
  filter (fun x => keqb (k1 x) a && keqb (k2 x) b && keqb (k3 x) c)
    (concat
       (flat_map
          (fun a =>
             flat_map
               (fun b =>
                  map (fun c => F (filter (fun x => keqb (k1 x) a && keqb (k2 x) b
                                                    && keqb (k3 x) c) t))
                      (unique keqb (map k3 t)))
               (unique keqb (map k2 t)))
          (unique keqb (map k1 t))))
  = F (filter (fun x => keqb (k1 x) a && keqb (k2 x) b && keqb (k3 x) c) t).
Proof.
  set (strata :=
         flat_map (fun a => flat_map (fun b => map (fun c => (a, b, c))
                                                   (unique keqb (map k3 t)))
                                     (unique keqb (map k2 t)))
                  (unique keqb (map k1 t))).
  assert (Hc : flat_map
                 (fun k => F (filter (fun x => keqb (k1 x) (fst (fst k))
                                               && keqb (k2 x) (snd (fst k))
                                               && keqb (k3 x) (snd k)) t))
                 strata
               = concat
                   (flat_map
                      (fun a =>
                         flat_map
                           (fun b =>
                              map (fun c => F (filter (fun x => keqb (k1 x) a
                                                                && keqb (k2 x) b
                                                                && keqb (k3 x) c) t))
                                  (unique keqb (map k3 t)))
                           (unique keqb (map k2 t)))
                      (unique keqb (map k1 t)))).
  { rewrite flat_map_concat_map. f_equal. unfold strata.
    rewrite TopTable.map_over_flat_map. apply flat_map_ext. intros p.
    rewrite TopTable.map_over_flat_map. apply flat_map_ext. intros q.
    now rewrite map_map. }
  assert (Hnd : NoDup strata).
  { unfold strata. apply NoDup_flat_map.
    - apply unique_NoDup.
    - intros p _. apply NoDup_flat_map.
      + apply unique_NoDup.
      + intros q _. apply NoDup_map_inj; [|apply unique_NoDup].
        now intros x y [= ->].
      + intros x y k _ _ Hx Hy.
        apply in_map_iff in Hx as [sa [<- _]].
        apply in_map_iff in Hy as [sb [[= -> _] _]]. reflexivity.
    - intros x y k _ _ Hx Hy.
      apply in_flat_map in Hx as [pa [_ Hx]]. apply in_map_iff in Hx as [sa [<- _]].
      apply in_flat_map in Hy as [pb [_ Hy]].
      apply in_map_iff in Hy as [sb [[= -> _ _] _]]. reflexivity. }
  rewrite <- Hc.
  rewrite (filter_ext _ (fun x => keqb (k1 x, k2 x, k3 x) (a, b, c)))
    by (intros x; now rewrite !BrandSums.keqb_pair).
  rewrite (filter_blocks (fun x => (k1 x, k2 x, k3 x))
             (fun k => F (filter (fun x => keqb (k1 x) (fst (fst k))
                                           && keqb (k2 x) (snd (fst k))
                                           && keqb (k3 x) (snd k)) t))); auto.
  - simpl. destruct (existsb (keqb (a, b, c)) strata) eqn:E; auto.
    destruct (filter (fun x => keqb (k1 x) a && keqb (k2 x) b && keqb (k3 x) c) t)
      as [|x l] eqn:Ec; [symmetry; apply (F_nil F F_sub)|].
    exfalso.
    assert (Hx : In x (filter (fun x => keqb (k1 x) a && keqb (k2 x) b
                                        && keqb (k3 x) c) t))
      by (rewrite Ec; now left).
    apply filter_In in Hx as [Hin Hx].
    rewrite !andb_true_iff, !keqb_eq in Hx. destruct Hx as [[Ha Hb] Hc'].
    assert (Hk : In (a, b, c) strata).
    { unfold strata. apply in_flat_map. exists a. split.
      - apply unique_In, in_map_iff. eauto.
      - apply in_flat_map. exists b. split.
        + apply unique_In, in_map_iff. eauto.
        + apply in_map_iff. exists c. split; auto.
          apply unique_In, in_map_iff. eauto. }
    assert (Ht : existsb (keqb (a, b, c)) strata = true).
    { apply existsb_exists. exists (a, b, c). split; auto. apply keqb_refl. }
    congruence.
  - intros [[a' b'] c'] x Hx. simpl in Hx. apply F_sub in Hx.
    apply filter_In in Hx as [_ Hx].
    rewrite !andb_true_iff, !keqb_eq in Hx. destruct Hx as [[Ha Hb] Hc']. congruence.
Qed.

End Loops3.

Section Loops3Perm.
Context {R K1 K2 K3 : Type} `{KeyLaws K1} `{KeyLaws K2} `{KeyLaws K3}.
Variables (k1 : R -> K1) (k2 : R -> K2) (k3 : R -> K3).
Variable F : list R -> list R.
Hypothesis F_perm : forall l, exists rest, Permutation (F l ++ rest) l.

Lemma loops3_sub_perm (t : list R) :
  exists rest,
    Permutation
      (concat
         (flat_map
            (fun a =>
               flat_map
                 (fun b =>
                    map (fun c => F (filter (fun x => keqb (k1 x) a && keqb (k2 x) b
                                                      && keqb (k3 x) c) t))
                        (unique keqb (map k3 t)))
                 (unique keqb (map k2 t)))
            (unique keqb (map k1 t)))
       ++ rest)
      t.
Proof.
  rewrite concat_flat_map.
  destruct (flat_map_sub_perm
              (fun a =>
                 concat
                   (flat_map
                      (fun b =>
                         map (fun c => F (filter (fun x => keqb (k1 x) a && keqb (k2 x) b
                                                           && keqb (k3 x) c) t))
                             (unique keqb (map k3 t)))
                      (unique keqb (map k2 t))))
              (fun a => filter (fun x => keqb (k1 x) a) t)
              (unique keqb (map k1 t))) as [rest Hrest].
  - intros a.
    destruct (loops2_sub_perm k2 k3 F F_perm
                (unique keqb (map k2 t)) (unique keqb (map k3 t))
                (filter (fun x => keqb (k1 x) a) t)) as [rest Hrest].
    + apply unique_NoDup.
    + apply unique_NoDup.
    + intros x Hx. apply filter_In in Hx as [Hx _].
      apply unique_In. now apply in_map.
    + intros x Hx. apply filter_In in Hx as [Hx _].
      apply unique_In. now apply in_map.
    + exists rest. rewrite <- Hrest. apply Permutation_app_tail.
      apply Permutation_refl'. f_equal. apply flat_map_ext. intros b.
      apply map_ext. intros c. f_equal. rewrite filter_filter.
      apply filter_ext. intros x. now rewrite andb_assoc.
  - exists rest. rewrite Hrest. apply partition_perm.
Qed.

End Loops3Perm.

(** ** get_top_products_by_segment *)

Module TopProductFacts.
Import Segment TopProducts.

Lemma product_top_n_sub (n : nat) (l : list row) (x : row) : In x (top_n n l) -> In x l.
Proof. apply (ranked_sub r_revenue). Qed.

Lemma top_n_perm (n : nat) (l : list row) :
  exists rest, Permutation (top_n n l ++ rest) l.
Proof.
  destruct (ranked_spec r_revenue n l) as [_ [_ [rest [Hp _]]]]. now exists rest.
Qed.

(** The four branches of the return statement give the same table. *)
Lemma get_top_products_by_segment_eq (df : list record) (bins : list Q) (n : nat) :
  bins_valid bins = true ->
  let sdf := map (fun r => (r, cut bins (price r))) df in
  get_top_products_by_segment df bins n
  = Some (concat (result_dfs n (top_products sdf))
          ++ concat (all_platform_result_dfs n (all_platform_top_products sdf)))%list.
Proof.
  intros Hv sdf. unfold get_top_products_by_segment, with_segments.
  rewrite Hv. simpl. fold sdf.
  destruct (result_dfs n (top_products sdf)) as [|d ds];
    destruct (all_platform_result_dfs n (all_platform_top_products sdf)) as [|a al];
    simpl; rewrite ?app_nil_r; try reflexivity.
  rewrite concat_app. simpl. now rewrite app_assoc.
Qed.

Lemma product_stratum_of_result (n : nat) (t : list row) (p plat : string) (seg : nat) :
  candidates (concat (result_dfs n t)) p plat seg = top_n n (candidates t p plat seg).
Proof.
  apply (loops3_stratum r_period r_platform r_segment (top_n n) (product_top_n_sub n)).
Qed.

Lemma product_rollup_stratum_of_result (n : nat) (t : list row) (p : string) (seg : nat) :
  all_platform_candidates (concat (all_platform_result_dfs n t)) p seg
  = top_n n (all_platform_candidates t p seg).
Proof.
  apply (loops2_stratum r_period r_segment (top_n n) (product_top_n_sub n)).
Qed.

Lemma product_result_sub_perm (n : nat) (t : list row) :
  exists rest, Permutation (concat (result_dfs n t) ++ rest) t.
Proof.
  apply (loops3_sub_perm r_period r_platform r_segment (top_n n) (top_n_perm n)).
Qed.

Lemma rollup_result_sub_perm (n : nat) (t : list row) :
  exists rest, Permutation (concat (all_platform_result_dfs n t) ++ rest) t.
Proof.
  apply (loops2_sub_perm r_period r_segment (top_n n) (top_n_perm n));
    try apply unique_NoDup;
    intros x Hx; apply unique_In; now apply in_map.
Qed.

Lemma top_products_keys (sdf : list segmented) :
  map row_key (top_products sdf) = group_keys product_key sdf.
Proof.
  unfold top_products, groupby. rewrite !map_map. simpl.
  erewrite map_ext; [apply map_id|]. now intros [[[[p plat] s] nm] lk].
Qed.

Lemma rollup_keys (sdf : list segmented) :
  map row_key (all_platform_top_products sdf)
  = map (fun k => match k with (p, s, nm, lk) => (p, ALL_PLATFORMS, s, nm, lk) end)
        (group_keys rollup_key sdf).
Proof.
  unfold all_platform_top_products, groupby. rewrite !map_map. simpl.
  apply map_ext. now intros [[[p s] nm] lk].
Qed.

Lemma top_products_platform (sdf : list segmented) (x : row) :
  In x (top_products sdf) ->
  exists r, In r sdf /\ platform (fst r) = r_platform x.
Proof.
  intros Hx. assert (Hk : In (row_key x) (group_keys product_key sdf)).
  { rewrite <- top_products_keys. now apply in_map. }
  apply group_keys_In in Hk as [r [Hr Hk]]. exists r. split; auto.
  unfold product_key in Hk. destruct (snd r); simpl in Hk; [|discriminate].
  unfold row_key in Hk. congruence.
Qed.

Lemma rollup_platform (sdf : list segmented) (x : row) :
  In x (all_platform_top_products sdf) -> r_platform x = ALL_PLATFORMS.
Proof.
  unfold all_platform_top_products. rewrite in_map_iff.
  intros [[[[[p s] nm] lk] g] [<- _]]. reflexivity.
Qed.

Section Binned.
Variable c : record -> option nat.

Local Abbreviation binned := (fun df : list record => map (fun r => (r, c r)) df).

Lemma product_records_filter (f : segmented -> bool) (df : list record) :
  records (filter f (binned df)) = filter (fun r => f (r, c r)) df.
Proof.
  unfold records. rewrite filter_map_comm, map_map. simpl. apply map_id.
Qed.

(** A row aggregates the records of its product in its stratum. *)
Lemma top_products_row (df : list record) (x : row) :
  In x (top_products (binned df)) ->
  let g := filter (fun r => keqb (period r) (r_period x)
                            && keqb (platform r) (r_platform x)
                            && match c r with
                               | Some s => keqb s (r_segment x)
                               | None => false
                               end
                            && keqb (name r) (r_name x)
                            && keqb (link r) (r_link x)) df in
  g <> []
  /\ r_revenue x = agg_sum revenue g
  /\ r_volume x = agg_sum volume g
  /\ r_price x = agg_mean price g.
Proof.
  unfold top_products. rewrite in_map_iff.
  intros [[[[[[p plat] sg] nm] lk] g] [<- Hin]]. simpl.
  assert (Hne := groupby_nonempty _ _ _ _ Hin).
  apply groupby_In in Hin as [_ ->].
  assert (E : records (filter (has_key product_key (p, plat, sg, nm, lk)) (binned df))
              = filter (fun r => keqb (period r) p && keqb (platform r) plat
                                 && match c r with
                                    | Some s => keqb s sg
                                    | None => false
                                    end
                                 && keqb (name r) nm && keqb (link r) lk) df).
  { rewrite product_records_filter. apply filter_ext. intros r.
    unfold has_key, product_key. simpl. destruct (c r) as [s|]; simpl.
    - rewrite !BrandSums.keqb_pair.
      rewrite (keqb_sym p), (keqb_sym plat), (keqb_sym sg), (keqb_sym nm), (keqb_sym lk).
      reflexivity.
    - now rewrite andb_false_r. }
  rewrite E. repeat split; auto.
  intros Hnil. apply Hne. rewrite Hnil in E. unfold records in E.
  now apply map_eq_nil in E.
Qed.

Lemma rollup_row (df : list record) (x : row) :
  In x (all_platform_top_products (binned df)) ->
  let g := filter (fun r => keqb (period r) (r_period x)
                            && match c r with
                               | Some s => keqb s (r_segment x)
                               | None => false
                               end
                            && keqb (name r) (r_name x)
                            && keqb (link r) (r_link x)) df in
  g <> []
  /\ r_revenue x = agg_sum revenue g
  /\ r_volume x = agg_sum volume g
  /\ r_price x = agg_mean price g.
Proof.
  unfold all_platform_top_products. rewrite in_map_iff.
  intros [[[[[p sg] nm] lk] g] [<- Hin]]. simpl.
  assert (Hne := groupby_nonempty _ _ _ _ Hin).
  apply groupby_In in Hin as [_ ->].
  assert (E : records (filter (has_key rollup_key (p, sg, nm, lk)) (binned df))
              = filter (fun r => keqb (period r) p
                                 && match c r with
                                    | Some s => keqb s sg
                                    | None => false
                                    end
                                 && keqb (name r) nm && keqb (link r) lk) df).
  { rewrite product_records_filter. apply filter_ext. intros r.
    unfold has_key, rollup_key. simpl. destruct (c r) as [s|]; simpl.
    - rewrite !BrandSums.keqb_pair.
      rewrite (keqb_sym p), (keqb_sym sg), (keqb_sym nm), (keqb_sym lk).
      reflexivity.
    - now rewrite andb_false_r. }
  rewrite E. repeat split; auto.
  intros Hnil. apply Hne. rewrite Hnil in E. unfold records in E.
  now apply map_eq_nil in E.
Qed.

End Binned.

End TopProductFacts.

(** X12: on valid boundaries [get_top_products_by_segment] returns the per-
    platform frames followed by the rollup frames.  Of each (period,
    platform, segment) stratum, and of each (period, segment) stratum of the
    rollup, it keeps [n] products or all when there are fewer, by falling
    revenue, and no product left out has a higher revenue than one that is
    kept. *)
Theorem top_products_per_stratum (df : list record) (bins : list Q) (n : nat) :
  Segment.bins_valid bins = true ->
  let sdf := map (fun r => (r, Segment.cut bins (price r))) df in
  let t := TopProducts.top_products sdf in
  let r := TopProducts.all_platform_top_products sdf in
  let kept c :=
    length (TopProducts.top_n n c) = Nat.min n (length c)
    /\ TopProducts.falling (TopProducts.top_n n c)
    /\ exists rest,
         Permutation (TopProducts.top_n n c ++ rest) c
         /\ forall x y, In x (TopProducts.top_n n c) -> In y rest ->
              TopProducts.r_revenue y <= TopProducts.r_revenue x in
  exists out,
    TopProducts.get_top_products_by_segment df bins n = Some out
    /\ out = (concat (TopProducts.result_dfs n t)
              ++ concat (TopProducts.all_platform_result_dfs n r))%list
    /\ (forall p plat seg,
          kept (TopProducts.candidates t p plat seg)
          /\ TopProducts.candidates (concat (TopProducts.result_dfs n t)) p plat seg
             = TopProducts.top_n n (TopProducts.candidates t p plat seg))
    /\ (forall p seg,
          kept (TopProducts.all_platform_candidates r p seg)
          /\ TopProducts.all_platform_candidates
               (concat (TopProducts.all_platform_result_dfs n r)) p seg
             = TopProducts.top_n n (TopProducts.all_platform_candidates r p seg)).
Proof.
  intros Hv sdf t r kept.
  assert (Hkept : forall c, kept c)
    by (intros c; apply (ranked_spec TopProducts.r_revenue n c)).
  eexists. split; [now apply TopProductFacts.get_top_products_by_segment_eq|].
  split; [reflexivity|]. split.
  - intros p plat seg. split; [apply Hkept | apply TopProductFacts.product_stratum_of_result].
  - intros p seg. split; [apply Hkept | apply TopProductFacts.product_rollup_stratum_of_result].
Qed.

Lemma top_products_per_stratum_witness :
  let df := [ mkRecord "lamp" "u1" 100 1 50 (Some "x") "A" "P1";
              mkRecord "desk" "u2" 300 2 60 (Some "y") "A" "P1";
              mkRecord "bulb" "u3" 200 2 70 (Some "y") "A" "P1" ] in
  exists out,
    TopProducts.get_top_products_by_segment df [0; 100; 300] 2 = Some out
    /\ map TopProducts.r_name out = ["desk"; "bulb"; "desk"; "bulb"].
Proof.
  intros df.
  destruct (top_products_per_stratum df [0; 100; 300] 2 eq_refl)
    as [out [Hout [E _]]].
  exists out. split; [exact Hout|]. rewrite E. vm_compute. reflexivity.
Defined.

(** X13: when no platform is called 所有平台, no product is listed twice in a
    stratum of the top products table, and every row carries the summed
    revenue, the summed volume and the mean price of the records of its
    product, of which there is at least one. *)
Theorem top_products_rows (df : list record) (bins : list Q) (n : nat) :
  Segment.bins_valid bins = true ->
  let c := fun r => Segment.cut bins (price r) in
  let group (x : TopProducts.row) :=
    filter (fun r => (keqb (TopProducts.r_platform x) ALL_PLATFORMS
                      || keqb (platform r) (TopProducts.r_platform x))
                     && keqb (period r) (TopProducts.r_period x)
                     && match c r with
                        | Some s => keqb s (TopProducts.r_segment x)
                        | None => false
                        end
                     && keqb (name r) (TopProducts.r_name x)
                     && keqb (link r) (TopProducts.r_link x)) df in
  exists out,
    TopProducts.get_top_products_by_segment df bins n = Some out
    /\ ((forall r, In r df -> platform r <> ALL_PLATFORMS) ->
        NoDup (map TopProducts.row_key out)
        /\ forall x, In x out ->
             group x <> []
             /\ TopProducts.r_revenue x = agg_sum revenue (group x)
             /\ TopProducts.r_volume x = agg_sum volume (group x)
             /\ TopProducts.r_price x = agg_mean price (group x)).
Proof.
  intros Hv c group.
  eexists. split; [now apply TopProductFacts.get_top_products_by_segment_eq|].
  intros Hp.
  set (sdf := map (fun r => (r, Segment.cut bins (price r))) df).
  set (t := TopProducts.top_products sdf).
  set (r := TopProducts.all_platform_top_products sdf).
  assert (Ht : forall x, In x (concat (TopProducts.result_dfs n t)) -> In x t).
  { intros x Hx. destruct (TopProductFacts.product_result_sub_perm n t) as [rest Hperm].
    eapply Permutation_in; [exact Hperm|]. apply in_or_app. now left. }
  assert (Hr : forall x, In x (concat (TopProducts.all_platform_result_dfs n r)) ->
                         In x r).
  { intros x Hx. destruct (TopProductFacts.rollup_result_sub_perm n r) as [rest Hperm].
    eapply Permutation_in; [exact Hperm|]. apply in_or_app. now left. }
  assert (Htp : forall x, In x t -> TopProducts.r_platform x <> ALL_PLATFORMS).
  { intros x Hx. apply TopProductFacts.top_products_platform in Hx as [y [Hy <-]].
    apply in_map_iff in Hy as [r0 [<- Hr0]]. now apply Hp. }
  split.
  - rewrite map_app. apply NoDup_app.
    + destruct (TopProductFacts.product_result_sub_perm n t) as [rest Hperm].
      apply (NoDup_sub_perm _ _ _ _ Hperm).
      unfold t. rewrite TopProductFacts.top_products_keys. apply group_keys_NoDup.
    + destruct (TopProductFacts.rollup_result_sub_perm n r) as [rest Hperm].
      apply (NoDup_sub_perm _ _ _ _ Hperm).
      unfold r. rewrite TopProductFacts.rollup_keys.
      apply NoDup_map_inj; [|apply group_keys_NoDup].
      intros [[[p s] nm] lk] [[[p' s'] nm'] lk']. now intros [= -> -> -> ->].
    + intros k H1 H2.
      apply in_map_iff in H1 as [x [<- Hx]]. apply in_map_iff in H2 as [y [E Hy]].
      apply Ht in Hx. apply Hr, TopProductFacts.rollup_platform in Hy.
      apply (Htp x Hx). unfold TopProducts.row_key in E. congruence.
  - intros x Hx. apply in_app_or in Hx as [Hx|Hx].
    + apply Ht in Hx. assert (Hx' := Htp x Hx).
      destruct (TopProductFacts.top_products_row c df x Hx) as [H1 [H2 [H3 H4]]].
      assert (E : group x
                  = filter (fun r => keqb (period r) (TopProducts.r_period x)
                                     && keqb (platform r) (TopProducts.r_platform x)
                                     && match c r with
                                        | Some s => keqb s (TopProducts.r_segment x)
                                        | None => false
                                        end
                                     && keqb (name r) (TopProducts.r_name x)
                                     && keqb (link r) (TopProducts.r_link x)) df).
      { unfold group. apply filter_ext. intros r0.
        rewrite (proj2 (keqb_neq _ _) Hx'). simpl.
        now rewrite (andb_comm (keqb (platform r0) _)). }
      rewrite E. auto.
    + apply Hr in Hx. assert (Hx' := TopProductFacts.rollup_platform sdf x Hx).
      destruct (TopProductFacts.rollup_row c df x Hx) as [H1 [H2 [H3 H4]]].
      assert (E : group x
                  = filter (fun r => keqb (period r) (TopProducts.r_period x)
                                     && match c r with
                                        | Some s => keqb s (TopProducts.r_segment x)
                                        | None => false
                                        end
                                     && keqb (name r) (TopProducts.r_name x)
                                     && keqb (link r) (TopProducts.r_link x)) df).
      { unfold group. apply filter_ext. intros r0.
        rewrite Hx', keqb_refl. reflexivity. }
      rewrite E. auto.
Qed.

Module Top10Facts.
Import BrandShare Top10.

Local Abbreviation rev := (fun x : share_row => r_revenue (s_row x)).
Local Abbreviation top := (fun l : list share_row => head 10 (sort_by by_revenue_desc l)).

Lemma top_sub (l : list share_row) (x : share_row) : In x (top l) -> In x l.
Proof. apply (ranked_sub rev). Qed.

Lemma top_perm (l : list share_row) : exists rest, Permutation (top l ++ rest) l.
Proof.
  destruct (ranked_spec rev 10 l) as [_ [_ [rest [Hp _]]]]. now exists rest.
Qed.

Lemma top_10_stratum_of_result (t : list share_row) (p platform : string) :
  stratum p platform (concat (top_10_brands_list t)) = platform_period_data t p platform.
Proof.
  apply (loops2_stratum (fun x => r_period (s_row x)) (fun x => r_platform (s_row x))
                        top top_sub).
Qed.

Lemma top_10_result_sub_perm (t : list share_row) :
  exists rest, Permutation (concat (top_10_brands_list t) ++ rest) t.
Proof.
  apply (loops2_sub_perm (fun x => r_period (s_row x)) (fun x => r_platform (s_row x))
                         top top_perm);
    try apply unique_NoDup;
    intros x Hx; apply unique_In;
    [apply (in_map (fun x => r_period (s_row x))) | apply (in_map (fun x => r_platform (s_row x)))];
    exact Hx.
Qed.

Lemma top_10_brands_Some (t : list share_row) :
  t <> [] -> top_10_brands t = Some (concat (top_10_brands_list t)).
Proof.
  intros Hne. unfold top_10_brands.
  destruct (top_10_brands_list t) as [|f fs] eqn:E; [|reflexivity].
  exfalso. destruct t as [|x t']; [congruence|].
  unfold top_10_brands_list in E. simpl in E. discriminate.
Qed.

End Top10Facts.

(** X14: the TOP10 table of [main] cannot be made from an empty brand table
    ([pd.concat] raises).  Otherwise it holds, for every period and
    platform, the ten brands of the stratum with the highest revenue, or all
    when there are fewer, by falling revenue. *)
Theorem top_10_per_stratum (brand_stats : list BrandShare.share_row) :
  Top10.top_10_brands [] = None
  /\ (brand_stats <> [] ->
      exists out,
        Top10.top_10_brands brand_stats = Some out
        /\ forall p platform,
             let c := BrandShare.stratum p platform brand_stats in
             let kept := BrandShare.stratum p platform out in
             kept = Top10.platform_period_data brand_stats p platform
             /\ length kept = Nat.min 10 (length c)
             /\ Top10.falling kept
             /\ exists rest,
                  Permutation (kept ++ rest) c
                  /\ forall x y, In x kept -> In y rest ->
                       BrandShare.r_revenue (BrandShare.s_row y)
                       <= BrandShare.r_revenue (BrandShare.s_row x)).
Proof.
  split; [reflexivity|]. intros Hne.
  eexists. split; [now apply Top10Facts.top_10_brands_Some|].
  intros p platform c kept. unfold kept.
  rewrite Top10Facts.top_10_stratum_of_result. split; [reflexivity|].
  apply (ranked_spec (fun x => BrandShare.r_revenue (BrandShare.s_row x)) 10 c).
Qed.

Module PeriodSheet.
Import PeriodStats PeriodComparison.

Lemma get_set (d : dict) (k k' : string) (v : cell) :
  get (set d k v) k' = if String.eqb k' k then Some v else get d k'.
Proof.
  induction d as [|[k0 v0] t IH]; simpl.
  - reflexivity.
  - destruct (String.eqb k k0) eqn:E; simpl.
    + apply String.eqb_eq in E. subst k0. destruct (String.eqb k' k); reflexivity.
    + destruct (String.eqb k' k0) eqn:E0.
      * apply String.eqb_eq in E0. subst k0.
        rewrite String.eqb_sym in E. now rewrite E.
      * exact IH.
Qed.

Lemma set_clean (ps : list string) (row : dict) (k : string) (v : option fval) :
  finite_cell (Number v) -> clean ps row -> clean ps (set row k (Number v)).
Proof.
  intros Hv [H1 H2]. split.
  - intros k' c. rewrite get_set. destruct (String.eqb k' k); [|apply H1].
    now intros [= <-].
  - intros p Hp. rewrite get_set. destruct (String.eqb p k); eauto.
Qed.

Lemma set_clean_new (ps : list string) (row : dict) (k : string) (v : option fval) :
  finite_cell (Number v) -> clean ps row -> clean (k :: ps) (set row k (Number v)).
Proof.
  intros Hv [H1 H2]. split.
  - intros k' c. rewrite get_set. destruct (String.eqb k' k); [|apply H1].
    now intros [= <-].
  - intros p [<-|Hp]; rewrite get_set.
    + rewrite String.eqb_refl. eauto.
    + destruct (String.eqb p k); eauto.
Qed.

Lemma clean_incl (ps qs : list string) (row : dict) :
  incl qs ps -> clean ps row -> clean qs row.
Proof. intros Hi [H1 H2]. split; auto. Qed.

Lemma add_period_clean (metric : row -> Q) (pd : list final_row) (ps : list string)
    (row : dict) (p : string) :
  clean ps row -> clean (p :: ps) (add_period metric pd row p).
Proof.
  intros Hc. unfold add_period.
  destruct (filter _ pd); apply set_clean_new; simpl; auto.
Qed.

Lemma add_periods_clean (metric : row -> Q) (pd : list final_row)
    (periods ps : list string) (row : dict) :
  clean ps row ->
  clean (rev periods ++ ps) (fold_left (add_period metric pd) periods row).
Proof.
  revert ps row. induction periods as [|p t IH]; intros ps row Hc; simpl; auto.
  rewrite <- app_assoc. simpl. apply IH. now apply add_period_clean.
Qed.

Lemma add_change_clean (ps : list string) (row : dict) (pc : string * string) :
  In (fst pc) ps -> In (snd pc) ps -> clean ps row ->
  exists row', add_change row pc = Some row' /\ clean ps row'.
Proof.
  intros Hp Hc Hclean. unfold add_change.
  destruct (proj2 Hclean _ Hp) as [vp Ep]. destruct (proj2 Hclean _ Hc) as [vc Ec].
  rewrite Ep, Ec.
  assert (Fp := proj1 Hclean _ _ Ep). assert (Fc := proj1 Hclean _ _ Ec).
  destruct vp as [p|], vc as [c|]; simpl;
    try (eexists; split; [reflexivity|]; apply set_clean; simpl; auto).
  destruct p as [x| | |]; simpl in Fp; try discriminate.
  destruct c as [y| | |]; simpl in Fc; try discriminate.
  simpl. destruct (Qis_zero x) eqn:Ez; simpl;
    eexists; (split; [reflexivity|]); apply set_clean; simpl; auto.
Qed.

Lemma consecutive_In (periods : list string) (pc : string * string) :
  In pc (consecutive periods) -> In (fst pc) periods /\ In (snd pc) periods.
Proof.
  unfold consecutive. destruct pc as [a b]. intros H. split.
  - now apply in_combine_l in H.
  - apply in_combine_r in H. destruct periods; [destruct H | now right].
Qed.

Lemma changes_clean (ps : list string) (pcs : list (string * string)) (row : dict) :
  (forall pc, In pc pcs -> In (fst pc) ps /\ In (snd pc) ps) ->
  clean ps row ->
  exists row',
    fold_left (fun acc pc => row <- acc ;; add_change row pc) pcs (Some row)
    = Some row'
    /\ clean ps row'.
Proof.
  revert row. induction pcs as [|pc t IH]; intros row Hin Hc; simpl.
  - eauto.
  - destruct (Hin pc (or_introl eq_refl)) as [H1 H2].
    destruct (add_change_clean ps row pc H1 H2 Hc) as [row' [-> Hc']].
    apply IH; auto. intros pc' Hpc'. apply Hin. now right.
Qed.

Lemma metric_row_clean (periods : list string) (platform : string)
    (pd : list final_row) (metric : string * (row -> Q)) :
  exists row,
    metric_row periods platform pd metric = Some row
    /\ forall k c, get row k = Some c -> finite_cell c.
Proof.
  unfold metric_row.
  destruct (changes_clean periods (consecutive periods)
              (fold_left (add_period (snd metric) pd) periods
                         [("指标", Text (label platform (fst metric)))]))
    as [row [E [H1 _]]].
  - apply consecutive_In.
  - apply (clean_incl (rev periods ++ [])).
    + intros p Hp. apply in_or_app. left. now apply in_rev in Hp.
    + apply add_periods_clean. split.
      * intros k c. simpl. destruct (String.eqb k "指标"); [|discriminate].
        now intros [= <-].
      * intros p [].
  - eauto.
Qed.

Lemma apply_rows_total {A B} (f : A -> option B) (P : B -> Prop) (rows : list A) :
  (forall x, In x rows -> exists y, f x = Some y /\ P y) ->
  exists ys, apply_rows f rows = Some ys /\ Forall P ys /\ length ys = length rows.
Proof.
  induction rows as [|x t IH]; simpl; intros Hf.
  - exists []. auto.
  - destruct (Hf x (or_introl eq_refl)) as [y [-> Hy]]. simpl.
    destruct IH as [ys [-> [Hys Hl]]]; [intros; apply Hf; now right|]. simpl.
    exists (y :: ys). repeat split; auto. simpl. now rewrite Hl.
Qed.

Lemma comparison_data_clean (period_stats : list final_row) :
  exists data,
    comparison_data period_stats = Some data
    /\ Forall (fun row => forall k c, get row k = Some c -> finite_cell c) data
    /\ length data = length (lines period_stats).
Proof.
  unfold comparison_data. apply apply_rows_total.
  intros [[platform pd] metric] _. apply metric_row_clean.
Qed.

End PeriodSheet.

Module PeriodSheetTotal.

(** The function raises nothing. *)
Lemma sheet_total (period_stats : list PeriodStats.final_row) :
  exists out, PeriodComparison.create_period_comparison_sheet period_stats = Some out.
Proof.
  unfold PeriodComparison.create_period_comparison_sheet.
  destruct (length (PeriodComparison.periods_of period_stats) <=? 1)%nat; eauto.
  destruct (PeriodSheet.comparison_data_clean period_stats) as [data [-> _]].
  simpl. destruct (negb (empty data)); eauto.
Qed.

End PeriodSheetTotal.


Lemma Permutation_filter_perm {A} (f : A -> bool) (l l' : list A) :
  Permutation l l' -> Permutation (filter f l) (filter f l').
Proof.
  induction 1 as [|x l l' _ IH|x y l|l l' l'' _ IH1 _ IH2]; simpl.
  - constructor.
  - destruct (f x); auto.
  - destruct (f x), (f y); auto. apply perm_swap.
  - now apply Permutation_trans with (filter f l').
Qed.

Lemma present_Some {A B} (f : A -> B) (l : list A) :
  present (map (fun x => Some (f x)) l) = map f l.
Proof. induction l as [|x t IH]; simpl; auto. now rewrite IH. Qed.

Lemma unique_length_same {K} `{KeyLaws K} (l1 l2 : list K) :
  (forall x, In x l1 <-> In x l2) ->
  length (unique keqb l1) = length (unique keqb l2).
Proof.
  intros Hi. apply Nat.le_antisymm; apply unique_length_incl; intros x Hx; now apply Hi.
Qed.

Module PeriodSheetWritten.
Import PeriodStats PeriodComparison.

Lemma filled_rows (t : list final_row) :
  map f_row (map Fill.period_row t) = map f_row t.
Proof. rewrite map_map. reflexivity. Qed.

Lemma group_keys_length (df : list record) :
  length (group_keys (fun r => Some (period r)) df)
  = length (unique keqb (map period df)).
Proof.
  unfold group_keys. now rewrite sort_by_length, present_Some.
Qed.

Lemma total_stats_length (df : list record) :
  length (total_stats df) = length (unique keqb (map period df)).
Proof.
  unfold total_stats, groupby. now rewrite !length_map, group_keys_length.
Qed.

Lemma all_stats_periods (df : list record) (p : string) :
  In p (map r_period (all_stats df)) <-> In p (map period df).
Proof.
  unfold all_stats, stats, total_stats, groupby. rewrite !map_app, !map_map. simpl.
  rewrite in_app_iff, !in_map_iff. split.
  - intros [[[p' plat] [<- Hk]]|[p' [<- Hk]]].
    + apply group_keys_In in Hk as [r [Hr Hk]]. injection Hk as <- _.
      exists r. auto.
    + apply group_keys_In in Hk as [r [Hr Hk]]. injection Hk as <-.
      exists r. auto.
  - intros [r [<- Hr]]. right. exists (period r). split; auto.
    apply group_keys_In. eauto.
Qed.

Lemma table_periods (fill_pad : bool) (df : list record) :
  length (periods_of (map Fill.period_row (calculate_period_stats fill_pad df)))
  = length (unique keqb (map period df)).
Proof.
  unfold periods_of. rewrite sort_by_length.
  rewrite <- (map_map f_row r_period), filled_rows.
  apply unique_length_same. intros p.
  rewrite <- all_stats_periods.
  assert (Hperm := PeriodRows.rows_perm fill_pad df).
  split; intros Hp; eapply Permutation_in; try exact Hp;
    [|symmetry]; apply Permutation_map; exact Hperm.
Qed.

Lemma rollup_rows_length (fill_pad : bool) (df : list record) :
  (length (total_stats df)
   <= length (filter (fun x => keqb (r_platform (f_row x)) ALL_PLATFORMS)
                     (map Fill.period_row (calculate_period_stats fill_pad df))))%nat.
Proof.
  assert (Hperm := PeriodRows.rows_perm fill_pad df).
  apply (Permutation_filter_perm (fun x => keqb (r_platform x) ALL_PLATFORMS)) in Hperm.
  rewrite <- filled_rows in Hperm.
  rewrite filter_map_comm in Hperm. apply Permutation_length in Hperm.
  rewrite length_map in Hperm. rewrite Hperm.
  unfold all_stats. rewrite filter_app, length_app.
  rewrite (PeriodChanges.filter_all _ (total_stats df)); [lia|].
  intros x Hx. unfold total_stats in Hx. apply in_map_iff in Hx as [[p g] [<- _]].
  apply keqb_refl.
Qed.

Lemma lines_length (period_stats : list final_row) :
  length (lines period_stats)
  = (3 * length (filter (fun platform =>
                           (1 <? length (filter (fun x => keqb (r_platform (f_row x))
                                                               platform)
                                                period_stats))%nat)
                        (platforms_of period_stats)))%nat.
Proof.
  unfold lines. cbv zeta.
  induction (platforms_of period_stats) as [|pl t IH]; [reflexivity|].
  cbn [flat_map filter]. rewrite length_app, IH.
  destruct (1 <? length _)%nat; simpl; lia.
Qed.

End PeriodSheetWritten.

Module PeriodSheetLines.
Import PeriodStats PeriodComparison.

(** With two periods or more the rollup platform has more than one row, so
    the sheet has lines. *)
Lemma lines_nonempty (fill_pad : bool) (df : list record) :
  (1 < length (unique keqb (map period df)))%nat ->
  (0 < length (lines (map Fill.period_row (calculate_period_stats fill_pad df))))%nat.
Proof.
  intros Hn. set (period_stats := map Fill.period_row _).
  rewrite PeriodSheetWritten.lines_length.
  assert (Hr := PeriodSheetWritten.rollup_rows_length fill_pad df).
  fold period_stats in Hr.
  rewrite PeriodSheetWritten.total_stats_length in Hr.
  enough (In ALL_PLATFORMS
             (filter (fun platform =>
                        (1 <? length (filter (fun x => keqb (r_platform (f_row x))
                                                            platform)
                                             period_stats))%nat)
                     (platforms_of period_stats))) as Hin.
  { destruct (filter _ (platforms_of period_stats)); [destruct Hin | simpl; lia]. }
  apply filter_In. split; [|apply Nat.ltb_lt; lia].
  destruct (filter _ period_stats) as [|x rest] eqn:Ef; [simpl in Hr; lia|].
  assert (Hx : In x (filter (fun x => keqb (r_platform (f_row x)) ALL_PLATFORMS)
                            period_stats))
    by (rewrite Ef; now left).
  apply filter_In in Hx as [Hx Hk]. apply keqb_eq in Hk.
  apply unique_In, in_map_iff. eauto.
Qed.

Lemma written (fill_pad : bool) (df : list record) :
  (1 < length (unique keqb (map period df)))%nat ->
  exists sheet,
    create_period_comparison_sheet
      (map Fill.period_row (calculate_period_stats fill_pad df)) = Some (Some sheet).
Proof.
  intros Hn. assert (Hlines := lines_nonempty fill_pad df Hn).
  assert (Hp := PeriodSheetWritten.table_periods fill_pad df).
  set (period_stats := map Fill.period_row _) in *.
  destruct (PeriodSheet.comparison_data_clean period_stats) as [data [Hd [_ Hl]]].
  unfold create_period_comparison_sheet.
  rewrite Hp, Hd, (proj2 (Nat.leb_gt _ _) Hn). simpl.
  destruct data as [|row rows]; [simpl in Hl; lia|]. simpl. eauto.
Qed.

End PeriodSheetLines.


Module PeriodSheetCells.
Import PeriodStats PeriodComparison PeriodSheet.

Lemma add_period_get (metric : row -> Q) (pd : list final_row) (d : dict)
    (p k : string) :
  get (add_period metric pd d p) k
  = if String.eqb k p then Some (Number (value_at metric pd p)) else get d k.
Proof.
  unfold add_period, value_at.
  destruct (filter (fun x => keqb (r_period (f_row x)) p) pd); apply get_set.
Qed.

(** After the loop over the periods the dict holds the value of each. *)
Lemma period_add_periods_get (metric : row -> Q) (pd : list final_row)
    (periods : list string) (d : dict) (k : string) :
  NoDup periods ->
  (In k periods ->
   get (fold_left (add_period metric pd) periods d) k
   = Some (Number (value_at metric pd k)))
  /\ (~ In k periods -> get (fold_left (add_period metric pd) periods d) k = get d k).
Proof.
  intros Hnd. revert d. induction Hnd as [|q t Hnin Hnd IH]; intros d; simpl.
  - split; tauto.
  - destruct (IH (add_period metric pd d q)) as [IH1 IH2]. split.
    + intros [->|Hin]; auto.
      rewrite IH2 by auto. rewrite add_period_get. now rewrite String.eqb_refl.
    + intros Hn. rewrite IH2 by tauto. rewrite add_period_get.
      destruct (String.eqb k q) eqn:E; auto.
      apply String.eqb_eq in E. subst. tauto.
Qed.

Local Abbreviation ck := (fun pc : string * string => change_key (snd pc) (fst pc)).

(** One step of the change loop on a dict that holds a number or [None]
    under both periods. *)
Lemma add_change_number (d : dict) (pc : string * string) (vp vc : option fval) :
  get d (fst pc) = Some (Number vp) ->
  get d (snd pc) = Some (Number vc) ->
  add_change d pc = Some (set d (ck pc) (Number (guarded_change vp vc))).
Proof.
  intros Ep Ec. unfold add_change. rewrite Ep, Ec.
  destruct vp as [p|], vc as [c|]; simpl; auto.
  destruct (ProductComparison.nonzero p); reflexivity.
Qed.

(** The change loop: the change columns hold the guarded changes, and the
    other entries stay. *)
Lemma changes_get (val : string -> option fval) (periods : list string)
    (pcs : list (string * string)) (d : dict) :
  NoDup (map ck pcs) ->
  (forall pc, In pc pcs -> In (fst pc) periods /\ In (snd pc) periods) ->
  (forall pc, In pc pcs -> ~ In (ck pc) periods) ->
  (forall p, In p periods -> get d p = Some (Number (val p))) ->
  exists d',
    fold_left (fun acc pc => row <- acc ;; add_change row pc) pcs (Some d) = Some d'
    /\ (forall pc, In pc pcs ->
          get d' (ck pc)
          = Some (Number (guarded_change (val (fst pc)) (val (snd pc)))))
    /\ (forall k, ~ In k (map ck pcs) -> get d' k = get d k).
Proof.
  revert d. induction pcs as [|pc t IH]; intros d Hnd Hin Hout Hd.
  - simpl. exists d. repeat split; auto. intros pc [].
  - inversion Hnd as [|? ? Hnin Hnd']; subst.
    destruct (Hin pc (or_introl eq_refl)) as [H1 H2].
    cbn [fold_left bind].
    rewrite (add_change_number d pc (val (fst pc)) (val (snd pc))) by auto.
    destruct (IH (set d (ck pc) (Number (guarded_change (val (fst pc)) (val (snd pc))))))
      as [d' [E [Hc Hk]]]; auto.
    + intros pc' Hpc'. apply Hin. now right.
    + intros pc' Hpc'. apply Hout. now right.
    + intros p Hp. rewrite get_set.
      destruct (String.eqb p (ck pc)) eqn:Ep; auto.
      apply String.eqb_eq in Ep. subst p. exfalso.
      apply (Hout pc (or_introl eq_refl)). exact Hp.
    + exists d'. split; [exact E|]. split.
      * intros pc' [<-|Hpc']; auto.
        rewrite Hk by exact Hnin. rewrite get_set. now rewrite String.eqb_refl.
      * intros k Hk'. rewrite Hk by (intros Hin'; apply Hk'; now right).
        rewrite get_set. destruct (String.eqb k (ck pc)) eqn:Ek; auto.
        apply String.eqb_eq in Ek. subst k. exfalso. apply Hk'. now left.
Qed.

Lemma periods_NoDup (period_stats : list final_row) : NoDup (periods_of period_stats).
Proof.
  unfold periods_of.
  eapply Permutation_NoDup; [symmetry; apply sort_by_perm | apply unique_NoDup].
Qed.

Lemma label_not_change_key (a b : string) : change_key a b <> "指标".
Proof.
  intros E. apply (f_equal String.length) in E. unfold change_key in E.
  rewrite !Columns.length_app in E. simpl in E. lia.
Qed.

(** The line of a metric of a platform. *)
Lemma metric_row_cells (periods : list string) (platform : string)
    (pd : list final_row) (metric : string * (row -> Q)) :
  NoDup periods ->
  ~ In "指标" periods ->
  (forall pc, In pc (consecutive periods) -> ~ In (ck pc) periods) ->
  NoDup (map ck (consecutive periods)) ->
  exists row,
    metric_row periods platform pd metric = Some row
    /\ get row "指标" = Some (Text (label platform (fst metric)))
    /\ (forall p, In p periods ->
          get row p = Some (Number (value_at (snd metric) pd p)))
    /\ (forall pc, In pc (consecutive periods) ->
          get row (ck pc)
          = Some (Number (guarded_change (value_at (snd metric) pd (fst pc))
                                         (value_at (snd metric) pd (snd pc))))).
Proof.
  intros Hnd Hl Hout Hcks. unfold metric_row.
  set (d0 := [("指标", Text (label platform (fst metric)))]).
  set (d1 := fold_left (add_period (snd metric) pd) periods d0).
  assert (Hd1 : forall p, In p periods ->
                  get d1 p = Some (Number (value_at (snd metric) pd p))).
  { intros p Hp. now apply period_add_periods_get. }
  destruct (changes_get (value_at (snd metric) pd) periods (consecutive periods) d1)
    as [d' [E [Hc Hk]]]; auto using consecutive_In.
  exists d'. split; [exact E|]. split; [|split]; auto.
  - rewrite Hk.
    + unfold d1. rewrite (proj2 (period_add_periods_get _ pd periods d0 "指标" Hnd)) by auto.
      reflexivity.
    + intros Hin. apply in_map_iff in Hin as [pc [Hpc _]].
      now apply label_not_change_key in Hpc.
  - intros p Hp. rewrite Hk; auto.
    intros Hin. apply in_map_iff in Hin as [pc [Hpc Hin]].
    apply (Hout pc Hin). rewrite Hpc. exact Hp.
Qed.

Lemma apply_rows_In {A B} (f : A -> option B) (rows : list A) (ys : list B) (x : A) :
  apply_rows f rows = Some ys -> In x rows -> exists y, f x = Some y /\ In y ys.
Proof.
  revert ys. induction rows as [|a t IH]; intros ys E Hx; [destruct Hx|].
  simpl in E. destruct (f a) as [b|] eqn:Ea; [|discriminate]. simpl in E.
  destruct (apply_rows f t) as [bs|]; [|discriminate]. injection E as <-.
  destruct Hx as [<-|Hx].
  - exists b. split; auto. now left.
  - destruct (IH bs eq_refl Hx) as [y [Hy Hin]]. exists y. split; auto. now right.
Qed.

End PeriodSheetCells.

(** X17: the line of a metric of a platform holds, under each period, the
    value of the platform in that period or nothing, and under each change
    column the guarded change between the two neighbouring periods, when no
    period is called 指标 and no column name of a change is a period or occurs
    twice. *)
Theorem period_comparison_cells (period_stats : list PeriodStats.final_row)
    (platform : string) (metric : string * (PeriodStats.row -> Q)) :
  let periods := PeriodComparison.periods_of period_stats in
  let platform_data := PeriodStats.platform_rows platform period_stats in
  let change_keys :=
    map (fun pc => PeriodComparison.change_key (snd pc) (fst pc))
        (PeriodComparison.consecutive periods) in
  let value := PeriodComparison.value_at (snd metric) platform_data in
  (1 < length periods)%nat ->
  (1 < length platform_data)%nat ->
  In metric PeriodComparison.metrics ->
  ~ In "指标" periods ->
  (forall k, In k change_keys -> ~ In k periods) ->
  NoDup change_keys ->
  exists sheet row,
    PeriodComparison.create_period_comparison_sheet period_stats = Some (Some sheet)
    /\ In row (PeriodComparison.s_rows sheet)
    /\ PeriodComparison.get row "指标"
       = Some (PeriodComparison.Text (PeriodComparison.label platform (fst metric)))
    /\ (forall p, In p periods ->
          PeriodComparison.get row p = Some (PeriodComparison.Number (value p)))
    /\ (forall prev curr,
          In (prev, curr) (PeriodComparison.consecutive periods) ->
          PeriodComparison.get row (PeriodComparison.change_key curr prev)
          = Some (PeriodComparison.Number
                    (PeriodComparison.guarded_change (value prev) (value curr)))).
Proof.
  intros periods platform_data change_keys value Hper Hpd Hm Hl Hout Hcks.
  destruct (PeriodSheet.comparison_data_clean period_stats) as [data [Hd _]].
  assert (Hline : In (platform, platform_data, metric)
                     (PeriodComparison.lines period_stats)).
  { unfold PeriodComparison.lines. apply in_flat_map. exists platform. split.
    - destruct platform_data as [|x rest] eqn:E; [simpl in Hpd; lia|].
      assert (Hx : In x platform_data) by (rewrite E; now left).
      unfold platform_data, PeriodStats.platform_rows in Hx.
      apply filter_In in Hx as [Hx Hk]. apply keqb_eq in Hk.
      apply unique_In, in_map_iff. eauto.
    - cbv zeta. fold (PeriodStats.platform_rows platform period_stats).
      fold platform_data. rewrite (proj2 (Nat.ltb_lt _ _) Hpd).
      apply in_map_iff. eauto. }
  assert (Hd' := Hd). unfold PeriodComparison.comparison_data in Hd'.
  destruct (PeriodSheetCells.apply_rows_In _ _ _ _ Hd' Hline) as [row [Hrow Hin]].
  simpl in Hrow. fold periods in Hrow.
  destruct (PeriodSheetCells.metric_row_cells periods platform platform_data metric)
    as [row' [E [H1 [H2 H3]]]]; auto.
  { apply PeriodSheetCells.periods_NoDup. }
  { intros pc Hpc. apply Hout. unfold change_keys. apply in_map_iff. eauto. }
  rewrite E in Hrow. injection Hrow as <-.
  unfold PeriodComparison.create_period_comparison_sheet. fold periods.
  rewrite (proj2 (Nat.leb_gt _ _) Hper), Hd. simpl.
  destruct data as [|r0 rs]; [destruct Hin|]. simpl.
  eexists. exists row'. split; [reflexivity|]. split; [exact Hin|].
  split; [exact H1|]. split; [exact H2|].
  intros prev curr Hpc. apply (H3 (prev, curr) Hpc).
Qed.

Lemma period_comparison_cells_witness :
  let period_stats :=
    map Fill.period_row (PeriodStats.calculate_period_stats true sample_periods) in
  exists sheet row,
    PeriodComparison.create_period_comparison_sheet period_stats = Some (Some sheet)
    /\ In row (PeriodComparison.s_rows sheet)
    /\ PeriodComparison.get row "指标" = Some (PeriodComparison.Text "A - 零售额")
    /\ exists v,
         PeriodComparison.get row "P2 vs P1 (%)"
         = Some (PeriodComparison.Number (Some v))
         /\ feq v (Fin 50).
Proof.
  intros period_stats.
  destruct (period_comparison_cells period_stats "A" ("零售额", PeriodStats.r_revenue))
    as [sheet [row [Hs [Hin [Hl [_ Hc]]]]]].
  - vm_compute. lia.
  - vm_compute. lia.
  - left. reflexivity.
  - vm_compute. intros [H|[H|[]]]; discriminate.
  - vm_compute. intros k [<-|[]] [H|[H|[]]]; discriminate.
  - vm_compute. repeat constructor. intros [].
  - exists sheet, row. split; [exact Hs|]. split; [exact Hin|]. split; [exact Hl|].
    eexists. split.
    + refine (eq_trans (Hc "P1" "P2" _) _).
      * vm_compute. left. reflexivity.
      * vm_compute. reflexivity.
    + vm_compute. reflexivity.
Defined.

Module ChartFacts.
Import BrandShare BrandChart.

Lemma string_lt_trans (a b c : string) :
  kcmp a b = Lt -> kcmp b c = Lt -> kcmp a c = Lt.
Proof.
  change (OrderedTypeEx.String_as_OT.cmp a b = Lt ->
          OrderedTypeEx.String_as_OT.cmp b c = Lt ->
          OrderedTypeEx.String_as_OT.cmp a c = Lt).
  rewrite !OrderedTypeEx.String_as_OT.cmp_lt.
  apply OrderedTypeEx.String_as_OT.lt_trans.
Qed.

Lemma cmp_step (a b c : string) :
  kcmp a b <> Gt -> kcmp b c <> Gt ->
  kcmp a c = Lt \/ (kcmp a b = Eq /\ kcmp b c = Eq /\ kcmp a c = Eq).
Proof.
  intros H1 H2.
  destruct (kcmp a b) eqn:E1; [| |congruence];
    destruct (kcmp b c) eqn:E2; try congruence.
  - apply kcmp_eq in E1, E2. subst. right. repeat split; now apply kcmp_eq.
  - apply kcmp_eq in E1. subst. now left.
  - apply kcmp_eq in E2. subst. now left.
  - left. now apply string_lt_trans with b.
Qed.

Lemma chart_order_total (a b : bar) :
  chart_order a b = false -> chart_order b a = true.
Proof.
  unfold chart_order.
  rewrite (kcmp_antisym (b_period a) (b_period b)).
  rewrite (kcmp_antisym (b_platform a) (b_platform b)).
  destruct (kcmp (b_period a) (b_period b)); cbn [CompOpp]; auto; try discriminate.
  destruct (kcmp (b_platform a) (b_platform b)); cbn [CompOpp]; auto;
    try discriminate.
  intros E. apply Qle_bool_iff.
  destruct (Qlt_le_dec (b_revenue a) (b_revenue b)) as [Hlt|Hle].
  - now apply Qlt_le_weak.
  - apply Qle_bool_iff in Hle. congruence.
Qed.

Lemma chart_order_trans (a b c : bar) :
  chart_order a b = true -> chart_order b c = true -> chart_order a c = true.
Proof.
  unfold chart_order. intros Hab Hbc.
  assert (P1 : kcmp (b_period a) (b_period b) <> Gt)
    by (intros E; rewrite E in Hab; discriminate).
  assert (P2 : kcmp (b_period b) (b_period c) <> Gt)
    by (intros E; rewrite E in Hbc; discriminate).
  destruct (cmp_step _ _ _ P1 P2) as [E|[E1 [E2 E3]]]; [now rewrite E|].
  rewrite E1 in Hab. rewrite E2 in Hbc. rewrite E3.
  assert (Q1 : kcmp (b_platform a) (b_platform b) <> Gt)
    by (intros E; rewrite E in Hab; discriminate).
  assert (Q2 : kcmp (b_platform b) (b_platform c) <> Gt)
    by (intros E; rewrite E in Hbc; discriminate).
  destruct (cmp_step _ _ _ Q1 Q2) as [E|[F1 [F2 F3]]]; [now rewrite E|].
  rewrite F1 in Hab. rewrite F2 in Hbc. rewrite F3.
  apply Qle_bool_iff in Hab, Hbc. apply Qle_bool_iff.
  now apply Qle_trans with (b_revenue b).
Qed.

Lemma sorted_chart (l : list bar) :
  StronglySorted (fun a b => chart_order a b = true) (sort_by chart_order l).
Proof.
  apply Sorted_StronglySorted.
  - intros a b c. apply chart_order_trans.
  - apply sort_by_sorted. apply chart_order_total.
Qed.

(** Within one (period, platform) the chart order is falling revenue. *)
Lemma stratum_falling (p plat : string) (l : list bar) :
  StronglySorted (fun a b => chart_order a b = true) l ->
  StronglySorted (fun a b => b_revenue b <= b_revenue a) (stratum p plat l).
Proof.
  induction 1 as [|x t Hs IH Hx]; simpl; [constructor|].
  destruct (keqb (b_period x) p && keqb (b_platform x) plat) eqn:Ex; auto.
  constructor; auto.
  apply Forall_forall. intros y Hy. apply filter_In in Hy as [Hy Ey].
  rewrite Forall_forall in Hx. specialize (Hx y Hy).
  apply andb_true_iff in Ex as [Ex1 Ex2]. apply andb_true_iff in Ey as [Ey1 Ey2].
  apply keqb_eq in Ex1, Ex2, Ey1, Ey2.
  unfold chart_order in Hx. rewrite Ex1, Ex2, Ey1, Ey2 in Hx.
  rewrite (proj2 (kcmp_eq p p) eq_refl), (proj2 (kcmp_eq plat plat) eq_refl) in Hx.
  now apply Qle_bool_iff.
Qed.

(** The head of every group is the head of its stratum. *)
Lemma group_head_stratum (n : nat) (p plat : string) (seen l : list bar) :
  stratum p plat (group_head n seen l)
  = firstn (n - length (stratum p plat seen)) (stratum p plat l).
Proof.
  revert seen. induction l as [|x t IH]; intros seen.
  - simpl. now rewrite firstn_nil.
  - cbn [group_head].
    destruct (keqb (b_period x) p && keqb (b_platform x) plat) eqn:Ex.
    + assert (Es : filter (same_group x) seen = stratum p plat seen).
      { apply andb_true_iff in Ex as [Ex1 Ex2]. apply keqb_eq in Ex1, Ex2.
        unfold stratum, same_group. now rewrite Ex1, Ex2. }
      rewrite Es.
      assert (Ec : length (stratum p plat (x :: seen))
                   = S (length (stratum p plat seen)))
        by (unfold stratum; simpl; now rewrite Ex).
      assert (Et : stratum p plat (x :: t) = x :: stratum p plat t)
        by (unfold stratum; simpl; now rewrite Ex).
      rewrite Et.
      destruct (length (stratum p plat seen) <? n)%nat eqn:El.
      * apply Nat.ltb_lt in El.
        assert (Ex' : stratum p plat (x :: group_head n (x :: seen) t)
                      = x :: stratum p plat (group_head n (x :: seen) t))
          by (unfold stratum; simpl; now rewrite Ex).
        rewrite Ex', IH, Ec.
        replace (n - length (stratum p plat seen))%nat
          with (S (n - S (length (stratum p plat seen)))) by lia.
        reflexivity.
      * apply Nat.ltb_ge in El. rewrite IH, Ec.
        replace (n - S (length (stratum p plat seen)))%nat with 0%nat by lia.
        replace (n - length (stratum p plat seen))%nat with 0%nat by lia.
        reflexivity.
    + assert (Ec : stratum p plat (x :: seen) = stratum p plat seen)
        by (unfold stratum; simpl; now rewrite Ex).
      assert (Et : stratum p plat (x :: t) = stratum p plat t)
        by (unfold stratum; simpl; now rewrite Ex).
      rewrite Et.
      destruct (length (filter (same_group x) seen) <? n)%nat.
      * assert (Ex' : stratum p plat (x :: group_head n (x :: seen) t)
                      = stratum p plat (group_head n (x :: seen) t))
          by (unfold stratum; simpl; now rewrite Ex).
        now rewrite Ex', IH, Ec.
      * now rewrite IH, Ec.
Qed.

(** Every bar stands for the rows of one brand of its period and platform. *)
Lemma summed_In (df : list share_row) (x : bar) :
  In x (summed df) ->
  (exists row, In row df /\ r_period (s_row row) = b_period x
               /\ r_platform (s_row row) = b_platform x
               /\ r_brand (s_row row) = b_brand x)
  /\ b_revenue x
     = sumQ (map (fun y => r_revenue (s_row y))
                 (filter (fun y => keqb (r_period (s_row y)) (b_period x)
                                   && keqb (r_platform (s_row y)) (b_platform x)
                                   && keqb (r_brand (s_row y)) (b_brand x))
                         df)).
Proof.
  unfold summed. rewrite in_map_iff.
  intros [[[[p plat] b] g] [<- Hin]]. simpl.
  apply groupby_In in Hin as [Hk ->]. split.
  - apply group_keys_In in Hk as [row [Hr Hk]]. injection Hk as <- <- <-.
    exists row. auto.
  - f_equal. f_equal. apply filter_ext. intros y.
    unfold has_key. rewrite !BrandSums.keqb_pair.
    now rewrite (keqb_sym p), (keqb_sym plat), (keqb_sym b).
Qed.

End ChartFacts.

(** X18: the bars of [plot_brand_comparison] for a period and platform are
    the [n] brands of the stratum with the highest summed revenue, or all
    when there are fewer, by falling revenue; the revenue of a bar is the
    sum over the rows of its brand. *)
Theorem chart_shows_top_brands (df : list BrandShare.share_row) (n : nat)
    (p platform : string) :
  let shown := BrandChart.stratum p platform (BrandChart.top_brands df n) in
  let all := BrandChart.stratum p platform (BrandChart.summed df) in
  length shown = Nat.min n (length all)
  /\ StronglySorted
       (fun a b => BrandChart.b_revenue b <= BrandChart.b_revenue a) shown
  /\ (exists rest,
        Permutation (shown ++ rest) all
        /\ forall x y,
             In x shown -> In y rest ->
             BrandChart.b_revenue y <= BrandChart.b_revenue x)
  /\ forall x,
       In x all ->
       BrandChart.b_revenue x
       = sumQ (map (fun y => BrandShare.r_revenue (BrandShare.s_row y))
                   (filter (fun y =>
                              keqb (BrandShare.r_period (BrandShare.s_row y)) p
                              && keqb (BrandShare.r_platform (BrandShare.s_row y))
                                      platform
                              && keqb (BrandShare.r_brand (BrandShare.s_row y))
                                      (BrandChart.b_brand x))
                           df)).
Proof.
  intros shown all.
  set (s := sort_by BrandChart.chart_order (BrandChart.summed df)).
  assert (Hshown : shown = firstn n (BrandChart.stratum p platform s)).
  { unfold shown, BrandChart.top_brands. cbv zeta. fold s.
    rewrite ChartFacts.group_head_stratum. simpl. now rewrite Nat.sub_0_r. }
  assert (Hperm : Permutation (BrandChart.stratum p platform s) all).
  { apply Permutation_filter_perm, sort_by_perm. }
  assert (Hf := ChartFacts.stratum_falling p platform s
                  (ChartFacts.sorted_chart (BrandChart.summed df))).
  rewrite <- (firstn_skipn n (BrandChart.stratum p platform s)) in Hf.
  apply (desc_app BrandChart.b_revenue) in Hf as [Hf1 Hf2].
  rewrite Hshown. repeat split.
  - rewrite length_firstn. now rewrite (Permutation_length Hperm).
  - exact Hf1.
  - exists (skipn n (BrandChart.stratum p platform s)). split; auto.
    now rewrite firstn_skipn.
  - intros x Hx. apply filter_In in Hx as [Hx Ex].
    apply andb_true_iff in Ex as [Ex1 Ex2]. apply keqb_eq in Ex1, Ex2.
    destruct (ChartFacts.summed_In df x Hx) as [_ Hr].
    now rewrite Ex1, Ex2 in Hr.
Qed.

Module BrandColumns.
Import BrandComparison Columns.

Lemma brand_revenue_key_split (p : string) : revenue_key p = (p ++ " ") ++ "零售额".
Proof. unfold revenue_key. now rewrite app_assoc. Qed.

Lemma share_key_split (p : string) : share_key p = (p ++ " 零售额") ++ "占比(%)".
Proof. unfold share_key. now rewrite app_assoc. Qed.

Lemma brand_change_key_split (p pp : string) :
  change_key p pp = (p ++ " vs " ++ pp ++ " 占比") ++ "变化(%)".
Proof. unfold change_key. now rewrite !app_assoc. Qed.

Lemma share_key_inj (p q : string) : share_key p = share_key q -> p = q.
Proof. unfold share_key. intros E. now apply same_ending in E. Qed.

Lemma revenue_key_not_share (p q : string) : revenue_key q <> share_key p.
Proof.
  rewrite brand_revenue_key_split, share_key_split.
  apply other_ending; [reflexivity | discriminate].
Qed.

Lemma change_key_not_share (p pp q : string) : change_key p pp <> share_key q.
Proof.
  rewrite brand_change_key_split, share_key_split.
  apply other_ending; [reflexivity | discriminate].
Qed.

End BrandColumns.

Module BrandCells.
Import BrandShare BrandComparison ShareCells Columns BrandColumns.

Lemma brand_add_period_same (bd : list share_row) (d : Dict.dict) (p : string) :
  Dict.get (add_period bd d p) (share_key p) = Some (share_cell bd p).
Proof.
  unfold add_period, share_cell.
  destruct (filter (fun x => keqb (r_period (s_row x)) p) bd) as [|x rest];
    apply get_set_same.
Qed.

Lemma brand_add_period_other (bd : list share_row) (d : Dict.dict) (p q : string) :
  q <> p -> Dict.get (add_period bd d p) (share_key q) = Dict.get d (share_key q).
Proof.
  intros Hne. unfold add_period.
  assert (Hk : share_key p <> share_key q)
    by (intros E; apply share_key_inj in E; congruence).
  destruct (filter (fun x => keqb (r_period (s_row x)) p) bd) as [|x rest];
    rewrite get_set_other by exact Hk;
    now rewrite get_set_other by apply revenue_key_not_share.
Qed.

Lemma brand_add_periods_get (bd : list share_row) (periods : list string) (d : Dict.dict)
    (p : string) :
  NoDup periods ->
  (In p periods ->
   Dict.get (fold_left (add_period bd) periods d) (share_key p)
   = Some (share_cell bd p))
  /\ (~ In p periods ->
      Dict.get (fold_left (add_period bd) periods d) (share_key p)
      = Dict.get d (share_key p)).
Proof.
  intros Hnd. revert d. induction Hnd as [|q t Hnin Hnd IH]; intros d; simpl.
  - split; tauto.
  - destruct (IH (add_period bd d q)) as [IH1 IH2]. split.
    + intros [->|Hin]; auto.
      rewrite IH2 by auto. apply brand_add_period_same.
    + intros Hn. rewrite IH2 by tauto. apply brand_add_period_other.
      intros E. apply Hn. left. congruence.
Qed.

(** The change loop, read on the periods in which the brand has a share. *)
Lemma change_loop (bd : list share_row) (periods : list string)
    (st : Dict.dict * option (fval * string)) :
  (forall p, In p periods -> Dict.get (fst st) (share_key p) = Some (share_cell bd p)) ->
  fold_left add_change periods st
  = fold_left change_step (present_shares bd periods) st.
Proof.
  revert st. induction periods as [|p t IH]; intros st Hinv; simpl; auto.
  unfold present_shares in *. simpl. rewrite fold_left_app.
  assert (Hp := Hinv p (or_introl eq_refl)).
  unfold add_change at 2. rewrite Hp.
  destruct (share_cell bd p) as [v|]; simpl.
  - apply IH. intros q Hq. simpl.
    assert (Hq' := Hinv q (or_intror Hq)).
    destruct (snd st) as [[pv pp]|]; auto.
    now rewrite get_set_other by apply change_key_not_share.
  - apply IH. intros q Hq. apply Hinv. now right.
Qed.

(** The steps of the loop write the differences of neighbours. *)
Lemma steps_get (l : list (string * fval)) (d : Dict.dict) (prev : string * fval) :
  NoDup (map neighbour_key (neighbours (prev :: l))) ->
  let d' := fst (fold_left change_step l (d, Some (snd prev, fst prev))) in
  (forall pr, In pr (neighbours (prev :: l)) ->
     Dict.get d' (neighbour_key pr) = Some (Some (snd (snd pr) - snd (fst pr))%fl))
  /\ (forall k, ~ In k (map neighbour_key (neighbours (prev :: l))) ->
        Dict.get d' k = Dict.get d k).
Proof.
  revert d prev. induction l as [|pv t IH]; intros d prev Hnd d'.
  - simpl. split; [intros pr [] | auto].
  - unfold neighbours in *. cbn [tl combine map] in *.
    inversion Hnd as [|? ? Hnin Hnd']; subst.
    unfold d'. cbn [fold_left]. unfold change_step at 2. cbn [fst snd].
    destruct (IH (Dict.set d (change_key (fst pv) (fst prev))
                           (Some (snd pv - snd prev)%fl)) pv Hnd') as [H1 H2].
    split.
    + intros pr [<-|Hpr]; [|now apply H1].
      rewrite H2 by exact Hnin. apply get_set_same.
    + intros k Hk. rewrite H2 by (intros Hin; apply Hk; now right).
      apply get_set_other. intros E. apply Hk. left. exact E.
Qed.

Lemma steps_get_start (l : list (string * fval)) (d : Dict.dict) :
  NoDup (map neighbour_key (neighbours l)) ->
  let d' := fst (fold_left change_step l (d, None)) in
  (forall pr, In pr (neighbours l) ->
     Dict.get d' (neighbour_key pr) = Some (Some (snd (snd pr) - snd (fst pr))%fl))
  /\ (forall k, ~ In k (map neighbour_key (neighbours l)) ->
        Dict.get d' k = Dict.get d k).
Proof.
  destruct l as [|pv t]; intros Hnd d'.
  - simpl. split; [intros pr [] | auto].
  - unfold d'. cbn [fold_left]. unfold change_step at 2. cbn [fst snd].
    now apply steps_get.
Qed.

(** The share and the change columns of the line of a brand. *)
Lemma brand_row_cells (platform brand : string) (periods : list string)
    (bd : list share_row) :
  NoDup periods ->
  let shares := present_shares bd (sort_by kleb periods) in
  NoDup (map neighbour_key (neighbours shares)) ->
  let w := brand_row platform brand periods bd in
  (forall p, In p periods -> Dict.get (w_cells w) (share_key p) = Some (share_cell bd p))
  /\ (forall pr, In pr (neighbours shares) ->
        Dict.get (w_cells w) (neighbour_key pr)
        = Some (Some (snd (snd pr) - snd (fst pr))%fl)).
Proof.
  intros Hnd shares Hck w. unfold w, brand_row. cbn [w_cells].
  set (d1 := fold_left (add_period bd) periods []).
  assert (Hd1 : forall p, In p periods ->
                  Dict.get d1 (share_key p) = Some (share_cell bd p)).
  { intros p Hp. now apply brand_add_periods_get. }
  rewrite (change_loop bd).
  2:{ intros p Hp. apply Hd1. now apply sort_by_In in Hp. }
  destruct (steps_get_start shares d1 Hck) as [H1 H2]. split; auto.
  intros p Hp. fold shares. rewrite H2; auto.
  intros Hin. apply in_map_iff in Hin as [pr [E _]].
  unfold neighbour_key in E. now apply change_key_not_share in E.
Qed.

End BrandCells.

Module BrandSheetCells.
Import BrandShare BrandComparison.

(** The line of a brand that is in more than one period on its platform, as
    the sheet holds it. *)
Lemma sheet_line (t : list share_row) (platform brand : string) :
  (1 < length (entity_periods t platform brand))%nat ->
  let platform_data := filter (fun x => keqb (r_platform (s_row x)) platform) t in
  exists rows,
    create_brand_comparison_sheet t = Some rows
    /\ In (brand_row platform brand
             (unique keqb (map (fun x => r_period (s_row x)) platform_data))
             (entity_rows t platform brand))
          rows.
Proof.
  intros Hl platform_data.
  set (brand_data := entity_rows t platform brand).
  assert (Hrows : (1 < length brand_data)%nat).
  { unfold entity_periods in Hl. fold brand_data in Hl.
    eapply Nat.lt_le_trans; [exact Hl|].
    rewrite <- (length_map (fun x => r_period (s_row x))).
    apply NoDup_incl_length; [apply unique_NoDup|].
    intros p Hp. exact (proj1 (unique_In _ _) Hp). }
  assert (Hbd : filter (fun x => keqb (r_brand (s_row x)) brand) platform_data
                = brand_data).
  { unfold platform_data, brand_data, entity_rows. now rewrite filter_filter. }
  set (w := brand_row platform brand
              (unique keqb (map (fun x => r_period (s_row x)) platform_data))
              brand_data).
  assert (Hw : In w (comparison_data t)).
  { destruct brand_data as [|x rest] eqn:E; [simpl in Hrows; lia|].
    assert (Hx : In x brand_data) by (rewrite E; now left).
    unfold brand_data, entity_rows in Hx.
    apply filter_In in Hx as [Hin Hx].
    apply andb_true_iff in Hx as [Hp Hb]. apply keqb_eq in Hp, Hb.
    unfold comparison_data. apply in_flat_map. exists platform. split.
    - apply unique_In, in_map_iff. eauto.
    - apply in_flat_map. exists brand. split.
      + apply unique_In, in_map_iff. exists x. split; auto.
        apply filter_In. split; auto. now apply keqb_eq.
      + fold platform_data. rewrite Hbd.
        rewrite (proj2 (Nat.ltb_lt _ _) Hrows). left. reflexivity. }
  assert (Hperiods : (1 < length (unique keqb (map (fun x => r_period (s_row x)) t)))%nat).
  { eapply Nat.lt_le_trans; [exact Hl|]. apply unique_length_incl.
    intros p Hp'. apply in_map_iff in Hp' as [x [<- Hx]].
    apply (in_map (fun y => r_period (s_row y))).
    unfold entity_rows in Hx. now apply filter_In in Hx. }
  exists (comparison_data t). split; [|exact Hw].
  unfold create_brand_comparison_sheet.
  replace (empty t) with false
    by (destruct t; [simpl in Hperiods; lia | reflexivity]).
  rewrite (proj2 (Nat.leb_gt _ _) Hperiods). simpl.
  destruct (comparison_data t); [destruct Hw | reflexivity].
Qed.

End BrandSheetCells.

(** X19: a brand with rows in more than one period of a platform has a line
    in the sheet 品牌占比对比分析.  The line holds the share of the brand under
    every period of the platform, and under every change column the
    difference between the shares of two periods that are neighbours among
    those where the brand has a share. *)
Theorem brand_share_changes (t : list BrandShare.share_row) (platform brand : string) :
  let platform_data :=
    filter (fun x => keqb (BrandShare.r_platform (BrandShare.s_row x)) platform) t in
  let periods :=
    unique keqb (map (fun x => BrandShare.r_period (BrandShare.s_row x)) platform_data) in
  let brand_data := BrandComparison.entity_rows t platform brand in
  let shares := ShareCells.present_shares brand_data (sort_by kleb periods) in
  (1 < length (BrandComparison.entity_periods t platform brand))%nat ->
  NoDup (map ShareCells.neighbour_key (ShareCells.neighbours shares)) ->
  exists rows w,
    BrandComparison.create_brand_comparison_sheet t = Some rows
    /\ In w rows
    /\ BrandComparison.w_platform w = platform
    /\ BrandComparison.w_brand w = brand
    /\ (forall p, In p periods ->
          Dict.get (BrandComparison.w_cells w) (BrandComparison.share_key p)
          = Some (ShareCells.share_cell brand_data p))
    /\ (forall p1 v1 p2 v2,
          In ((p1, v1), (p2, v2)) (ShareCells.neighbours shares) ->
          Dict.get (BrandComparison.w_cells w) (BrandComparison.change_key p2 p1)
          = Some (Some (v2 - v1)%fl)).
Proof.
  intros platform_data periods brand_data shares Hl Hck.
  destruct (BrandSheetCells.sheet_line t platform brand Hl) as [rows [Hs Hw]].
  destruct (BrandCells.brand_row_cells platform brand periods brand_data
              (unique_NoDup _) Hck) as [H1 H2].
  exists rows. eexists. split; [exact Hs|]. split; [exact Hw|].
  split; [reflexivity|]. split; [reflexivity|]. split; [exact H1|].
  intros p1 v1 p2 v2 Hpr. apply (H2 ((p1, v1), (p2, v2)) Hpr).
Qed.

Lemma brand_share_changes_witness :
  exists rows w,
    BrandComparison.create_brand_comparison_sheet sample_shares = Some rows
    /\ In w rows
    /\ Dict.get (BrandComparison.w_cells w) "P2 vs P1 占比变化(%)"
       = Some (Some (Fin 25 - Fin 40)%fl)
    /\ Dict.get (BrandComparison.w_cells w) "P3 vs P2 占比变化(%)"
       = Some (Some (Fin 30 - Fin 25)%fl).
Proof.
  destruct (brand_share_changes sample_shares "A" "x")
    as [rows [w [Hs [Hw [_ [_ [_ Hc]]]]]]].
  - vm_compute. lia.
  - vm_compute. repeat constructor; simpl; intuition discriminate.
  - exists rows, w. split; [exact Hs|]. split; [exact Hw|]. split.
    + apply (Hc "P1" (Fin 40) "P2" (Fin 25)). vm_compute. left. reflexivity.
    + apply (Hc "P2" (Fin 25) "P3" (Fin 30)). vm_compute. right. left. reflexivity.
Defined.

(** ** The segment sheet is the brand sheet of the segments *)

Module SegmentSheet.
Import SegmentComparison.

Lemma add_period_eq (sd : list row) (d : Dict.dict) (p : string) :
  add_period sd d p = BrandComparison.add_period (map as_brand_row sd) d p.
Proof.
  unfold add_period, BrandComparison.add_period.
  rewrite filter_map_comm. simpl.
  destruct (filter (fun x => keqb (r_period x) p) sd); reflexivity.
Qed.

Lemma segment_row_eq (platform segment : string) (periods : list string)
    (sd : list row) :
  as_brand_line (segment_row platform segment periods sd)
  = BrandComparison.brand_row platform segment periods (map as_brand_row sd).
Proof.
  unfold segment_row, BrandComparison.brand_row, as_brand_line. simpl.
  f_equal. f_equal. f_equal. f_equal.
  generalize (@nil (string * option fval)) as d.
  induction periods as [|p t IH]; intros d; simpl; auto.
  now rewrite IH, add_period_eq.
Qed.

Lemma flat_map_map {A B C} (f : A -> B) (g : B -> list C) (l : list A) :
  flat_map g (map f l) = flat_map (fun x => g (f x)) l.
Proof. induction l as [|x t IH]; simpl; auto. now rewrite IH. Qed.

Lemma comparison_data_eq (t : list row) :
  map as_brand_line (comparison_data t)
  = BrandComparison.comparison_data (map as_brand_row t).
Proof.
  unfold comparison_data, BrandComparison.comparison_data.
  rewrite TopTable.map_over_flat_map, !map_map. simpl.
  apply flat_map_ext. intros platform.
  rewrite TopTable.map_over_flat_map.
  rewrite filter_map_comm, !map_map. simpl.
  apply flat_map_ext. intros segment.
  rewrite filter_map_comm, length_map. simpl.
  destruct (1 <? length _)%nat; [|reflexivity].
  simpl. now rewrite segment_row_eq.
Qed.

Lemma sheet_eq (t : list row) :
  option_map (map as_brand_line) (create_segment_comparison_sheet t)
  = BrandComparison.create_brand_comparison_sheet (map as_brand_row t).
Proof.
  unfold create_segment_comparison_sheet,
    BrandComparison.create_brand_comparison_sheet.
  rewrite <- comparison_data_eq, !map_map. simpl.
  replace (empty (map as_brand_row t)) with (empty t) by (destruct t; reflexivity).
  destruct (empty t || _); [reflexivity|].
  destruct (comparison_data t); reflexivity.
Qed.

Lemma in_sheet_eq (t : list row) (platform segment : string) :
  in_sheet (create_segment_comparison_sheet t) platform segment
  <-> BrandComparison.in_sheet
        (BrandComparison.create_brand_comparison_sheet (map as_brand_row t))
        platform segment.
Proof.
  rewrite <- sheet_eq. unfold in_sheet, BrandComparison.in_sheet.
  destruct (create_segment_comparison_sheet t) as [rows|]; simpl.
  - split.
    + intros [rows' [w [[= <-] [Hw [Hp Hs]]]]].
      exists (map as_brand_line rows), (as_brand_line w).
      repeat split; auto. now apply in_map.
    + intros [rows' [w [[= <-] [Hw [Hp Hs]]]]].
      apply in_map_iff in Hw as [w' [<- Hw']].
      exists rows, w'. repeat split; auto.
  - split; intros [rows [w [[=] _]]].
Qed.

Lemma entity_rows_eq (t : list row) (platform segment : string) :
  BrandComparison.entity_rows (map as_brand_row t) platform segment
  = map as_brand_row (entity_rows t platform segment).
Proof.
  unfold BrandComparison.entity_rows, entity_rows. now rewrite filter_map_comm.
Qed.

Lemma entity_periods_eq (t : list row) (platform segment : string) :
  BrandComparison.entity_periods (map as_brand_row t) platform segment
  = entity_periods t platform segment.
Proof.
  unfold BrandComparison.entity_periods, entity_periods.
  now rewrite entity_rows_eq, map_map.
Qed.

End SegmentSheet.

(** X20: in the sheet 价位段占比对比分析 a segment of a platform has a line exactly
    when it has rows in more than one period (the rows of the table having
    distinct keys), and the line holds the shares and the differences
    between neighbouring shares as the brand sheet does. *)
Theorem segment_sheet_lines (t : list SegmentComparison.row)
    (platform segment : string) :
  let platform_data := filter (fun x => keqb (SegmentComparison.r_platform x) platform) t in
  let periods := unique keqb (map SegmentComparison.r_period platform_data) in
  let segment_data :=
    map SegmentComparison.as_brand_row
        (SegmentComparison.entity_rows t platform segment) in
  let shares := ShareCells.present_shares segment_data (sort_by kleb periods) in
  (NoDup (map SegmentComparison.table_key t) ->
   (SegmentComparison.in_sheet (SegmentComparison.create_segment_comparison_sheet t)
                               platform segment
    <-> (1 < length (SegmentComparison.entity_periods t platform segment))%nat))
  /\ ((1 < length (SegmentComparison.entity_periods t platform segment))%nat ->
      NoDup (map ShareCells.neighbour_key (ShareCells.neighbours shares)) ->
      exists rows w,
        SegmentComparison.create_segment_comparison_sheet t = Some rows
        /\ In w rows
        /\ SegmentComparison.w_platform w = platform
        /\ SegmentComparison.w_segment w = segment
        /\ (forall p, In p periods ->
              Dict.get (SegmentComparison.w_cells w) (BrandComparison.share_key p)
              = Some (ShareCells.share_cell segment_data p))
        /\ (forall p1 v1 p2 v2,
              In ((p1, v1), (p2, v2)) (ShareCells.neighbours shares) ->
              Dict.get (SegmentComparison.w_cells w) (BrandComparison.change_key p2 p1)
              = Some (Some (v2 - v1)%fl))).
Proof.
  intros platform_data periods segment_data shares. split.
  - intros Hnd. rewrite SegmentSheet.in_sheet_eq, <- SegmentSheet.entity_periods_eq.
    apply BrandSheet.brand_sheet_iff.
    rewrite map_map. exact Hnd.
  - intros Hl Hck.
    rewrite <- SegmentSheet.entity_periods_eq in Hl.
    destruct (BrandSheetCells.sheet_line _ platform segment Hl) as [rows [Hs Hw]].
    rewrite <- SegmentSheet.sheet_eq in Hs.
    destruct (SegmentComparison.create_segment_comparison_sheet t) as [rows'|];
      [|discriminate].
    injection Hs as <-. apply in_map_iff in Hw as [w [Ew Hw]].
    rewrite SegmentSheet.entity_rows_eq in Ew. fold segment_data in Ew.
    rewrite filter_map_comm, map_map in Ew. simpl in Ew.
    change (SegmentComparison.as_brand_line w
            = BrandComparison.brand_row platform segment periods segment_data) in Ew.
    destruct (BrandCells.brand_row_cells platform segment periods segment_data
                (unique_NoDup _) Hck) as [H1 H2].
    rewrite <- Ew in H1, H2. simpl in H1, H2.
    exists rows', w. split; [reflexivity|]. split; [exact Hw|].
    assert (Ep := f_equal BrandComparison.w_platform Ew).
    assert (Es := f_equal BrandComparison.w_brand Ew). simpl in Ep, Es.
    split; [exact Ep|]. split; [exact Es|]. split; [exact H1|].
    intros p1 v1 p2 v2 Hpr. apply (H2 ((p1, v1), (p2, v2)) Hpr).
Qed.

(** ** The lines of the top brands comparison sheet *)

Module TopBrandsSheet.
Import TopBrandsComparison.

Lemma brand_data_eq (t : list row) (platform segment brand : string) :
  filter (fun x => keqb (r_brand x) brand)
         (filter (fun x => keqb (r_segment x) segment)
                 (filter (fun x => keqb (r_platform x) platform) t))
  = entity_rows t platform segment brand.
Proof.
  unfold entity_rows. rewrite !filter_filter.
  apply filter_ext. intros x. now rewrite andb_assoc.
Qed.

Lemma line_In (t : list row) (w : wide_row) :
  In w (comparison_data t) ->
  (1 < length (entity_rows t (w_platform w) (w_segment w) (w_brand w)))%nat.
Proof.
  unfold comparison_data. intros H.
  apply in_flat_map in H as [platform [_ H]].
  apply in_flat_map in H as [segment [_ H]].
  apply in_flat_map in H as [brand [_ H]].
  rewrite brand_data_eq in H.
  destruct (1 <? length (entity_rows t platform segment brand))%nat eqn:E;
    [|destruct H].
  destruct H as [<-|[]]. simpl. now apply Nat.ltb_lt in E.
Qed.

Lemma line_has (t : list row) (platform segment brand : string) :
  (1 < length (entity_rows t platform segment brand))%nat ->
  exists w, In w (comparison_data t)
            /\ w_platform w = platform /\ w_segment w = segment /\ w_brand w = brand.
Proof.
  intros Hl.
  assert (Hx : exists x, In x (entity_rows t platform segment brand)).
  { destruct (entity_rows t platform segment brand) as [|x rest];
      [simpl in Hl; lia|]. exists x. now left. }
  destruct Hx as [x Hx].
  unfold entity_rows in Hx. apply filter_In in Hx as [Hin Hx].
  rewrite !andb_true_iff, !keqb_eq in Hx. destruct Hx as [[Hp Hs] Hb].
  set (pd := filter (fun y => keqb (r_platform y) platform) t).
  set (sd := filter (fun y => keqb (r_segment y) segment) pd).
  assert (Hpd : In x pd) by (apply filter_In; split; auto; now apply keqb_eq).
  assert (Hsd : In x sd) by (apply filter_In; split; auto; now apply keqb_eq).
  assert (Hbd : filter (fun y => keqb (r_brand y) brand) sd
                = entity_rows t platform segment brand)
    by apply brand_data_eq.
  exists (brand_row platform segment brand (unique keqb (map r_period sd))
                    (entity_rows t platform segment brand)).
  split; [|repeat split].
  unfold comparison_data. apply in_flat_map. exists platform. split.
  - apply unique_In, in_map_iff. eauto.
  - apply in_flat_map. exists segment. split.
    + apply unique_In, in_map_iff. eauto.
    + apply in_flat_map. exists brand. split.
      * apply unique_In, in_map_iff. eauto.
      * fold pd. fold sd. rewrite Hbd, (proj2 (Nat.ltb_lt _ _) Hl).
        now left.
Qed.

Lemma ordered_perm (t : list row) (data : list wide_row) :
  Permutation (ordered t data) data.
Proof.
  unfold ordered.
  destruct (rev (sort_by kleb (unique keqb (map r_period t)))) as [|p ps]; auto.
  destruct (has_column _ data); auto. apply sort_by_perm.
Qed.

(** In a table with one row per (period, platform, segment, brand) the rows
    of a brand are in different periods. *)
Lemma top_brands_entity_periods_NoDup (t : list row) (platform segment brand : string) :
  NoDup (map table_key t) ->
  NoDup (map r_period (entity_rows t platform segment brand)).
Proof.
  unfold entity_rows. induction t as [|x t IH]; simpl; intros Hnd; [constructor|].
  inversion Hnd as [|? ? Hnin Hnd']; subst.
  destruct (keqb (r_platform x) platform && keqb (r_segment x) segment
            && keqb (r_brand x) brand) eqn:E; simpl; auto.
  constructor; auto. intros Hin. apply Hnin.
  apply in_map_iff in Hin as [y [Hp Hy]]. apply filter_In in Hy as [Hy Hf].
  apply in_map_iff. exists y. split; auto.
  rewrite !andb_true_iff, !keqb_eq in E, Hf.
  destruct E as [[E1 E2] E3]. destruct Hf as [[F1 F2] F3].
  unfold table_key. congruence.
Qed.

Lemma top_brands_entity_rows_periods (t : list row) (platform segment brand : string) :
  NoDup (map table_key t) ->
  length (entity_rows t platform segment brand)
  = length (entity_periods t platform segment brand).
Proof.
  intros Hnd. unfold entity_periods.
  rewrite unique_NoDup_id by now apply top_brands_entity_periods_NoDup.
  now rewrite length_map.
Qed.

End TopBrandsSheet.

(** X21: when the rows of the top brands table have distinct keys, the sheet
    价位段品牌对比分析 has a line for a brand of a segment of a platform exactly when
    the brand has rows in more than one period, and the final sort only
    reorders the lines. *)
Theorem top_brands_sheet_lines (t : list TopBrandsComparison.row) :
  NoDup (map TopBrandsComparison.table_key t) ->
  (forall platform segment brand,
     TopBrandsComparison.in_sheet
       (TopBrandsComparison.create_top_brands_comparison_sheet t)
       platform segment brand
     <-> (1 < length (TopBrandsComparison.entity_periods t platform segment brand))%nat)
  /\ forall rows,
       TopBrandsComparison.create_top_brands_comparison_sheet t = Some rows ->
       Permutation rows (TopBrandsComparison.comparison_data t).
Proof.
  intros Hnd. split.
  - intros platform segment brand.
    rewrite <- TopBrandsSheet.top_brands_entity_rows_periods by auto.
    unfold TopBrandsComparison.in_sheet,
      TopBrandsComparison.create_top_brands_comparison_sheet. split.
    + intros [rows [w [Hs [Hw [<- [<- <-]]]]]].
      destruct (empty t || _); [discriminate|].
      destruct (negb (empty (TopBrandsComparison.comparison_data t)));
        [|discriminate].
      injection Hs as <-. apply TopBrandsSheet.line_In.
      eapply Permutation_in; [apply TopBrandsSheet.ordered_perm | exact Hw].
    + intros Hl.
      destruct (TopBrandsSheet.line_has t platform segment brand Hl)
        as [w [Hw [Hp [Hs Hb]]]].
      assert (Hperiods :
                (1 < length (unique keqb (map TopBrandsComparison.r_period t)))%nat).
      { rewrite (TopBrandsSheet.top_brands_entity_rows_periods t platform segment brand Hnd) in Hl.
        eapply Nat.lt_le_trans; [exact Hl|]. apply unique_length_incl.
        intros p Hp'. apply in_map_iff in Hp' as [x [<- Hx]]. apply in_map.
        unfold TopBrandsComparison.entity_rows in Hx. now apply filter_In in Hx. }
      replace (empty t) with false
        by (destruct t; [simpl in Hperiods; lia | reflexivity]).
      rewrite (proj2 (Nat.leb_gt _ _) Hperiods). simpl.
      destruct (TopBrandsComparison.comparison_data t) as [|w0 ws] eqn:E;
        [destruct Hw|]. simpl.
      eexists. exists w. split; [reflexivity|]. split; auto.
      eapply Permutation_in; [symmetry; apply TopBrandsSheet.ordered_perm | exact Hw].
  - intros rows. unfold TopBrandsComparison.create_top_brands_comparison_sheet.
    destruct (empty t || _); [discriminate|].
    destruct (negb (empty (TopBrandsComparison.comparison_data t))); [|discriminate].
    intros [= <-]. apply TopBrandsSheet.ordered_perm.
Qed.

(** ** The sheets of the workbook *)

Module ReportFacts.

Lemma few_periods {A} (f : A -> string) (t : list A) (df : list record) :
  (forall x, In x t -> In (f x) (map period df)) ->
  (length (unique keqb (map period df)) <= 1)%nat ->
  (length (unique keqb (map f t)) <=? 1)%nat = true.
Proof.
  intros Hin Hl. apply Nat.leb_le.
  eapply Nat.le_trans; [|exact Hl]. apply unique_length_incl.
  intros p Hp. apply in_map_iff in Hp as [x [<- Hx]]. now apply Hin.
Qed.

(** The periods of the five tables are periods of the records. *)
Lemma brand_table_periods (df : list record) (t : list BrandShare.share_row)
    (x : BrandShare.share_row) :
  BrandShare.calculate_brand_share df = Some t -> In x t ->
  In (BrandShare.r_period (BrandShare.s_row x)) (map period df).
Proof.
  rewrite BrandShareFacts.calculate_brand_share_eq. intros [= <-] Hx.
  apply in_app_or in Hx as [Hx|Hx]; apply in_map_iff in Hx as [y [<- Hy]]; simpl.
  - apply BrandShareFacts.brand_stats_In in Hy as [[r [Hr [Hp _]]] _].
    rewrite <- Hp. now apply in_map.
  - apply BrandShareFacts.all_platform_brand_stats_In in Hy as [[r [Hr [Hp _]]] _].
    rewrite <- Hp. now apply in_map.
Qed.

Lemma brand_table_nonempty (df : list record) (t : list BrandShare.share_row) :
  BrandShare.calculate_brand_share df = Some t ->
  t <> [] <-> exists r, In r df /\ brand r <> None.
Proof.
  rewrite BrandShareFacts.calculate_brand_share_eq. intros [= <-]. split.
  - intros Hne.
    destruct (map _ (BrandShare.brand_stats df) ++ _)%list as [|x l] eqn:E;
      [congruence|].
    assert (Hx : In x (x :: l)) by now left. rewrite <- E in Hx.
    apply in_app_or in Hx as [Hx|Hx]; apply in_map_iff in Hx as [y [_ Hy]].
    + apply BrandShareFacts.brand_stats_In in Hy as [[r [Hr [_ [_ Hb]]]] _].
      exists r. split; auto. congruence.
    + apply BrandShareFacts.all_platform_brand_stats_In in Hy as [[r [Hr [_ Hb]]] _].
      exists r. split; auto. congruence.
  - intros [r [Hr Hb]] E. apply app_eq_nil in E as [E _].
    apply map_eq_nil in E. unfold BrandShare.brand_stats in E.
    apply map_eq_nil in E. unfold groupby in E. apply map_eq_nil in E.
    destruct (brand r) as [b|] eqn:Eb; [|congruence].
    assert (Hk : In (period r, platform r, b)
                    (group_keys (fun r => option_map (fun b => (period r, platform r, b))
                                                     (brand r)) df)).
    { apply group_keys_In. exists r. split; auto. now rewrite Eb. }
    rewrite E in Hk. destruct Hk.
Qed.

Lemma top_10_rows (t out : list BrandShare.share_row) (x : BrandShare.share_row) :
  Top10.top_10_brands t = Some out -> In x out -> In x t.
Proof.
  unfold Top10.top_10_brands. destruct (empty _); [discriminate|].
  intros [= <-] Hx. destruct (Top10Facts.top_10_result_sub_perm t) as [rest Hperm].
  eapply Permutation_in; [exact Hperm|]. apply in_or_app. now left.
Qed.

Lemma top_10_Some (t : list BrandShare.share_row) :
  Top10.top_10_brands t <> None <-> t <> [].
Proof.
  split.
  - intros H ->. now apply H.
  - intros Hne. now rewrite Top10Facts.top_10_brands_Some.
Qed.

Lemma segments_Some (fill_pad : bool) (df : list record) (bins : list Q) :
  PriceSegments.analyze_price_segments fill_pad df bins <> None
  <-> Segment.bins_valid bins = true.
Proof.
  split.
  - unfold PriceSegments.analyze_price_segments, Segment.with_segments.
    destruct (Segment.bins_valid bins); auto; simpl; congruence.
  - intros Hv.
    destruct (SegmentResult.analyze_price_segments_rows fill_pad df bins Hv)
      as [t [-> _]].
    discriminate.
Qed.

Lemma segment_table_periods (fill_pad : bool) (df : list record) (bins : list Q)
    (t : list PriceSegments.final_row) (x : PriceSegments.final_row) :
  PriceSegments.analyze_price_segments fill_pad df bins = Some t -> In x t ->
  In (PriceSegments.r_period (PriceSegments.s_row (PriceSegments.f_row x)))
     (map period df).
Proof.
  intros Ht Hx.
  assert (Hv : Segment.bins_valid bins = true)
    by (apply (segments_Some fill_pad df); congruence).
  destruct (SegmentResult.analyze_price_segments_rows fill_pad df bins Hv)
    as [t' [Ht' Hrows]].
  rewrite Ht in Ht'. injection Ht' as <-.
  assert (Hy : In (PriceSegments.f_row x) (map PriceSegments.f_row t))
    by now apply in_map.
  apply Hrows, in_app_or in Hy. destruct Hy as [Hy|Hy];
    apply in_map_iff in Hy as [y [<- Hy]]; simpl.
  - apply PriceSegmentFacts.segment_stats_In in Hy as [[r [Hr [Hp _]]] _].
    rewrite <- Hp. apply in_map_iff in Hr as [r0 [<- Hr0]]. now apply in_map.
  - apply PriceSegmentFacts.all_platform_segment_stats_In in Hy as [[r [Hr [Hp _]]] _].
    rewrite <- Hp. apply in_map_iff in Hr as [r0 [<- Hr0]]. now apply in_map.
Qed.

Lemma top_brands_Some (df : list record) (bins : list Q) (n : nat) :
  TopBrands.get_top_brands_by_segment df bins n <> None
  <-> Segment.bins_valid bins = true.
Proof.
  split.
  - unfold TopBrands.get_top_brands_by_segment, Segment.with_segments.
    destruct (Segment.bins_valid bins); auto; simpl; congruence.
  - intros Hv. rewrite TopFacts.get_top_brands_by_segment_eq by auto. discriminate.
Qed.

Lemma top_brands_periods (df : list record) (bins : list Q) (n : nat)
    (t : list TopBrands.share_row) (x : TopBrands.share_row) :
  TopBrands.get_top_brands_by_segment df bins n = Some t -> In x t ->
  In (TopBrands.r_period (TopBrands.s_row x)) (map period df).
Proof.
  intros Ht Hx.
  assert (Hv : Segment.bins_valid bins = true)
    by (apply (top_brands_Some df bins n); congruence).
  rewrite TopFacts.get_top_brands_by_segment_eq in Ht by auto.
  injection Ht as <-. apply in_app_or in Hx as [Hx|Hx];
    apply in_concat in Hx as [block [Hb Hx]].
  - apply TopStrata.block_form in Hb as [p [plat [seg ->]]].
    apply TopTable.top_n_sub in Hx. apply filter_In in Hx as [Hx _].
    unfold TopBrands.platform_table, TopBrands.with_shares in Hx.
    apply in_map_iff in Hx as [y [<- Hy]]. simpl.
    unfold TopBrands.top_brands in Hy.
    apply in_map_iff in Hy as [[[[[p' plat'] s] b] g] [<- Hin]]. simpl.
    apply groupby_In in Hin as [Hk _].
    apply group_keys_In in Hk as [[r c] [Hr Hk]].
    unfold TopBrands.brand_key in Hk. simpl in Hk.
    destruct c; [|discriminate]. destruct (brand r); [|discriminate].
    injection Hk as <- _ _ _.
    apply in_map_iff in Hr as [r0 [[= <- _] Hr0]]. now apply in_map.
  - apply TopStrata.rollup_block_form in Hb as [p [seg ->]].
    apply TopTable.top_n_sub in Hx. apply filter_In in Hx as [Hx _].
    unfold TopBrands.rollup_table, TopBrands.with_all_platform_shares in Hx.
    apply in_map_iff in Hx as [y [<- Hy]]. simpl.
    unfold TopBrands.all_platform_top_brands in Hy.
    apply in_map_iff in Hy as [[[[p' s] b] g] [<- Hin]]. simpl.
    apply groupby_In in Hin as [Hk _].
    apply group_keys_In in Hk as [[r c] [Hr Hk]].
    unfold TopBrands.rollup_key in Hk. simpl in Hk.
    destruct c; [|discriminate]. destruct (brand r); [|discriminate].
    injection Hk as <- _ _.
    apply in_map_iff in Hr as [r0 [[= <- _] Hr0]]. now apply in_map.
Qed.

Lemma top_products_Some (df : list record) (bins : list Q) (n : nat) :
  TopProducts.get_top_products_by_segment df bins n <> None
  <-> Segment.bins_valid bins = true.
Proof.
  split.
  - unfold TopProducts.get_top_products_by_segment, Segment.with_segments.
    destruct (Segment.bins_valid bins); auto; simpl; congruence.
  - intros Hv. rewrite TopProductFacts.get_top_products_by_segment_eq by auto.
    discriminate.
Qed.

Lemma top_products_periods (df : list record) (bins : list Q) (n : nat)
    (t : list TopProducts.row) (x : TopProducts.row) :
  TopProducts.get_top_products_by_segment df bins n = Some t -> In x t ->
  In (TopProducts.r_period x) (map period df).
Proof.
  intros Ht Hx.
  assert (Hv : Segment.bins_valid bins = true)
    by (apply (top_products_Some df bins n); congruence).
  rewrite TopProductFacts.get_top_products_by_segment_eq in Ht by auto.
  injection Ht as <-.
  set (c := fun r => Segment.cut bins (price r)).
  apply in_app_or in Hx as [Hx|Hx].
  - destruct (TopProductFacts.product_result_sub_perm n
                (TopProducts.top_products (map (fun r => (r, c r)) df)))
      as [rest Hperm].
    assert (Hx' := Permutation_in _ Hperm (in_or_app _ rest x (or_introl Hx))).
    destruct (TopProductFacts.top_products_row c df x Hx') as [Hne _].
    destruct (filter _ df) as [|r g] eqn:E; [congruence|].
    assert (Hr : In r (r :: g)) by now left. rewrite <- E in Hr.
    apply filter_In in Hr as [Hr Hk].
    rewrite !andb_true_iff in Hk. destruct Hk as [[[[Hp _] _] _] _].
    apply keqb_eq in Hp. rewrite <- Hp. now apply in_map.
  - destruct (TopProductFacts.rollup_result_sub_perm n
                (TopProducts.all_platform_top_products (map (fun r => (r, c r)) df)))
      as [rest Hperm].
    assert (Hx' := Permutation_in _ Hperm (in_or_app _ rest x (or_introl Hx))).
    destruct (TopProductFacts.rollup_row c df x Hx') as [Hne _].
    destruct (filter _ df) as [|r g] eqn:E; [congruence|].
    assert (Hr : In r (r :: g)) by now left. rewrite <- E in Hr.
    apply filter_In in Hr as [Hr Hk].
    rewrite !andb_true_iff in Hk. destruct Hk as [[[Hp _] _] _].
    apply keqb_eq in Hp. rewrite <- Hp. now apply in_map.
Qed.

End ReportFacts.



Lemma top_products_rows_witness :
  Segment.bins_valid [0; 100; 300] = true
  /\ (forall r, In r sample_segment -> platform r <> ALL_PLATFORMS)
  /\ exists out,
       TopProducts.get_top_products_by_segment sample_segment [0; 100; 300] 2 = Some out
       /\ NoDup (map TopProducts.row_key out).
Proof.
  assert (Hp : forall r, In r sample_segment -> platform r <> ALL_PLATFORMS).
  { intros r [<-|[<-|[<-|[]]]]; discriminate. }
  split; [reflexivity|]. split; [exact Hp|].
  destruct (top_products_rows sample_segment [0; 100; 300] 2 eq_refl)
    as [out [Hout H]].
  exists out. split; [exact Hout|]. exact (proj1 (H Hp)).
Defined.

Lemma top_10_per_stratum_witness :
  sample_shares <> []
  /\ exists out,
       Top10.top_10_brands sample_shares = Some out
       /\ BrandShare.stratum "P1" "A" out
          = Top10.platform_period_data sample_shares "P1" "A".
Proof.
  assert (Hne : sample_shares <> []) by discriminate.
  split; [exact Hne|].
  destruct (proj2 (top_10_per_stratum sample_shares) Hne) as [out [Hout H]].
  exists out. split; [exact Hout|]. exact (proj1 (H "P1" "A")).
Defined.

Lemma top_brands_sheet_lines_witness :
  NoDup (map TopBrandsComparison.table_key sample_top_brands)
  /\ TopBrandsComparison.in_sheet
       (TopBrandsComparison.create_top_brands_comparison_sheet sample_top_brands)
       "A" "0-100" "x"
  /\ ~ TopBrandsComparison.in_sheet
         (TopBrandsComparison.create_top_brands_comparison_sheet sample_top_brands)
         "A" "0-100" "y".
Proof.
  assert (Hnd : NoDup (map TopBrandsComparison.table_key sample_top_brands)).
  { vm_compute. repeat constructor; simpl; intuition discriminate. }
  split; [exact Hnd|].
  destruct (top_brands_sheet_lines sample_top_brands Hnd) as [H _]. split.
  - apply H. vm_compute. lia.
  - intros Hin. apply H in Hin. vm_compute in Hin. lia.
Defined.

Lemma segment_sheet_lines_witness :
  let t := [ SegmentComparison.mkRow "P1" "A" "0-100" 400 4 (Fin 40) (Fin 40) NaN NaN;
             SegmentComparison.mkRow "P2" "A" "0-100" 250 2 (Fin 25) (Fin 20)
                                     (Fin 0) (Fin 0) ] in
  NoDup (map SegmentComparison.table_key t)
  /\ SegmentComparison.in_sheet (SegmentComparison.create_segment_comparison_sheet t)
                                "A" "0-100".
Proof.
  intros t.
  assert (Hnd : NoDup (map SegmentComparison.table_key t)).
  { vm_compute. repeat constructor; simpl; intuition discriminate. }
  split; [exact Hnd|].
  apply (proj1 (segment_sheet_lines t "A" "0-100") Hnd). vm_compute. lia.
Defined.

